(** * XMC MATH SQRT example: fixed-point codec, decimal formatter and driver

    A shallow embedding of [main.c] (the conversions between IEEE-754
    single precision and the Q15/Q31 fixed-point formats, the function
    [float_to_string] and the driver [main]) together with the proofs of
    the properties stated about them.

    The C type [float] is IEEE-754 binary32.  Its operations are the ones
    of [SpecFloat] (the executable specification of IEEE-754 arithmetic of
    the standard library, rounding to nearest with ties to even)
    instantiated at precision 24 and maximal exponent 128.  Expressions are
    evaluated in single precision (FLT_EVAL_METHOD = 0, as on the ARM
    targets of the example). *)

From Stdlib Require Import ZArith QArith Qpower Qabs Qround Lia Lqa Bool List.
From Stdlib Require Import String Ascii.
From Stdlib Require Import SpecFloat.
Import ListNotations.

Local Open Scope string_scope.
Local Open Scope Z_scope.

(* ================================================================= *)
(** * Part I: definitions *)
(* ================================================================= *)

(** ** IEEE-754 binary32 *)

Definition prec : Z := 24.
Definition emax : Z := 128.

Definition b32_opp : spec_float -> spec_float := SFopp.
Definition b32_add : spec_float -> spec_float -> spec_float := SFadd prec emax.
Definition b32_sub : spec_float -> spec_float -> spec_float := SFsub prec emax.
Definition b32_mul : spec_float -> spec_float -> spec_float := SFmul prec emax.
Definition b32_div : spec_float -> spec_float -> spec_float := SFdiv prec emax.
Definition b32_sqrt : spec_float -> spec_float := SFsqrt prec emax.
Definition b32_ltb : spec_float -> spec_float -> bool := SFltb.

(** Conversion of a C integer to [float] (C11 6.3.1.4p2): the nearest
    representable value. *)
Definition b32_of_Z (n : Z) : spec_float := binary_normalize prec emax n 0 false.

(** A [float] object holds a well-formed binary32 datum. *)
Definition is_b32 (x : spec_float) : bool := valid_binary prec emax x.

Definition is_finite (x : spec_float) : bool :=
  match x with
  | S754_zero _ | S754_finite _ _ _ => true
  | _ => false
  end.

(** The rational number denoted by a finite datum; [m * 2 ^ e]. *)
Definition F2Q (m e : Z) : Q := (inject_Z m * 2 ^ e)%Q.

Definition SF2Q (x : spec_float) : Q :=
  match x with
  | S754_finite s m e => F2Q (cond_Zopp s (Zpos m)) e
  | _ => 0%Q
  end.

(** The literals of the program. *)
Definition f_0_5 : spec_float := S754_finite false 8388608 (-24).   (* 0.5F  *)
Definition f_0_25 : spec_float := S754_finite false 8388608 (-25).  (* 0.25F *)

(** The largest [float] below [2 ^ -16]: [2 ^ -16 - 2 ^ -40]. *)
Definition q15_tie : spec_float := S754_finite false 16777215 (-40).

(** ** Round to nearest even, as a function on integers

    [rnd_shift m k] is [m / 2 ^ k] rounded to the nearest integer, ties to
    even; [round_spec m e] is the mantissa and exponent of the binary32
    value nearest to [m * 2 ^ e]. These two functions are the reference
    against which the bit-level rounding of [SpecFloat] is proved. *)

Definition rnd_shift (m k : Z) : Z :=
  let q := m / 2 ^ k in
  let r := m mod 2 ^ k in
  let h := 2 ^ (k - 1) in
  if r <? h then q
  else if h <? r then q + 1
  else if Z.even q then q else q + 1.

Definition round_spec (m e : Z) : Z * Z :=
  let e1 := fexp prec emax (Zdigits2 m + e) in
  if e1 <=? e then (m, e)
  else
    let m1 := rnd_shift m (e1 - e) in
    if m1 =? 2 ^ prec then (2 ^ (prec - 1), e1 + 1) else (m1, e1).

(** The exponent of the unit in the last place of [m * 2 ^ e], and
    [m * 2 ^ e] rounded to an integral number of such units; [m] is signed
    here. *)
Definition ulp_exp (m e : Z) : Z := fexp prec emax (Zdigits2 m + e).

Definition rnd_int (m e : Z) : Z :=
  let e1 := ulp_exp m e in
  if e1 <=? e then m * 2 ^ (e - e1)
  else Z.sgn m * rnd_shift (Z.abs m) (e1 - e).

(** [r] is [v] rounded to nearest in binary32, whatever way [v] is written
    as a dyadic number. *)
Definition rounds_to (v r : Q) : Prop :=
  forall m e : Z, (v == F2Q m e)%Q -> (r == F2Q (rnd_int m e) (ulp_exp m e))%Q.

(** The datum built from a sign, a rounded mantissa and an exponent. *)
Definition SF_of_round (s : bool) (me : Z * Z) : spec_float :=
  match fst me with
  | Z0 => S754_zero s
  | Zpos m => if snd me <=? emax - prec then S754_finite s m (snd me)
              else S754_infinity s
  | Zneg _ => S754_nan
  end.

(** ** C integer types and conversions *)

Definition int_min (w : Z) : Z := - 2 ^ (w - 1).
Definition int_max (w : Z) : Z := 2 ^ (w - 1) - 1.

Definition in_int (w n : Z) : bool := (int_min w <=? n) && (n <=? int_max w).

(** The value of the two's complement [w]-bit integer with the low [w]
    bits of [n]. *)
Definition sext (w n : Z) : Z := (n + 2 ^ (w - 1)) mod 2 ^ w - 2 ^ (w - 1).

(** The value that an object of type [uint8_t] takes of an integer
    (C11 6.3.1.3p2). *)
Definition uint8 (n : Z) : Z := n mod 2 ^ 8.

(** The integral part of a finite datum, truncated toward zero. *)
Definition SFtrunc (x : spec_float) : option Z :=
  match x with
  | S754_zero _ => Some 0
  | S754_finite s m e =>
      Some (cond_Zopp s (if 0 <=? e then Zpos m * 2 ^ e else Zpos m / 2 ^ (- e)))
  | _ => None
  end.

(** Truncation toward zero of a rational number. *)
Definition Qtrunc (q : Q) : Z :=
  if Qle_bool 0 q then Qfloor q else Qceiling q.

(** The output of [float_to_string] and of [main] needs decimal
    numerals. *)

Definition digit_char (d : Z) : ascii := ascii_of_nat (48 + Z.to_nat d).

Fixpoint dec_digits (fuel : nat) (n : Z) : string :=
  match fuel with
  | O => EmptyString
  | S fuel' =>
      if n <? 10 then String (digit_char n) EmptyString
      else dec_digits fuel' (n / 10) ++ String (digit_char (n mod 10)) EmptyString
  end.

(** The decimal numeral of a natural number; a number has no more decimal
    than binary digits, which bounds the recursion. *)
Definition print_uint (n : Z) : string :=
  dec_digits (S (Z.to_nat (Z.log2 n))) n.

Fixpoint zeros (k : nat) : string :=
  match k with
  | O => EmptyString
  | S k' => String "0" (zeros k')
  end.

(** [printf]'s conversions [%d] (and [%ld]: [long] has 32 bits on the
    target) and [%03d]: minimal width 3, padded with zeros after the
    sign. *)
Definition fmt_d (n : Z) : string :=
  if n <? 0 then String "-" (print_uint (- n)) else print_uint n.

Definition fmt_03d (n : Z) : string :=
  if n <? 0
  then String "-" (zeros (2 - String.length (print_uint (- n))) ++ print_uint (- n))
  else zeros (3 - String.length (print_uint n)) ++ print_uint n.

(** [snprintf (buf, size, ...)]: the string held by [buf] afterwards, where
    [old] is what it held before and [text] the complete formatted text.
    Nothing is written when [size] is 0; otherwise at most [size - 1]
    characters, then the terminator. *)
Definition snprintf (old : string) (size : Z) (text : string) : string :=
  if size <=? 0 then old
  else String.substring 0 (Z.to_nat (size - 1)) text.

Definition CR : ascii := ascii_of_nat 13.
Definition LF : ascii := ascii_of_nat 10.
Definition ESC : ascii := ascii_of_nat 27.
Definition CRLF : string := String CR (String LF EmptyString).

Definition is_digit (c : ascii) : bool :=
  let n := nat_of_ascii c in (48 <=? n)%nat && (n <=? 57)%nat.

Fixpoint all_chars (p : ascii -> bool) (s : string) : bool :=
  match s with
  | EmptyString => true
  | String c s' => p c && all_chars p s'
  end.

Fixpoint count_char (c : ascii) (s : string) : nat :=
  match s with
  | EmptyString => O
  | String c' s' => (if Ascii.eqb c c' then 1 else 0) + count_char c s'
  end.

(** The characters after the first occurrence of [c], if there is one. *)
Fixpoint after_char (c : ascii) (s : string) : option string :=
  match s with
  | EmptyString => None
  | String c' s' => if Ascii.eqb c c' then Some s' else after_char c s'
  end.

(** Exactly one decimal point, followed by exactly three characters, all
    of them digits. *)
Definition decimal_shape (s : string) : Prop :=
  count_char "." s = 1%nat /\
  exists frac, after_char "." s = Some frac /\
               String.length frac = 3%nat /\ all_chars is_digit frac = true.

Definition is_num_char (c : ascii) : bool :=
  is_digit c || Ascii.eqb c "-" || Ascii.eqb c ".".

(** No line break inside. *)
Definition single_line (s : string) : Prop :=
  count_char CR s = 0%nat /\ count_char LF s = 0%nat.

(** Zero, a positive number or the positive infinity. *)
Definition nonneg_float (x : spec_float) : bool :=
  match x with
  | S754_zero _ | S754_finite false _ _ | S754_infinity false => true
  | _ => false
  end.

(** ** The program *)

(** The two effects of the sign test of [float_to_string]: the marker, and
    the number that is formatted. *)
Definition sign_text (x : spec_float) : string :=
  if b32_ltb x (b32_of_Z 0) then "-" else EmptyString.

Definition magnitude (x : spec_float) : spec_float :=
  if b32_ltb x (b32_of_Z 0) then b32_opp x else x.

(** What [main] prints first: the screen is cleared, then the title. *)
Definition banner : string :=
  String ESC "[2J" ++ String ESC "[;H" ++
  "===============================================================" ++ CRLF ++
  "XMC MCU: MATH SQRT example" ++ CRLF ++
  "===============================================================" ++ CRLF ++
  String LF EmptyString.

Section Program.

(** C leaves the conversion of a [float] to an integer type undefined
    when the integral part is not representable (C11 6.3.1.4p1), and so
    for infinities and NaN.  [conv_undef x] stands for the bits that the
    implementation at hand delivers in that case; they are narrowed to
    the destination type.  A statement proved for every [conv_undef]
    holds whatever the implementation does. *)
Variable conv_undef : spec_float -> Z.

Definition fptosi (w : Z) (x : spec_float) : Z :=
  match SFtrunc x with
  | Some n => if in_int w n then n else sext w (conv_undef x)
  | None => sext w (conv_undef x)
  end.

(** The hardware square root, [XMC_MATH_CORDIC_Q31_Sqrt] of the XMC
    peripheral library: an operation from Q31 to Q31, not part of the
    program. Its result has type [int32_t]. *)
Variable XMC_MATH_CORDIC_Q31_Sqrt : Z -> Z.

Definition INPUT_NUM : spec_float := f_0_25.
Definition STRING_BUF_SIZE : Z := 32.

(** [(float) a / 0x8000] *)
Definition q15_to_float (a : Z) : spec_float :=
  b32_div (b32_of_Z a) (b32_of_Z 32768).

(** [(float) a / 0x80000000] *)
Definition q31_to_float (a : Z) : spec_float :=
  b32_div (b32_of_Z a) (b32_of_Z 2147483648).

(** [(int16_t)( (a * 0x8000) + 0.5F )], widened to the [int32_t] that is
    returned. *)
Definition float_to_q15 (a : spec_float) : Z :=
  fptosi 16 (b32_add (b32_mul a (b32_of_Z 32768)) f_0_5).

(** [(int32_t)( (a * 0x80000000) + 0.5F )] *)
Definition float_to_q31 (a : spec_float) : Z :=
  fptosi 32 (b32_add (b32_mul a (b32_of_Z 2147483648)) f_0_5).

(** The complete text that [float_to_string] hands to [snprintf]. *)
Definition float_text (number : spec_float) : string :=
  let is_negative := b32_ltb number (b32_of_Z 0) in
  let number := if is_negative then b32_opp number else number in
  let integral_part := fptosi 32 number in
  let decimal_part :=
    fptosi 32 (b32_mul (b32_sub number (b32_of_Z integral_part)) (b32_of_Z 1000)) in
  if is_negative
  then String "-" (fmt_d integral_part ++ String "." (fmt_03d decimal_part))
  else fmt_d integral_part ++ String "." (fmt_03d decimal_part).

(** [float_to_string (string_buffer, buf_size, number)]: the string in
    the buffer afterwards. The parameter [buf_size] has type [uint8_t]:
    the function receives the size reduced modulo 256. *)
Definition float_to_string (string_buffer : string) (buf_size : Z)
                           (number : spec_float) : string :=
  snprintf string_buffer (uint8 buf_size) (float_text number).

Definition CY_RSLT_SUCCESS : Z := 0.

(** [main]: the characters sent to the UART. [result] is what
    [cybsp_init] returned: [CY_ASSERT(0)] stops the program when it is
    not [CY_RSLT_SUCCESS]. [string_buff] is what the local buffer holds
    when the function starts; [sqrtf] is the correctly rounded square
    root. After the last line the program loops forever. *)
Definition main (result : Z) (string_buff : string) : string :=
  if negb (result =? CY_RSLT_SUCCESS) then EmptyString
  else
    let out := banner in
    let sqr_root_cordic_q31 :=
      sext 32 (XMC_MATH_CORDIC_Q31_Sqrt (float_to_q31 INPUT_NUM)) in
    let out := out ++ "Sqr_root_CORDIC_Q31 = " ++ fmt_d sqr_root_cordic_q31 ++ " " ++ CRLF in
    let sqr_root_cordic_float := q31_to_float sqr_root_cordic_q31 in
    let string_buff := float_to_string string_buff STRING_BUF_SIZE sqr_root_cordic_float in
    let out := out ++ "Sqr_root_CORDIC_float = " ++ string_buff ++ CRLF in
    let sqr_root_software_float := b32_sqrt INPUT_NUM in
    let string_buff := float_to_string string_buff STRING_BUF_SIZE sqr_root_software_float in
    let out := out ++ "Sqr_root_Software_float = " ++ string_buff ++ CRLF in
    out.

End Program.

(** The conversion of the ARM run-time ABI ([__aeabi_f2iz], and the VCVT
    instruction): saturation, and 0 for NaN. *)
Definition arm_conv (x : spec_float) : Z :=
  match x with
  | S754_nan => 0
  | S754_infinity s => if s then int_min 32 else int_max 32
  | _ =>
      match SFtrunc x with
      | Some n => Z.max (int_min 32) (Z.min (int_max 32) n)
      | None => 0
      end
  end.

(** The conversion of the x86 instruction CVTTSS2SI, by which a compiler
    for a PC implements the cast: the "integer indefinite" value
    [0x80000000] for every operand that is out of range, infinite or
    NaN. *)
Definition x86_conv (x : spec_float) : Z :=
  match SFtrunc x with
  | Some n => if in_int 32 n then n else int_min 32
  | None => int_min 32
  end.

(* ================================================================= *)
(** * Part II: the arithmetic of binary32 *)
(* ================================================================= *)

(** ** Number of binary digits *)

Lemma digits2_pos_log2 (p : positive) : Zpos (digits2_pos p) = Z.log2 (Zpos p) + 1.
Proof.
  induction p as [p IH|p IH|]; cbn [digits2_pos].
  - rewrite Pos2Z.inj_succ, IH. change (Zpos p~1) with (2 * Zpos p + 1).
    rewrite (Z.log2_succ_double (Zpos p)) by lia. lia.
  - rewrite Pos2Z.inj_succ, IH. change (Zpos p~0) with (2 * Zpos p).
    rewrite (Z.log2_double (Zpos p)) by lia. lia.
  - reflexivity.
Qed.

Lemma Zdigits2_log2 (m : Z) : 0 < m -> Zdigits2 m = Z.log2 m + 1.
Proof.
  destruct m as [|p|p]; try lia. intros _. apply digits2_pos_log2.
Qed.

Lemma Zdigits2_bounds (m : Z) :
  0 < m -> 2 ^ (Zdigits2 m - 1) <= m < 2 ^ Zdigits2 m.
Proof.
  intros Hm. rewrite Zdigits2_log2 by assumption.
  replace (Z.log2 m + 1 - 1) with (Z.log2 m) by lia.
  replace (Z.log2 m + 1) with (Z.succ (Z.log2 m)) by lia.
  apply Z.log2_spec. assumption.
Qed.

Lemma Zdigits2_unique (m d : Z) :
  2 ^ (d - 1) <= m < 2 ^ d -> 0 < d -> Zdigits2 m = d.
Proof.
  intros H Hd.
  assert (0 < m) by (pose proof (Z.pow_pos_nonneg 2 (d - 1)); lia).
  rewrite Zdigits2_log2 by assumption.
  rewrite (Z.log2_unique m (d - 1)); try lia.
  replace (Z.succ (d - 1)) with d by lia. assumption.
Qed.

Lemma shr_1_nonneg (m : Z) (r s : bool) :
  0 <= m ->
  shr_1 (Build_shr_record m r s) = Build_shr_record (Z.div2 m) (Z.odd m) (r || s).
Proof.
  intros Hm. destruct m as [|p|p]; try lia; [reflexivity|].
  destruct p; reflexivity.
Qed.

Lemma iter_pos_nat {A : Type} (f : A -> A) (p : positive) (x : A) :
  iter_pos f p x = Nat.iter (Pos.to_nat p) f x.
Proof.
  revert x. induction p as [p IH|p IH|]; intros x; cbn [iter_pos].
  - rewrite !IH, Pos2Nat.inj_xI.
    replace (S (2 * Pos.to_nat p)) with (Pos.to_nat p + (Pos.to_nat p + 1))%nat by lia.
    rewrite !Nat.iter_add. reflexivity.
  - rewrite !IH, Pos2Nat.inj_xO.
    replace (2 * Pos.to_nat p)%nat with (Pos.to_nat p + Pos.to_nat p)%nat by lia.
    rewrite Nat.iter_add. reflexivity.
  - reflexivity.
Qed.

Lemma shr_iter (m : Z) (n : nat) :
  0 <= m ->
  Nat.iter n shr_1 (Build_shr_record m false false) =
  Build_shr_record (m / 2 ^ Z.of_nat n)
                   (Z.odd (2 * m / 2 ^ Z.of_nat n))
                   (negb ((2 * m) mod 2 ^ Z.of_nat n =? 0)).
Proof.
  intros Hm. induction n as [|n IH].
  - unfold Nat.iter; cbn [nat_rect]. change (2 ^ Z.of_nat 0) with 1.
    rewrite !Z.div_1_r, Z.mod_1_r, Z.odd_mul. reflexivity.
  - rewrite Nat.iter_succ, IH.
    assert (Hp : 0 < 2 ^ Z.of_nat n) by (apply Z.pow_pos_nonneg; lia).
    rewrite shr_1_nonneg by (apply Z.div_pos; lia).
    rewrite Nat2Z.inj_succ, Z.pow_succ_r by lia.
    f_equal.
    + rewrite Z.div2_div, Z.div_div by lia. f_equal. lia.
    + rewrite Z.div_mul_cancel_l by lia. reflexivity.
    + rewrite (Z.mul_comm 2 (2 ^ Z.of_nat n)).
      rewrite Z.rem_mul_r by lia.
      rewrite <- (Z.bit0_odd (2 * m / 2 ^ Z.of_nat n)).
      pose proof (Z.bit0_mod (2 * m / 2 ^ Z.of_nat n)) as Hbit.
      pose proof (Z.mod_pos_bound (2 * m) (2 ^ Z.of_nat n) Hp).
      set (a := (2 * m) mod 2 ^ Z.of_nat n) in *.
      set (P := 2 ^ Z.of_nat n) in *.
      destruct (Z.testbit (2 * m / P) 0); cbn [Z.b2z] in Hbit; rewrite <- Hbit.
      * cbn [orb]. symmetry. apply negb_true_iff, Z.eqb_neq. nia.
      * replace (a + P * 0) with a by lia. reflexivity.
Qed.

Lemma rnd_shift_range (m k : Z) :
  0 <= m -> 0 < k -> m / 2 ^ k <= rnd_shift m k <= m / 2 ^ k + 1.
Proof.
  intros Hm Hk. unfold rnd_shift.
  destruct (_ <? _); [lia|]. destruct (_ <? _); [lia|]. destruct (Z.even _); lia.
Qed.

Lemma rne_shr (m : Z) (k : positive) :
  0 <= m ->
  let mrs := iter_pos shr_1 k (Build_shr_record m false false) in
  round_nearest_even (shr_m mrs) (loc_of_shr_record mrs) = rnd_shift m (Zpos k).
Proof.
  intros Hm mrs. subst mrs.
  rewrite iter_pos_nat, shr_iter, positive_nat_Z by assumption.
  unfold rnd_shift.
  assert (Hh : 0 < 2 ^ (Zpos k - 1)) by (apply Z.pow_pos_nonneg; lia).
  assert (E : 2 ^ Zpos k = 2 ^ (Zpos k - 1) * 2).
  { rewrite Z.mul_comm, <- Z.pow_succ_r by lia. f_equal. lia. }
  set (h := 2 ^ (Zpos k - 1)) in *. rewrite !E.
  rewrite (Z.mul_comm h 2), Z.div_mul_cancel_l, Z.mul_mod_distr_l by lia.
  rewrite (Z.mul_comm 2 h), Z.rem_mul_r by lia.
  pose proof (Z.mod_pos_bound m h Hh) as Ha.
  pose proof (Z.mod_pos_bound (m / h) 2 ltac:(lia)) as Hb.
  rewrite <- (Z.bit0_odd (m / h)).
  pose proof (Z.bit0_mod (m / h)) as Hbit.
  set (a := m mod h) in *. set (b := (m / h) mod 2) in *.
  cbn [shr_m loc_of_shr_record].
  destruct (Z.testbit (m / h) 0); cbn [Z.b2z] in Hbit; rewrite <- Hbit.
  - destruct (Z.eqb_spec (2 * a) 0) as [E0|E0]; cbn [negb round_nearest_even].
    + replace a with 0 by lia. replace (0 + h * 1) with h by lia.
      rewrite !Z.ltb_irrefl. reflexivity.
    + replace (a + h * 1 <? h) with false by (symmetry; apply Z.ltb_ge; lia).
      replace (h <? a + h * 1) with true by (symmetry; apply Z.ltb_lt; lia).
      reflexivity.
  - replace (a + h * 0) with a by lia.
    replace (a <? h) with true by (symmetry; apply Z.ltb_lt; lia).
    destruct (Z.eqb_spec (2 * a) 0); reflexivity.
Qed.

Lemma fexp_eq (e : Z) : fexp prec emax e = Z.max (e - 24) (-149).
Proof. reflexivity. Qed.

Lemma rnd_shift_le_pow (m k : Z) :
  0 < m -> 0 < k -> Zdigits2 m - 24 <= k -> 0 <= rnd_shift m k <= 2 ^ 24.
Proof.
  intros Hm Hk Hd.
  pose proof (rnd_shift_range m k ltac:(lia) Hk) as Hr.
  pose proof (Zdigits2_bounds m Hm) as Hb.
  assert (0 < 2 ^ k) by (apply Z.pow_pos_nonneg; lia).
  assert (0 <= m / 2 ^ k) by (apply Z.div_pos; lia).
  assert (m / 2 ^ k < 2 ^ 24).
  { apply Z.div_lt_upper_bound; [lia|].
    rewrite <- Z.pow_add_r by lia.
    assert (2 ^ Zdigits2 m <= 2 ^ (k + 24)) by (apply Z.pow_le_mono_r; lia).
    lia. }
  lia.
Qed.

Theorem binary_round_aux_spec (s : bool) (m : positive) (e : Z) :
  binary_round_aux prec emax s (Zpos m) e loc_Exact =
  SF_of_round s (round_spec (Zpos m) e).
Proof.
  unfold binary_round_aux, round_spec, shr_fexp.
  cbn [shr_record_of_loc].
  set (d := Zdigits2 (Zpos m)).
  rewrite fexp_eq. set (e1 := Z.max (d + e - 24) (-149)).
  destruct (Z.leb_spec e1 e) as [Hle|Hlt].
  - (* the mantissa fits: nothing is shifted out *)
    assert (Hk : e1 - e <= 0) by lia.
    assert (Hshr : forall mrs, shr mrs e (e1 - e) = (mrs, e)).
    { intros mrs. unfold shr. destruct (e1 - e); try reflexivity; lia. }
    rewrite Hshr. cbn [shr_m loc_of_shr_record round_nearest_even].
    fold d. rewrite fexp_eq. fold e1. rewrite Hshr. reflexivity.
  - assert (Hk : 0 < e1 - e) by lia.
    destruct (e1 - e) as [|k|k] eqn:Ek; try lia.
    cbn [shr]. rewrite rne_shr by lia.
    replace (e + Zpos k) with e1 by lia.
    pose proof (rnd_shift_le_pow (Zpos m) (Zpos k) ltac:(lia) ltac:(lia)
                  ltac:(fold d; lia)) as Hm1.
    set (m1 := rnd_shift (Zpos m) (Zpos k)) in *.
    change (2 ^ prec) with 16777216. change (2 ^ 24) with 16777216 in Hm1.
    destruct (Z.eqb_spec m1 16777216) as [E|NE].
    + rewrite E. cbn [Zdigits2 digits2_pos Pos.succ]. rewrite fexp_eq.
      replace (Z.max (25 + e1 - 24) (-149) - e1) with 1 by lia.
      reflexivity.
    + assert (Hd1 : Zdigits2 m1 <= 24).
      { destruct (Z.eq_dec m1 0) as [->|]; [cbn; lia|].
        pose proof (Zdigits2_bounds m1 ltac:(lia)) as Hb.
        destruct (Z_le_gt_dec (Zdigits2 m1) 24) as [|Hgt]; [assumption|].
        assert (2 ^ 24 <= 2 ^ (Zdigits2 m1 - 1)) by (apply Z.pow_le_mono_r; lia).
        change (2 ^ 24) with 16777216 in *. lia. }
      rewrite fexp_eq.
      assert (Hk1 : Z.max (Zdigits2 m1 + e1 - 24) (-149) - e1 <= 0) by lia.
      unfold shr. destruct (Z.max _ _ - e1); try lia; reflexivity.
Qed.

(** ** Rounding of integers *)

Lemma pow2_pos (k : Z) : 0 <= k -> 0 < 2 ^ k.
Proof. intros. apply Z.pow_pos_nonneg; lia. Qed.

Lemma pow2_split (a b : Z) : 0 <= a -> 0 <= b -> 2 ^ (a + b) = 2 ^ a * 2 ^ b.
Proof. intros. apply Z.pow_add_r; assumption. Qed.

Lemma rnd_shift_exact (m k : Z) :
  0 < k -> m mod 2 ^ k = 0 -> rnd_shift m k = m / 2 ^ k.
Proof.
  intros Hk H0. unfold rnd_shift. rewrite H0.
  pose proof (pow2_pos (k - 1) ltac:(lia)).
  replace (0 <? 2 ^ (k - 1)) with true by (symmetry; apply Z.ltb_lt; lia).
  reflexivity.
Qed.

Lemma rnd_shift_err (m k : Z) :
  0 < k -> - 2 ^ k <= 2 * (rnd_shift m k * 2 ^ k - m) <= 2 ^ k.
Proof.
  intros Hk. unfold rnd_shift.
  pose proof (pow2_pos (k - 1) ltac:(lia)) as Hh.
  assert (E : 2 ^ k = 2 * 2 ^ (k - 1)).
  { rewrite <- Z.pow_succ_r by lia. f_equal. lia. }
  pose proof (Z.div_mod m (2 ^ k) ltac:(lia)) as Hdm.
  pose proof (Z.mod_pos_bound m (2 ^ k) ltac:(lia)) as Hr.
  set (q := m / 2 ^ k) in *. set (r := m mod 2 ^ k) in *.
  set (h := 2 ^ (k - 1)) in *. set (P := 2 ^ k) in *.
  destruct (Z.ltb_spec r h); [nia|].
  destruct (Z.ltb_spec h r); [nia|].
  destruct (Z.even q); nia.
Qed.

Lemma rnd_shift_scale (m k j : Z) :
  0 < k -> 0 <= j -> rnd_shift (m * 2 ^ j) (k + j) = rnd_shift m k.
Proof.
  intros Hk Hj. unfold rnd_shift.
  pose proof (pow2_pos j Hj) as Hpj. pose proof (pow2_pos k ltac:(lia)) as Hpk.
  pose proof (pow2_pos (k - 1) ltac:(lia)) as Hh.
  rewrite pow2_split by lia.
  rewrite Z.div_mul_cancel_r by lia.
  rewrite Z.mul_mod_distr_r by lia.
  replace (k + j - 1) with (k - 1 + j) by lia. rewrite pow2_split by lia.
  set (r := m mod 2 ^ k). set (h := 2 ^ (k - 1)). set (J := 2 ^ j) in *.
  destruct (Z.ltb_spec r h) as [H1|H1].
  - replace (r * J <? h * J) with true by (symmetry; apply Z.ltb_lt; nia). reflexivity.
  - replace (r * J <? h * J) with false by (symmetry; apply Z.ltb_ge; nia).
    destruct (Z.ltb_spec h r) as [H2|H2].
    + replace (h * J <? r * J) with true by (symmetry; apply Z.ltb_lt; nia). reflexivity.
    + replace (h * J <? r * J) with false by (symmetry; apply Z.ltb_ge; nia). reflexivity.
Qed.

Lemma Zdigits2_shift (m j : Z) :
  0 < m -> 0 <= j -> Zdigits2 (m * 2 ^ j) = Zdigits2 m + j.
Proof.
  intros Hm Hj. pose proof (pow2_pos j Hj).
  rewrite !Zdigits2_log2 by nia. rewrite Z.log2_mul_pow2 by lia. lia.
Qed.

Lemma Zdigits2_opp (m : Z) : Zdigits2 (- m) = Zdigits2 m.
Proof. destruct m; reflexivity. Qed.

Lemma Zdigits2_abs (m : Z) : Zdigits2 (Z.abs m) = Zdigits2 m.
Proof. destruct m; reflexivity. Qed.

Lemma Zdigits2_nonneg (m : Z) : 0 <= Zdigits2 m.
Proof. destruct m; cbn; lia. Qed.

Lemma Zdigits2_pos (m : Z) : m <> 0 -> 0 < Zdigits2 m.
Proof. destruct m; cbn; lia. Qed.

Lemma Zdigits2_le_bound (m d : Z) : 0 <= d -> Z.abs m < 2 ^ d -> Zdigits2 m <= d.
Proof.
  intros Hd Hm. rewrite <- Zdigits2_abs.
  destruct (Z.eq_dec (Z.abs m) 0) as [->|NE]; [cbn; lia|].
  pose proof (Zdigits2_bounds (Z.abs m) ltac:(lia)) as Hb.
  destruct (Z_le_gt_dec (Zdigits2 (Z.abs m)) d) as [|Hgt]; [assumption|].
  assert (2 ^ d <= 2 ^ (Zdigits2 (Z.abs m) - 1)) by (apply Z.pow_le_mono_r; lia).
  lia.
Qed.

Lemma Zdigits2_ge_bound (m d : Z) : 2 ^ d <= Z.abs m -> 0 <= d -> d < Zdigits2 m.
Proof.
  intros Hm Hd. rewrite <- Zdigits2_abs.
  pose proof (pow2_pos d Hd).
  pose proof (Zdigits2_bounds (Z.abs m) ltac:(lia)) as Hb.
  destruct (Z_lt_le_dec d (Zdigits2 (Z.abs m))) as [|Hle]; [assumption|].
  assert (2 ^ Zdigits2 (Z.abs m) <= 2 ^ d)
    by (apply Z.pow_le_mono_r; [lia|assumption]).
  lia.
Qed.

Lemma ulp_exp_eq (m e : Z) : ulp_exp m e = Z.max (Zdigits2 m + e - 24) (-149).
Proof. reflexivity. Qed.

Lemma ulp_exp_opp (m e : Z) : ulp_exp (- m) e = ulp_exp m e.
Proof. unfold ulp_exp. rewrite Zdigits2_opp. reflexivity. Qed.

Lemma ulp_exp_shift (m e j : Z) :
  m <> 0 -> 0 <= j -> ulp_exp (m * 2 ^ j) (e - j) = ulp_exp m e.
Proof.
  intros NE Hj. unfold ulp_exp. f_equal.
  rewrite <- (Zdigits2_abs (m * 2 ^ j)), <- (Zdigits2_abs m).
  pose proof (pow2_pos j Hj).
  rewrite Z.abs_mul, (Z.abs_eq (2 ^ j)) by lia.
  rewrite Zdigits2_shift by lia. lia.
Qed.

Lemma rnd_int_0 (e : Z) : rnd_int 0 e = 0.
Proof. unfold rnd_int. destruct (_ <=? _); reflexivity. Qed.

Lemma rnd_int_opp (m e : Z) : rnd_int (- m) e = - rnd_int m e.
Proof.
  unfold rnd_int. rewrite ulp_exp_opp, Z.abs_opp, Z.sgn_opp.
  destruct (_ <=? _); lia.
Qed.

Lemma rnd_int_pos (m e : Z) :
  0 < m ->
  rnd_int m e = if ulp_exp m e <=? e then m * 2 ^ (e - ulp_exp m e)
                else rnd_shift m (ulp_exp m e - e).
Proof.
  intros Hm. unfold rnd_int. rewrite Z.sgn_pos, Z.abs_eq by lia.
  destruct (_ <=? _); lia.
Qed.

Lemma rnd_int_shift_pos (m e j : Z) :
  0 < m -> 0 <= j -> rnd_int (m * 2 ^ j) (e - j) = rnd_int m e.
Proof.
  intros Hm Hj. pose proof (pow2_pos j Hj) as Hpj.
  rewrite !rnd_int_pos by nia.
  rewrite ulp_exp_shift by lia.
  set (e1 := ulp_exp m e).
  destruct (Z.leb_spec e1 (e - j)) as [H1|H1].
  - replace (e1 <=? e) with true by (symmetry; apply Z.leb_le; lia).
    replace (e - e1) with (j + (e - j - e1)) by lia.
    rewrite pow2_split by lia. ring.
  - destruct (Z.leb_spec e1 e) as [H2|H2].
    + (* only the padding is shifted out *)
      assert (Hk : 0 < e1 - (e - j)) by lia.
      replace j with ((e - e1) + (e1 - (e - j))) at 1 by lia.
      rewrite pow2_split, Z.mul_assoc by lia.
      pose proof (pow2_pos (e1 - (e - j)) ltac:(lia)).
      rewrite rnd_shift_exact by (try apply Z.mod_mul; lia).
      rewrite Z.div_mul by lia. reflexivity.
    + replace (e1 - (e - j)) with (e1 - e + j) by lia.
      apply rnd_shift_scale; lia.
Qed.

Lemma rnd_int_shift (m e j : Z) :
  0 <= j -> rnd_int (m * 2 ^ j) (e - j) = rnd_int m e.
Proof.
  intros Hj. destruct (Z.lt_trichotomy m 0) as [Hm|[->|Hm]].
  - pose proof (rnd_int_shift_pos (- m) e j ltac:(lia) Hj) as H.
    rewrite Z.mul_opp_l, !rnd_int_opp in H. lia.
  - rewrite Z.mul_0_l, !rnd_int_0. reflexivity.
  - apply rnd_int_shift_pos; assumption.
Qed.

(** The rounded mantissa has at most 24 bits, or is [2 ^ 24]. *)
Lemma rnd_int_bound (m e : Z) : 0 < m -> 0 <= rnd_int m e <= 2 ^ 24.
Proof.
  intros Hm. rewrite rnd_int_pos by assumption.
  pose proof (ulp_exp_eq m e) as He1. set (e1 := ulp_exp m e) in *.
  pose proof (Zdigits2_bounds m Hm) as Hb.
  destruct (Z.leb_spec e1 e) as [H1|H1].
  - pose proof (pow2_pos (e - e1) ltac:(lia)).
    split; [nia|].
    assert (m * 2 ^ (e - e1) < 2 ^ Zdigits2 m * 2 ^ (e - e1)) by nia.
    rewrite <- pow2_split in H0 by (pose proof (Zdigits2_nonneg m); lia).
    assert (2 ^ (Zdigits2 m + (e - e1)) <= 2 ^ 24) by (apply Z.pow_le_mono_r; lia).
    lia.
  - apply rnd_shift_le_pow; lia.
Qed.

(** A number with a 24-bit mantissa and an admissible exponent is its own
    rounding. *)
Lemma rnd_int_exact (m e : Z) :
  Z.abs m < 2 ^ 24 -> -149 <= e -> rnd_int m e = m * 2 ^ (e - ulp_exp m e).
Proof.
  intros Hm He. unfold rnd_int.
  pose proof (ulp_exp_eq m e) as He1.
  pose proof (Zdigits2_le_bound m 24 ltac:(lia) Hm).
  replace (ulp_exp m e <=? e) with true by (symmetry; apply Z.leb_le; lia).
  reflexivity.
Qed.

(** ** Dyadic rationals *)

Local Open Scope Q_scope.

Lemma Q2_neq_0 : ~ 2 == 0.
Proof. discriminate. Qed.

Lemma Qpow2_pos (e : Z) : 0 < 2 ^ e.
Proof. apply Qpower_0_lt. reflexivity. Qed.

Lemma Qpow2_add (a b : Z) : 2 ^ (a + b) == 2 ^ a * 2 ^ b.
Proof. apply Qpower_plus, Q2_neq_0. Qed.

Lemma inject_Z_pow2 (k : Z) : (0 <= k)%Z -> inject_Z (2 ^ k) == 2 ^ k.
Proof. intros Hk. rewrite Zpower_Qpower by assumption. reflexivity. Qed.

Lemma F2Q_0 (e : Z) : F2Q 0 e == 0.
Proof. unfold F2Q. ring. Qed.

Lemma F2Q_Z (m : Z) : F2Q m 0 == inject_Z m.
Proof. unfold F2Q. change (2 ^ 0) with 1. ring. Qed.

Lemma F2Q_pow2 (e : Z) : F2Q 1 e == 2 ^ e.
Proof. unfold F2Q. ring. Qed.

Lemma F2Q_shift (m e k : Z) : (0 <= k)%Z -> F2Q (m * 2 ^ k) e == F2Q m (e + k).
Proof.
  intros Hk. unfold F2Q.
  rewrite inject_Z_mult, inject_Z_pow2, Qpow2_add by assumption. ring.
Qed.

Lemma F2Q_align (m e e' : Z) : (e <= e')%Z -> F2Q m e' == F2Q (m * 2 ^ (e' - e)) e.
Proof.
  intros Hle. rewrite F2Q_shift by lia.
  replace (e + (e' - e))%Z with e' by lia. reflexivity.
Qed.

Lemma F2Q_add (m m' e : Z) : F2Q m e + F2Q m' e == F2Q (m + m') e.
Proof. unfold F2Q. rewrite inject_Z_plus. ring. Qed.

Lemma F2Q_opp (m e : Z) : - F2Q m e == F2Q (- m) e.
Proof. unfold F2Q. rewrite inject_Z_opp. ring. Qed.

Lemma F2Q_sub (m m' e : Z) : F2Q m e - F2Q m' e == F2Q (m - m') e.
Proof. unfold F2Q, Z.sub. rewrite inject_Z_plus, inject_Z_opp. ring. Qed.

Lemma F2Q_mul (m m' e e' : Z) : F2Q m e * F2Q m' e' == F2Q (m * m') (e + e').
Proof. unfold F2Q. rewrite inject_Z_mult, Qpow2_add. ring. Qed.

Lemma F2Q_le (m m' e : Z) : F2Q m e <= F2Q m' e <-> (m <= m')%Z.
Proof.
  unfold F2Q. rewrite Zle_Qle. pose proof (Qpow2_pos e).
  split; intros Hle.
  - apply Qmult_le_r with (z := 2 ^ e); assumption.
  - apply Qmult_le_r; assumption.
Qed.

Lemma F2Q_lt (m m' e : Z) : F2Q m e < F2Q m' e <-> (m < m')%Z.
Proof.
  unfold F2Q. rewrite Zlt_Qlt. pose proof (Qpow2_pos e).
  split; intros Hlt.
  - apply Qmult_lt_r with (z := 2 ^ e); assumption.
  - apply Qmult_lt_r; assumption.
Qed.

Lemma F2Q_inj (m m' e : Z) : F2Q m e == F2Q m' e <-> m = m'.
Proof.
  split; [|intros ->; reflexivity]. intros E.
  apply Z.le_antisymm; apply (F2Q_le _ _ e); rewrite E; apply Qle_refl.
Qed.

(** Two writings of one dyadic number differ by a shift of the mantissa. *)
Lemma F2Q_eq_shift (m m' e e' : Z) :
  (e <= e')%Z -> (F2Q m e == F2Q m' e' <-> m = (m' * 2 ^ (e' - e))%Z).
Proof.
  intros Hle.
  rewrite <- (F2Q_inj m (m' * 2 ^ (e' - e)) e), F2Q_shift by lia.
  replace (e + (e' - e))%Z with e' by lia. reflexivity.
Qed.

Lemma F2Q_nonneg (m e : Z) : 0 <= F2Q m e <-> (0 <= m)%Z.
Proof. rewrite <- (F2Q_0 e). apply F2Q_le. Qed.

Lemma F2Q_abs (m e : Z) : Qabs (F2Q m e) == F2Q (Z.abs m) e.
Proof.
  destruct (Z.le_ge_cases 0 m) as [H|H].
  - rewrite Z.abs_eq, Qabs_pos by (try apply F2Q_nonneg; assumption). reflexivity.
  - rewrite Z.abs_neq, Qabs_neg, F2Q_opp; [reflexivity| |assumption].
    rewrite <- (F2Q_0 e). apply F2Q_le. assumption.
Qed.

(** Rounding does not depend on the writing of the number. *)
Lemma rnd_int_indep (m e m' e' : Z) :
  m <> 0%Z -> F2Q m e == F2Q m' e' ->
  rnd_int m e = rnd_int m' e' /\ ulp_exp m e = ulp_exp m' e'.
Proof.
  assert (W : forall m e m' e', m' <> 0%Z -> (e <= e')%Z -> F2Q m e == F2Q m' e' ->
              rnd_int m e = rnd_int m' e' /\ ulp_exp m e = ulp_exp m' e').
  { clear. intros m e m' e' NE Hle E.
    apply F2Q_eq_shift in E; [|assumption]. subst m.
    pose proof (rnd_int_shift m' e' (e' - e) ltac:(lia)) as H1.
    pose proof (ulp_exp_shift m' e' (e' - e) NE ltac:(lia)) as H2.
    replace (e' - (e' - e))%Z with e in H1, H2 by lia. split; assumption. }
  intros NE E.
  destruct (Z.le_ge_cases e e') as [H|H].
  - apply W; try assumption. intros ->. rewrite F2Q_0 in E.
    apply NE. apply (F2Q_inj m 0 e). rewrite E, F2Q_0. reflexivity.
  - destruct (W m' e' m e NE H (Qeq_sym _ _ E)). split; congruence.
Qed.

Local Open Scope Z_scope.

(** ** The rounding of [SpecFloat] computes [rnd_int] *)

Lemma rnd_shift_ge_pow (m k : Z) :
  0 < m -> 0 < k -> k = Zdigits2 m - 24 -> 2 ^ 23 <= rnd_shift m k.
Proof.
  intros Hm Hk Ek.
  pose proof (rnd_shift_range m k ltac:(lia) Hk) as Hr.
  pose proof (Zdigits2_bounds m Hm) as Hb.
  assert (2 ^ 23 <= m / 2 ^ k); [|lia].
  apply Z.div_le_lower_bound; [apply pow2_pos; lia|].
  rewrite <- pow2_split by lia.
  replace (k + 23) with (Zdigits2 m - 1) by lia. lia.
Qed.

Lemma canonical_mantissa_eq (m : positive) (e : Z) :
  canonical_mantissa prec emax m e = (ulp_exp (Zpos m) e =? e).
Proof. reflexivity. Qed.

Lemma round_spec_props (m e : Z) :
  0 < m -> e <= ulp_exp m e ->
  let r := round_spec m e in
  0 <= fst r /\
  snd r <= ulp_exp m e + 1 /\
  (0 < fst r -> ulp_exp (fst r) (snd r) = snd r) /\
  (F2Q (fst r) (snd r) == F2Q (rnd_int m e) (ulp_exp m e))%Q.
Proof.
  intros Hm He r. subst r. unfold round_spec. fold (ulp_exp m e).
  rewrite rnd_int_pos by assumption.
  pose proof (ulp_exp_eq m e) as He1. set (e1 := ulp_exp m e) in *.
  destruct (Z.leb_spec e1 e) as [H1|H1]; cbn [fst snd].
  - assert (Ee : e1 = e) by lia.
    replace (e - e1) with 0 by lia. rewrite Z.pow_0_r, Z.mul_1_r, Ee.
    repeat split; try lia; reflexivity.
  - pose proof (rnd_shift_le_pow m (e1 - e) Hm ltac:(lia) ltac:(lia)) as Hle.
    set (m1 := rnd_shift m (e1 - e)) in *.
    change (2 ^ prec) with 16777216. change (2 ^ (prec - 1)) with 8388608.
    change (2 ^ 24) with 16777216 in Hle.
    destruct (Z.eqb_spec m1 16777216) as [E|NE]; cbn [fst snd].
    + repeat split; try lia.
      * intros _. rewrite ulp_exp_eq. change (Zdigits2 8388608) with 24. lia.
      * rewrite E. change 16777216 with (8388608 * 2 ^ 1).
        rewrite F2Q_shift by lia. reflexivity.
    + split; [lia|]. split; [lia|]. split; [|reflexivity].
      intros Hpos. rewrite ulp_exp_eq.
      pose proof (Zdigits2_le_bound m1 24 ltac:(lia) ltac:(change (2 ^ 24) with 16777216; lia)).
      destruct (Z.eq_dec e1 (-149)) as [Ee|Ee]; [lia|].
      assert (Hk : e1 - e = Zdigits2 m - 24) by lia.
      pose proof (rnd_shift_ge_pow m (e1 - e) Hm ltac:(lia) Hk) as Hge.
      fold m1 in Hge.
      pose proof (Zdigits2_ge_bound m1 23 ltac:(lia) ltac:(lia)). lia.
Qed.

Lemma SF_of_round_props (s : bool) (r : Z * Z) :
  0 <= fst r -> snd r <= 104 ->
  (0 < fst r -> ulp_exp (fst r) (snd r) = snd r) ->
  let f := SF_of_round s r in
  is_finite f = true /\ is_b32 f = true /\
  (SF2Q f == F2Q (cond_Zopp s (fst r)) (snd r))%Q.
Proof.
  intros H0 H1 Hc f. subst f. unfold SF_of_round.
  destruct r as [m e]; cbn [fst snd] in *.
  destruct m as [|p|p]; try lia.
  - repeat split. destruct s; cbn; rewrite F2Q_0; reflexivity.
  - change (emax - prec) with 104.
    replace (e <=? 104) with true by (symmetry; apply Z.leb_le; assumption).
    repeat split.
    cbn [is_b32 valid_binary]. unfold bounded.
    rewrite canonical_mantissa_eq, Hc by lia. rewrite Z.eqb_refl.
    apply Z.leb_le. assumption.
Qed.

Lemma iter_xO_pow (m d : positive) : Zpos (Pos.iter xO m d) = Zpos m * 2 ^ Zpos d.
Proof.
  induction d as [|d IH] using Pos.peano_ind.
  - cbn. lia.
  - rewrite Pos.iter_succ, Pos2Z.inj_succ, Z.pow_succ_r by lia.
    change (Zpos (Pos.iter xO m d)~0) with (2 * Zpos (Pos.iter xO m d)).
    rewrite IH. ring.
Qed.

Lemma shl_align_spec (m : positive) (e e' : Z) :
  let r := shl_align m e e' in
  snd r = Z.min e e' /\ Zpos (fst r) = Zpos m * 2 ^ (e - snd r).
Proof.
  unfold shl_align. destruct (e' - e) as [|d|d] eqn:E; cbn [fst snd].
  - split; [lia|]. replace (e - e) with 0 by lia. cbn. lia.
  - split; [lia|]. replace (e - e) with 0 by lia. cbn. lia.
  - split; [lia|]. rewrite iter_xO_pow. f_equal. f_equal. lia.
Qed.

Theorem binary_round_props (s : bool) (m : positive) (e : Z) :
  Zdigits2 (Zpos m) + e <= 127 ->
  let f := binary_round prec emax s m e in
  is_finite f = true /\ is_b32 f = true /\
  (SF2Q f == F2Q (cond_Zopp s (rnd_int (Zpos m) e)) (ulp_exp (Zpos m) e))%Q.
Proof.
  intros Hd f. subst f. unfold binary_round.
  change (fexp prec emax (Zpos (digits2_pos m) + e)) with (ulp_exp (Zpos m) e).
  pose proof (shl_align_spec m e (ulp_exp (Zpos m) e)) as [Hz1 Hz2].
  destruct (shl_align m e (ulp_exp (Zpos m) e)) as [mz ez]; cbn [fst snd] in *.
  rewrite binary_round_aux_spec.
  assert (Hsh : ez = e - (e - ez)) by lia.
  pose proof (rnd_int_shift (Zpos m) e (e - ez) ltac:(lia)) as Hr.
  pose proof (ulp_exp_shift (Zpos m) e (e - ez) ltac:(lia) ltac:(lia)) as Hu.
  rewrite <- Hz2, <- Hsh in Hr, Hu.
  pose proof (round_spec_props (Zpos mz) ez ltac:(lia) ltac:(lia)) as (P0 & P1 & P2 & P3).
  cbv zeta in *.
  pose proof (ulp_exp_eq (Zpos m) e).
  pose proof (SF_of_round_props s (round_spec (Zpos mz) ez) P0 ltac:(lia) P2)
    as (Q0 & Q1 & Q2).
  repeat split; try assumption.
  rewrite Q2. rewrite <- Hr, <- Hu.
  destruct s; cbn [cond_Zopp].
  - rewrite <- !F2Q_opp, P3. reflexivity.
  - exact P3.
Qed.

(** ** Correctly rounded results *)

Lemma F2Q_eq_0 (m e : Z) : (F2Q m e == 0)%Q <-> m = 0.
Proof. rewrite <- (F2Q_0 e). apply F2Q_inj. Qed.

Lemma rounds_to_intro (v r : Q) (m e : Z) :
  (v == F2Q m e)%Q -> (r == F2Q (rnd_int m e) (ulp_exp m e))%Q -> rounds_to v r.
Proof.
  intros Hv Hr m' e' Hv'. rewrite Hr.
  destruct (Z.eq_dec m 0) as [->|NE].
  - rewrite F2Q_0 in Hv. rewrite Hv in Hv'. symmetry in Hv'.
    apply F2Q_eq_0 in Hv'. subst m'. rewrite !rnd_int_0, !F2Q_0. reflexivity.
  - rewrite Hv in Hv'. destruct (rnd_int_indep m e m' e' NE Hv') as [-> ->].
    reflexivity.
Qed.

#[global] Instance rounds_to_Proper : Proper (Qeq ==> Qeq ==> iff) rounds_to.
Proof.
  intros v v' Ev r r' Er. unfold rounds_to.
  split; intros H m e Hm.
  - rewrite <- Er. apply H. rewrite Ev. assumption.
  - rewrite Er. apply H. rewrite <- Ev. assumption.
Qed.

Lemma rounds_to_exact (v r : Q) (m e : Z) :
  rounds_to v r -> (v == F2Q m e)%Q -> Z.abs m < 2 ^ 24 -> -149 <= e ->
  (r == v)%Q.
Proof.
  intros H Hv Hm He. rewrite (H m e Hv), Hv.
  rewrite rnd_int_exact by assumption.
  pose proof (ulp_exp_eq m e).
  pose proof (Zdigits2_le_bound m 24 ltac:(lia) Hm).
  rewrite F2Q_shift by lia. f_equiv. lia.
Qed.

Lemma rounds_to_0 (r : Q) : rounds_to 0 r -> (r == 0)%Q.
Proof.
  intros H. apply (rounds_to_exact 0 r 0 0 H); try lia.
  rewrite F2Q_0. reflexivity.
Qed.

Lemma Qabs_le_iff (x y : Q) : (Qabs x <= y <-> - y <= x <= y)%Q.
Proof. apply Qabs_Qle_condition. Qed.

(** The error of a rounding is at most half a unit in the last place. *)
Lemma rounds_to_error (v r : Q) (m e d : Z) :
  rounds_to v r -> (v == F2Q m e)%Q -> 0 <= d -> Z.abs m < 2 ^ d ->
  (Qabs (r - v) <= F2Q 1 (Z.max (d + e - 24) (-149) - 1))%Q.
Proof.
  intros H Hv Hd Hm. rewrite (H m e Hv), Hv. clear H Hv v r.
  pose proof (ulp_exp_eq m e) as He1.
  pose proof (Zdigits2_le_bound m d Hd Hm) as Hdig.
  set (E := Z.max (d + e - 24) (-149)).
  assert (Hpos : (0 <= F2Q 1 (E - 1))%Q) by (apply F2Q_nonneg; lia).
  unfold rnd_int. set (e1 := ulp_exp m e) in *.
  destruct (Z.leb_spec e1 e) as [H1|H1].
  - rewrite F2Q_shift by lia. replace (e1 + (e - e1)) with e by lia.
    setoid_replace (F2Q m e - F2Q m e)%Q with 0%Q by ring.
    exact Hpos.
  - set (k := e1 - e). assert (Hk : 0 < k) by lia.
    pose proof (rnd_shift_err (Z.abs m) k Hk) as Herr.
    set (n := rnd_shift (Z.abs m) k) in *.
    pose proof (pow2_pos k ltac:(lia)) as Hpk.
    (* everything at exponent [e - 1] *)
    assert (E1 : (F2Q (Z.sgn m * n) e1 == F2Q (2 * (Z.sgn m * n * 2 ^ k)) (e - 1))%Q).
    { replace (2 * (Z.sgn m * n * 2 ^ k)) with (Z.sgn m * n * 2 ^ (k + 1))
        by (rewrite pow2_split by lia; change (2 ^ 1) with 2; ring).
      rewrite F2Q_shift by lia. f_equiv. lia. }
    assert (E2 : (F2Q m e == F2Q (2 * m) (e - 1))%Q).
    { replace (2 * m) with (m * 2 ^ 1) by (change (2 ^ 1) with 2; ring).
      rewrite F2Q_shift by lia. f_equiv. lia. }
    assert (E3 : (F2Q 1 (E - 1) == F2Q (2 ^ (E - e)) (e - 1))%Q).
    { replace (2 ^ (E - e)) with (1 * 2 ^ (E - e)) by ring.
      rewrite F2Q_shift by lia. f_equiv. lia. }
    rewrite E1, E2, E3, F2Q_sub.
    apply Qabs_le_iff. rewrite F2Q_opp, !F2Q_le.
    assert (2 ^ k <= 2 ^ (E - e)) by (apply Z.pow_le_mono_r; lia).
    destruct (Z.lt_trichotomy m 0) as [Hneg|[->|Hp]].
    + rewrite Z.sgn_neg by lia. rewrite Z.abs_neq in Herr by lia. lia.
    + cbn. lia.
    + rewrite Z.sgn_pos by lia. rewrite Z.abs_eq in Herr by lia. lia.
Qed.

(** The rounding is an integral number of units in the last place. *)
Lemma rounds_to_grid (v r : Q) (m e : Z) :
  rounds_to v r -> (v == F2Q m e)%Q ->
  exists n, (r == F2Q n (ulp_exp m e))%Q /\
            (0 <= m -> 0 <= n) /\ (m <= 0 -> n <= 0).
Proof.
  intros H Hv. exists (rnd_int m e). split; [apply H, Hv|].
  destruct (Z.lt_trichotomy m 0) as [Hneg|[->|Hp]].
  - pose proof (rnd_int_bound (- m) e ltac:(lia)). rewrite rnd_int_opp in H0. lia.
  - rewrite rnd_int_0. lia.
  - pose proof (rnd_int_bound m e Hp). lia.
Qed.

(** ** The operations *)

Lemma is_b32_finite (s : bool) (m : positive) (e : Z) :
  is_b32 (S754_finite s m e) = true <->
  ulp_exp (Zpos m) e = e /\ e <= 104.
Proof.
  cbn [is_b32 valid_binary]. unfold bounded.
  rewrite andb_true_iff, canonical_mantissa_eq, Z.eqb_eq, Z.leb_le.
  reflexivity.
Qed.

Lemma is_b32_bounds (s : bool) (m : positive) (e : Z) :
  is_b32 (S754_finite s m e) = true ->
  Zpos m < 2 ^ 24 /\ -149 <= e <= 104 /\
  (Zdigits2 (Zpos m) = 24 \/ e = -149).
Proof.
  intros H. apply is_b32_finite in H. destruct H as [Hc Hb].
  rewrite ulp_exp_eq in Hc.
  pose proof (Zdigits2_bounds (Zpos m) ltac:(lia)) as Hd.
  assert (Zdigits2 (Zpos m) <= 24) by lia.
  assert (2 ^ Zdigits2 (Zpos m) <= 2 ^ 24)
    by (apply Z.pow_le_mono_r; lia).
  lia.
Qed.

Lemma SF2Q_valid_rounds (x : spec_float) :
  is_b32 x = true -> rounds_to (SF2Q x) (SF2Q x).
Proof.
  intros Hv. destruct x as [s|s| |s m e]; cbn [SF2Q].
  1-3: apply (rounds_to_intro _ _ 0 0); rewrite ?rnd_int_0, F2Q_0; reflexivity.
  pose proof (is_b32_bounds s m e Hv) as (Hm & He & _).
  apply is_b32_finite in Hv. destruct Hv as [Hc _].
  apply (rounds_to_intro _ _ (cond_Zopp s (Zpos m)) e); [reflexivity|].
  rewrite rnd_int_exact by (destruct s; cbn [cond_Zopp]; lia).
  assert (Hu : ulp_exp (cond_Zopp s (Zpos m)) e = e).
  { destruct s; cbn [cond_Zopp]; rewrite ?ulp_exp_opp; assumption. }
  rewrite Hu, Z.sub_diag, Z.pow_0_r, Z.mul_1_r. reflexivity.
Qed.

Lemma SF2Q_repr (x : spec_float) : exists m e, (SF2Q x == F2Q m e)%Q.
Proof.
  destruct x as [s|s| |s m e]; cbn [SF2Q].
  1-3: exists 0, 0; rewrite F2Q_0; reflexivity.
  exists (cond_Zopp s (Zpos m)), e. reflexivity.
Qed.

Lemma F2Q_digits_bound (m e l : Z) :
  m <> 0 -> (Qabs (F2Q m e) < F2Q 1 l)%Q -> Zdigits2 m + e <= l.
Proof.
  intros NE H. rewrite F2Q_abs in H.
  pose proof (Zdigits2_bounds (Z.abs m) ltac:(lia)) as Hb.
  rewrite Zdigits2_abs in Hb.
  pose proof (Zdigits2_pos m NE) as Hd.
  destruct (Z_le_gt_dec (Zdigits2 m + e) l) as [|Hgt]; [assumption|exfalso].
  (* 2 ^ l <= 2 ^ (d - 1 + e) <= |m| * 2 ^ e *)
  assert (H1 : (F2Q 1 l <= F2Q (2 ^ (Zdigits2 m - 1)) e)%Q).
  { destruct (Z.le_ge_cases e l) as [Hel|Hel].
    - rewrite (F2Q_align 1 e l) by lia.
      apply F2Q_le. rewrite Z.mul_1_l. apply Z.pow_le_mono_r; lia.
    - rewrite (F2Q_align _ l e) by lia.
      apply F2Q_le. pose proof (pow2_pos (Zdigits2 m - 1) ltac:(lia)).
      pose proof (pow2_pos (e - l) ltac:(lia)). nia. }
  assert (H2 : (F2Q (2 ^ (Zdigits2 m - 1)) e <= F2Q (Z.abs m) e)%Q)
    by (apply F2Q_le; lia).
  apply (Qlt_irrefl (F2Q 1 l)).
  eapply Qle_lt_trans; [|exact H]. eapply Qle_trans; eassumption.
Qed.

Theorem binary_normalize_props (m e : Z) (sz : bool) :
  (Qabs (F2Q m e) < F2Q 1 127)%Q ->
  let f := binary_normalize prec emax m e sz in
  is_finite f = true /\ is_b32 f = true /\ rounds_to (F2Q m e) (SF2Q f).
Proof.
  intros Hb f. subst f.
  destruct m as [|p|p]; cbn [binary_normalize].
  - repeat split. apply (rounds_to_intro _ _ 0 e); [reflexivity|].
    rewrite rnd_int_0, F2Q_0. reflexivity.
  - pose proof (F2Q_digits_bound (Zpos p) e 127 ltac:(lia) Hb) as Hd.
    destruct (binary_round_props false p e Hd) as (H1 & H2 & H3).
    repeat split; try assumption.
    apply (rounds_to_intro _ _ (Zpos p) e); [reflexivity|exact H3].
  - pose proof (F2Q_digits_bound (Zneg p) e 127 ltac:(lia) Hb) as Hd.
    change (Zdigits2 (Zneg p)) with (Zdigits2 (Zpos p)) in Hd.
    destruct (binary_round_props true p e Hd) as (H1 & H2 & H3).
    repeat split; try assumption.
    apply (rounds_to_intro _ _ (Zneg p) e); [reflexivity|].
    rewrite H3. cbn [cond_Zopp].
    change (Zneg p) with (- Zpos p). rewrite rnd_int_opp, ulp_exp_opp.
    reflexivity.
Qed.

Lemma cond_Zopp_mul (s : bool) (a b : Z) : cond_Zopp s a * b = cond_Zopp s (a * b).
Proof. destruct s; cbn [cond_Zopp]; ring. Qed.

Lemma shl_align_value (s : bool) (m : positive) (e e' : Z) :
  e' <= e ->
  (F2Q (cond_Zopp s (Zpos (fst (shl_align m e e')))) e' ==
   F2Q (cond_Zopp s (Zpos m)) e)%Q.
Proof.
  intros Hle. pose proof (shl_align_spec m e e') as [H1 H2]. cbv zeta in *.
  rewrite H2, H1, Z.min_r by assumption.
  rewrite <- cond_Zopp_mul. symmetry. apply F2Q_align. assumption.
Qed.

Theorem b32_of_Z_props (n : Z) :
  Z.abs n < 2 ^ 127 ->
  is_finite (b32_of_Z n) = true /\ is_b32 (b32_of_Z n) = true /\
  rounds_to (inject_Z n) (SF2Q (b32_of_Z n)).
Proof.
  intros Hn. unfold b32_of_Z.
  assert (Hb : (Qabs (F2Q n 0) < F2Q 1 127)%Q).
  { rewrite F2Q_abs, (F2Q_align 1 0 127) by lia. apply F2Q_lt. lia. }
  destruct (binary_normalize_props n 0 false Hb) as (H1 & H2 & H3).
  repeat split; try assumption. rewrite <- F2Q_Z. assumption.
Qed.

Lemma b32_of_Z_exact (n : Z) :
  Z.abs n <= 2 ^ 24 ->
  is_finite (b32_of_Z n) = true /\ is_b32 (b32_of_Z n) = true /\
  (SF2Q (b32_of_Z n) == inject_Z n)%Q.
Proof.
  intros Hn.
  destruct (b32_of_Z_props n) as (H1 & H2 & H3).
  { assert (2 ^ 24 < 2 ^ 127) by (apply Z.pow_lt_mono_r; lia). lia. }
  repeat split; try assumption.
  destruct (Z.eq_dec (Z.abs n) (2 ^ 24)) as [E|NE].
  - apply (rounds_to_exact _ _ (Z.sgn n * 2 ^ 23) 1 H3);
      [|change (2 ^ 24) with 16777216 in *; change (2 ^ 23) with 8388608; lia|lia].
    rewrite <- F2Q_Z. rewrite (F2Q_align _ 0 1) by lia.
    apply F2Q_inj. change (2 ^ 24) with 16777216 in E.
    change (2 ^ 23) with 8388608. change (2 ^ (1 - 0)) with 2. lia.
  - apply (rounds_to_exact _ _ n 0 H3); try lia.
    rewrite F2Q_Z. reflexivity.
Qed.

Ltac zero_rounds :=
  apply (rounds_to_intro _ _ 0 0); rewrite ?rnd_int_0, ?F2Q_0; vm_compute; reflexivity.

Theorem b32_add_props (x y : spec_float) :
  is_finite x = true -> is_finite y = true ->
  is_b32 x = true -> is_b32 y = true ->
  (Qabs (SF2Q x + SF2Q y) < F2Q 1 127)%Q ->
  is_finite (b32_add x y) = true /\ is_b32 (b32_add x y) = true /\
  rounds_to (SF2Q x + SF2Q y) (SF2Q (b32_add x y)).
Proof.
  intros Fx Fy Vx Vy Hb.
  destruct x as [sx|sx| |sx mx ex]; try discriminate;
  destruct y as [sy|sy| |sy my ey]; try discriminate.
  - split; [|split].
    + destruct sx, sy; reflexivity.
    + destruct sx, sy; reflexivity.
    + destruct sx, sy; zero_rounds.
  - repeat split; try assumption.
    cbn [b32_add SFadd]. unfold b32_add, SFadd.
    rewrite (Qplus_0_l (SF2Q (S754_finite sy my ey))).
    apply SF2Q_valid_rounds; assumption.
  - repeat split; try assumption.
    unfold b32_add, SFadd.
    setoid_replace (SF2Q (S754_finite sx mx ex) + SF2Q (S754_zero sy))%Q
      with (SF2Q (S754_finite sx mx ex)) by (cbn [SF2Q]; ring).
    apply SF2Q_valid_rounds; assumption.
  - unfold b32_add, SFadd.
    set (ez := Z.min ex ey).
    set (M := cond_Zopp sx (Zpos (fst (shl_align mx ex ez))) +
              cond_Zopp sy (Zpos (fst (shl_align my ey ez)))).
    assert (EM : (F2Q M ez == SF2Q (S754_finite sx mx ex) + SF2Q (S754_finite sy my ey))%Q).
    { unfold M. rewrite <- F2Q_add, !shl_align_value by lia. reflexivity. }
    rewrite <- EM in Hb. rewrite <- EM.
    apply binary_normalize_props. assumption.
Qed.

Theorem b32_sub_props (x y : spec_float) :
  is_finite x = true -> is_finite y = true ->
  is_b32 x = true -> is_b32 y = true ->
  (Qabs (SF2Q x - SF2Q y) < F2Q 1 127)%Q ->
  is_finite (b32_sub x y) = true /\ is_b32 (b32_sub x y) = true /\
  rounds_to (SF2Q x - SF2Q y) (SF2Q (b32_sub x y)).
Proof.
  intros Fx Fy Vx Vy Hb.
  destruct x as [sx|sx| |sx mx ex]; try discriminate;
  destruct y as [sy|sy| |sy my ey]; try discriminate.
  - split; [|split].
    + destruct sx, sy; reflexivity.
    + destruct sx, sy; reflexivity.
    + destruct sx, sy; zero_rounds.
  - unfold b32_sub, SFsub.
    assert (Vy' : is_b32 (S754_finite (negb sy) my ey) = true) by exact Vy.
    repeat split; try assumption.
    setoid_replace (SF2Q (S754_zero sx) - SF2Q (S754_finite sy my ey))%Q
      with (SF2Q (S754_finite (negb sy) my ey)).
    + apply SF2Q_valid_rounds; assumption.
    + cbn [SF2Q]. destruct sy; cbn [negb cond_Zopp];
        rewrite <- ?F2Q_opp; change (Zneg my) with (- Zpos my);
        rewrite <- ?F2Q_opp; ring.
  - repeat split; try assumption.
    unfold b32_sub, SFsub.
    setoid_replace (SF2Q (S754_finite sx mx ex) - SF2Q (S754_zero sy))%Q
      with (SF2Q (S754_finite sx mx ex)) by (cbn [SF2Q]; ring).
    apply SF2Q_valid_rounds; assumption.
  - unfold b32_sub, SFsub.
    set (ez := Z.min ex ey).
    set (M := cond_Zopp sx (Zpos (fst (shl_align mx ex ez))) -
              cond_Zopp sy (Zpos (fst (shl_align my ey ez)))).
    assert (EM : (F2Q M ez == SF2Q (S754_finite sx mx ex) - SF2Q (S754_finite sy my ey))%Q).
    { unfold M. rewrite <- F2Q_sub, !shl_align_value by lia. reflexivity. }
    rewrite <- EM in Hb. rewrite <- EM.
    apply binary_normalize_props. assumption.
Qed.

Lemma Zdigits2_mul_ge (a b : Z) :
  0 < a -> 0 < b -> Zdigits2 a + Zdigits2 b - 1 <= Zdigits2 (a * b).
Proof.
  intros Ha Hb.
  pose proof (Zdigits2_bounds a Ha) as Ba. pose proof (Zdigits2_bounds b Hb) as Bb.
  pose proof (Zdigits2_pos a ltac:(lia)). pose proof (Zdigits2_pos b ltac:(lia)).
  assert (2 ^ (Zdigits2 a + Zdigits2 b - 2) <= Z.abs (a * b)).
  { replace (Zdigits2 a + Zdigits2 b - 2) with ((Zdigits2 a - 1) + (Zdigits2 b - 1)) by lia.
    rewrite pow2_split by lia. rewrite Z.abs_eq by nia. nia. }
  pose proof (Zdigits2_ge_bound (a * b) _ H1 ltac:(lia)). lia.
Qed.

Lemma cond_Zopp_xorb (s s' : bool) (a b : Z) :
  cond_Zopp (xorb s s') (a * b) = cond_Zopp s a * cond_Zopp s' b.
Proof. destruct s, s'; cbn [xorb cond_Zopp]; ring. Qed.

Lemma rnd_int_cond_Zopp (s : bool) (m e : Z) :
  rnd_int (cond_Zopp s m) e = cond_Zopp s (rnd_int m e).
Proof. destruct s; cbn [cond_Zopp]; [apply rnd_int_opp|reflexivity]. Qed.

Lemma ulp_exp_cond_Zopp (s : bool) (m e : Z) :
  ulp_exp (cond_Zopp s m) e = ulp_exp m e.
Proof. destruct s; cbn [cond_Zopp]; [apply ulp_exp_opp|reflexivity]. Qed.

Lemma F2Q_cond_Zopp (s : bool) (m e : Z) :
  (F2Q (cond_Zopp s m) e == if s then - F2Q m e else F2Q m e)%Q.
Proof. destruct s; cbn [cond_Zopp]; [rewrite F2Q_opp|]; reflexivity. Qed.

Theorem b32_mul_props (x y : spec_float) :
  is_finite x = true -> is_finite y = true ->
  is_b32 x = true -> is_b32 y = true ->
  (Qabs (SF2Q x * SF2Q y) < F2Q 1 127)%Q ->
  is_finite (b32_mul x y) = true /\ is_b32 (b32_mul x y) = true /\
  rounds_to (SF2Q x * SF2Q y) (SF2Q (b32_mul x y)).
Proof.
  intros Fx Fy Vx Vy Hb.
  destruct x as [sx|sx| |sx mx ex]; try discriminate;
  destruct y as [sy|sy| |sy my ey]; try discriminate.
  1-3: split; [|split]; [reflexivity|reflexivity|];
       apply (rounds_to_intro _ _ 0 0); rewrite ?rnd_int_0, ?F2Q_0;
       cbn [SF2Q b32_mul SFmul]; ring.
  unfold b32_mul, SFmul. rewrite binary_round_aux_spec.
  assert (EM : (F2Q (cond_Zopp (xorb sx sy) (Zpos (mx * my))) (ex + ey) ==
                SF2Q (S754_finite sx mx ex) * SF2Q (S754_finite sy my ey))%Q).
  { cbn [SF2Q]. rewrite F2Q_mul, Pos2Z.inj_mul, cond_Zopp_xorb. reflexivity. }
  rewrite <- EM in Hb. rewrite <- EM.
  pose proof (is_b32_bounds _ _ _ Vx) as (Bx & Ex & Cx).
  pose proof (is_b32_bounds _ _ _ Vy) as (By & Ey & Cy).
  pose proof (Zdigits2_mul_ge (Zpos mx) (Zpos my) ltac:(lia) ltac:(lia)) as Hd.
  pose proof (Zdigits2_pos (Zpos mx) ltac:(lia)).
  pose proof (Zdigits2_pos (Zpos my) ltac:(lia)).
  rewrite <- Pos2Z.inj_mul in Hd.
  pose proof (ulp_exp_eq (Zpos (mx * my)) (ex + ey)) as Hu.
  assert (Hle : ex + ey <= ulp_exp (Zpos (mx * my)) (ex + ey)).
  { revert Hd Hu Cx Cy H H0 Ex Ey.
    generalize (ulp_exp (Zpos (mx * my)) (ex + ey)), (Zdigits2 (Zpos (mx * my))),
               (Zdigits2 (Zpos mx)), (Zdigits2 (Zpos my)).
    intros; lia. }
  clear Hd. set (p := (mx * my)%positive) in *.
  pose proof (round_spec_props (Zpos p) (ex + ey) (Pos2Z.is_pos p) Hle)
    as (P0 & P1 & P2 & P3). cbv zeta in *.
  assert (NE : cond_Zopp (xorb sx sy) (Zpos p) <> 0)
    by (destruct (xorb sx sy); discriminate).
  pose proof (F2Q_digits_bound _ _ _ NE Hb) as Hdig.
  rewrite <- (Zdigits2_abs (cond_Zopp _ _)) in Hdig.
  replace (Z.abs (cond_Zopp (xorb sx sy) (Zpos p))) with (Zpos p) in Hdig
    by (destruct (xorb sx sy); reflexivity).
  pose proof (SF_of_round_props (xorb sx sy) _ P0 ltac:(lia) P2) as (Q0 & Q1 & Q2).
  cbv zeta in *. split; [assumption|]. split; [assumption|].
  eapply rounds_to_intro; [reflexivity|].
  rewrite Q2, rnd_int_cond_Zopp, ulp_exp_cond_Zopp, !F2Q_cond_Zopp.
  destruct (xorb sx sy); rewrite P3; reflexivity.
Qed.

Lemma div_eucl_div_mod (a b : Z) : Z.div_eucl a b = (a / b, a mod b).
Proof. unfold Z.div, Z.modulo. destruct (Z.div_eucl a b). reflexivity. Qed.

(** Division by a power of two is exact on normal numbers. *)
Theorem b32_div_pow2 (s : bool) (m : positive) (e e2 : Z) :
  Zdigits2 (Zpos m) = 24 -> -149 <= e - e2 - 24 -> e - e2 - 23 <= 104 ->
  b32_div (S754_finite s m e) (S754_finite false 8388608 e2) =
  S754_finite s m (e - e2 - 23).
Proof.
  intros Hd Hlo Hhi.
  unfold b32_div, SFdiv, SFdiv_core_binary.
  rewrite Hd. change (Zdigits2 8388608) with 24.
  rewrite fexp_eq.
  replace (Z.min (Z.max (24 + e - (24 + e2) - 24) (-149)) (e - e2))
    with (e - e2 - 24) by lia.
  replace (e - e2 - (e - e2 - 24)) with 24 by lia.
  rewrite Z.shiftl_mul_pow2, div_eucl_div_mod by lia.
  change (2 ^ 24) with (2 * 8388608).
  rewrite Z.mul_assoc, Z.div_mul, Z.mod_mul by lia.
  change (new_location 8388608 0) with loc_Exact.
  change (Zpos m * 2) with (Zpos (m * 2)).
  rewrite binary_round_aux_spec. unfold round_spec.
  rewrite Pos2Z.inj_mul.
  set (two := 2 ^ 1). change (Zpos m * 2) with (Zpos m * two). subst two.
  rewrite Zdigits2_shift, Hd, fexp_eq by lia.
  replace (Z.max (24 + 1 + (e - e2 - 24) - 24) (-149)) with (e - e2 - 23) by lia.
  replace (e - e2 - 23 <=? e - e2 - 24) with false by (symmetry; apply Z.leb_gt; lia).
  replace (e - e2 - 23 - (e - e2 - 24)) with 1 by lia.
  rewrite rnd_shift_exact by (try apply Z.mod_mul; lia).
  rewrite Z.div_mul by lia.
  pose proof (Zdigits2_bounds (Zpos m) ltac:(lia)) as Hb. rewrite Hd in Hb.
  replace (Zpos m =? 2 ^ prec) with false
    by (symmetry; apply Z.eqb_neq; change (2 ^ prec) with (2 ^ 24); lia).
  unfold SF_of_round; cbn [fst snd xorb].
  destruct s; cbn [xorb];
  replace (e - e2 - 23 <=? emax - prec) with true
    by (symmetry; apply Z.leb_le; exact Hhi); reflexivity.
Qed.

(** Truncation *)

Lemma Qfloor_unique (q : Q) (n : Z) :
  (inject_Z n <= q)%Q -> (q < inject_Z (n + 1))%Q -> Qfloor q = n.
Proof.
  intros H1 H2.
  pose proof (Qfloor_le q) as F1. pose proof (Qlt_floor q) as F2.
  assert (n < Qfloor q + 1).
  { rewrite Zlt_Qlt. eapply Qle_lt_trans; eassumption. }
  assert (Qfloor q < n + 1).
  { rewrite Zlt_Qlt. eapply Qle_lt_trans; eassumption. }
  lia.
Qed.

Lemma Qfloor_F2Q (m e : Z) :
  Qfloor (F2Q m e) = if 0 <=? e then m * 2 ^ e else m / 2 ^ (- e).
Proof.
  destruct (Z.leb_spec 0 e) as [He|He].
  - rewrite (F2Q_align m 0 e), F2Q_Z, Z.sub_0_r by lia. apply Qfloor_Z.
  - pose proof (pow2_pos (- e) ltac:(lia)) as Hp.
    pose proof (Z.div_mod m (2 ^ (- e)) ltac:(lia)) as Hdm.
    pose proof (Z.mod_pos_bound m (2 ^ (- e)) Hp) as Hr.
    set (n := m / 2 ^ (- e)) in *.
    apply Qfloor_unique.
    + rewrite <- (F2Q_Z n), (F2Q_align n e 0) by lia.
      apply F2Q_le. rewrite Z.sub_0_l. nia.
    + rewrite <- (F2Q_Z (n + 1)), (F2Q_align (n + 1) e 0) by lia.
      apply F2Q_lt. rewrite Z.sub_0_l. nia.
Qed.

Lemma Qtrunc_nonneg (q : Q) : (0 <= q)%Q -> Qtrunc q = Qfloor q.
Proof.
  intros H. unfold Qtrunc. apply Qle_bool_iff in H. rewrite H. reflexivity.
Qed.

Lemma Qtrunc_neg (q : Q) : (q <= 0)%Q -> Qtrunc q = - Qfloor (- q).
Proof.
  intros H. unfold Qtrunc.
  destruct (Qle_bool 0 q) eqn:E; [|reflexivity].
  apply Qle_bool_iff in E.
  assert (E0 : (q == 0)%Q) by (apply Qle_antisym; assumption).
  rewrite E0. reflexivity.
Qed.

Theorem SFtrunc_spec (x : spec_float) :
  is_finite x = true -> SFtrunc x = Some (Qtrunc (SF2Q x)).
Proof.
  destruct x as [s|s| |s m e]; try discriminate; intros _.
  - reflexivity.
  - cbn [SFtrunc SF2Q]. f_equal. destruct s; cbn [cond_Zopp].
    + rewrite Qtrunc_neg by (apply Qlt_le_weak; rewrite <- (F2Q_0 e); apply F2Q_lt; lia).
      rewrite F2Q_opp. change (- Zneg m) with (Zpos m).
      rewrite Qfloor_F2Q. reflexivity.
    + rewrite Qtrunc_nonneg by (apply F2Q_nonneg; lia).
      rewrite Qfloor_F2Q. reflexivity.
Qed.

(* ================================================================= *)
(** * Part III: decimal numerals and strings *)
(* ================================================================= *)

Lemma all_chars_app (p : ascii -> bool) (s t : string) :
  all_chars p (s ++ t) = all_chars p s && all_chars p t.
Proof.
  induction s as [|c s IH]; cbn [append all_chars]; [reflexivity|].
  rewrite IH, andb_assoc. reflexivity.
Qed.

Lemma all_chars_impl (p q : ascii -> bool) (s : string) :
  (forall c, p c = true -> q c = true) ->
  all_chars p s = true -> all_chars q s = true.
Proof.
  intros Hpq. induction s as [|c s IH]; cbn [all_chars]; [reflexivity|].
  rewrite !andb_true_iff. intros [H1 H2]. split; auto.
Qed.

Lemma count_char_app (c : ascii) (s t : string) :
  count_char c (s ++ t) = (count_char c s + count_char c t)%nat.
Proof.
  induction s as [|c' s IH]; cbn [append count_char]; [reflexivity|].
  rewrite IH. lia.
Qed.

Lemma count_char_absent (c : ascii) (p : ascii -> bool) (s : string) :
  p c = false -> all_chars p s = true -> count_char c s = 0%nat.
Proof.
  intros Hc. induction s as [|c' s IH]; cbn [all_chars count_char]; [reflexivity|].
  rewrite andb_true_iff. intros [H1 H2]. rewrite (IH H2).
  destruct (Ascii.eqb_spec c c') as [->|NE]; [congruence|reflexivity].
Qed.

Lemma after_char_app (c : ascii) (s t : string) :
  count_char c s = 0%nat -> after_char c (s ++ String c t) = Some t.
Proof.
  induction s as [|c' s IH]; cbn [append count_char after_char].
  - intros _. rewrite Ascii.eqb_refl. reflexivity.
  - destruct (Ascii.eqb c c'); [discriminate|]. exact IH.
Qed.

Lemma string_app_assoc (s t u : string) : (s ++ t) ++ u = s ++ (t ++ u).
Proof.
  induction s as [|c s IH]; cbn [append]; [reflexivity|]. rewrite IH. reflexivity.
Qed.

Lemma length_app (s t : string) :
  String.length (s ++ t) = (String.length s + String.length t)%nat.
Proof.
  induction s as [|c s IH]; cbn [append String.length]; [reflexivity|].
  rewrite IH. reflexivity.
Qed.

Lemma substring_all (n : nat) (s : string) :
  (String.length s <= n)%nat -> String.substring 0 n s = s.
Proof.
  revert n. induction s as [|c s IH]; intros n Hn.
  - destruct n; reflexivity.
  - cbn [String.length] in Hn. destruct n as [|n]; [lia|].
    cbn [String.substring]. rewrite IH by lia. reflexivity.
Qed.

Lemma snprintf_fits (old : string) (size : Z) (text : string) :
  Z.of_nat (String.length text) < size -> snprintf old size text = text.
Proof.
  intros H. unfold snprintf.
  replace (size <=? 0) with false by (symmetry; apply Z.leb_gt; lia).
  apply substring_all. lia.
Qed.

Lemma is_digit_digit_char (d : Z) : 0 <= d <= 9 -> is_digit (digit_char d) = true.
Proof.
  intros H.
  assert (d = 0 \/ d = 1 \/ d = 2 \/ d = 3 \/ d = 4 \/
          d = 5 \/ d = 6 \/ d = 7 \/ d = 8 \/ d = 9) as Hd by lia.
  repeat (destruct Hd as [->|Hd]; [reflexivity|]). subst d. reflexivity.
Qed.

Lemma dec_digits_all_digits (fuel : nat) (n : Z) :
  0 <= n -> all_chars is_digit (dec_digits fuel n) = true.
Proof.
  revert n. induction fuel as [|fuel IH]; intros n Hn; cbn [dec_digits].
  - reflexivity.
  - destruct (Z.ltb_spec n 10).
    + cbn [all_chars]. rewrite is_digit_digit_char by lia. reflexivity.
    + rewrite all_chars_app, IH by (apply Z.div_pos; lia).
      cbn [all_chars].
      rewrite is_digit_digit_char
        by (pose proof (Z.mod_pos_bound n 10); lia). reflexivity.
Qed.

Lemma dec_digits_length (fuel : nat) (n : Z) (k : nat) :
  0 <= n < 10 ^ Z.of_nat (S k) -> (String.length (dec_digits fuel n) <= S k)%nat.
Proof.
  revert n k. induction fuel as [|fuel IH]; intros n k Hn; cbn [dec_digits].
  - cbn. lia.
  - destruct (Z.ltb_spec n 10).
    + cbn. lia.
    + rewrite length_app. cbn [String.length].
      destruct k as [|k]; [change (10 ^ Z.of_nat 1) with 10 in Hn; lia|].
      assert (String.length (dec_digits fuel (n / 10)) <= S k)%nat; [|lia].
      apply IH. split; [apply Z.div_pos; lia|].
      apply Z.div_lt_upper_bound; [lia|].
      rewrite (Nat2Z.inj_succ (S k)), Z.pow_succ_r in Hn by lia. lia.
Qed.

(** Enough fuel: the numeral does not change when more is given. *)
Lemma dec_digits_fuel (fuel : nat) (n : Z) :
  (1 <= fuel)%nat -> 0 <= n < 2 ^ Z.of_nat fuel ->
  dec_digits fuel n = dec_digits (S fuel) n.
Proof.
  revert n. induction fuel as [|fuel IH]; intros n Hf Hn; [lia|].
  cbn [dec_digits]. destruct (Z.ltb_spec n 10); [reflexivity|].
  f_equal. change (dec_digits fuel (n / 10) = dec_digits (S fuel) (n / 10)).
  rewrite Nat2Z.inj_succ, Z.pow_succ_r in Hn by lia.
  destruct fuel as [|fuel]; [change (2 ^ Z.of_nat 0) with 1 in Hn; lia|].
  apply IH; [lia|]. split; [apply Z.div_pos; lia|].
  apply Z.div_lt_upper_bound; lia.
Qed.

Lemma dec_digits_fuel_add (fuel j : nat) (n : Z) :
  (1 <= fuel)%nat -> 0 <= n < 2 ^ Z.of_nat fuel ->
  dec_digits fuel n = dec_digits (fuel + j) n.
Proof.
  intros Hf Hn. induction j as [|j IHj].
  - rewrite Nat.add_0_r. reflexivity.
  - rewrite IHj. replace (fuel + S j)%nat with (S (fuel + j)) by lia.
    apply dec_digits_fuel; [lia|].
    assert (2 ^ Z.of_nat fuel <= 2 ^ Z.of_nat (fuel + j))
      by (apply Z.pow_le_mono_r; lia). lia.
Qed.

Lemma print_uint_all_digits (n : Z) : 0 <= n -> all_chars is_digit (print_uint n) = true.
Proof. apply dec_digits_all_digits. Qed.

Lemma print_uint_length (n : Z) :
  0 <= n < 10 ^ 10 -> (String.length (print_uint n) <= 10)%nat.
Proof. intros H. apply (dec_digits_length _ n 9). exact H. Qed.

(** The last digit is printed last: the numeral of [n] is the numeral of
    [n / 10] followed by the digit [n mod 10]. *)
Lemma print_uint_step (n : Z) :
  10 <= n ->
  print_uint n = print_uint (n / 10) ++ String (digit_char (n mod 10)) EmptyString.
Proof.
  intros Hn. unfold print_uint.
  pose proof (Z.log2_spec n ltac:(lia)) as Hl.
  assert (H1 : 3 <= Z.log2 n) by (apply (Z.log2_le_mono 8 n); lia).
  assert (H0 : 0 <= n / 10) by (apply Z.div_pos; lia).
  assert (Hq : n / 10 < 2 ^ (Z.log2 n - 1)).
  { apply Z.div_lt_upper_bound; [lia|].
    replace (Z.succ (Z.log2 n)) with (2 + (Z.log2 n - 1)) in Hl by lia.
    rewrite Z.pow_add_r in Hl by lia. change (2 ^ 2) with 4 in Hl. lia. }
  assert (Hm : n / 10 < 2 ^ Z.of_nat (S (Z.to_nat (Z.log2 (n / 10))))).
  { rewrite Nat2Z.inj_succ, Z2Nat.id by apply Z.log2_nonneg.
    destruct (Z.eq_dec (n / 10) 0) as [->|NE]; [cbn; lia|].
    apply Z.log2_spec. lia. }
  destruct (Z.to_nat (Z.log2 n)) as [|f] eqn:Ef; [lia|].
  change (dec_digits (S (S f)) n)
    with (if n <? 10 then String (digit_char n) EmptyString
          else dec_digits (S f) (n / 10) ++ String (digit_char (n mod 10)) EmptyString).
  replace (n <? 10) with false by (symmetry; apply Z.ltb_ge; lia).
  f_equal.
  assert (Hf : Z.of_nat (S f) = Z.log2 n) by lia.
  assert (Hq' : n / 10 < 2 ^ Z.of_nat (S f)).
  { rewrite Hf. assert (2 ^ (Z.log2 n - 1) <= 2 ^ Z.log2 n)
      by (apply Z.pow_le_mono_r; lia). lia. }
  rewrite (dec_digits_fuel_add (S (Z.to_nat (Z.log2 (n / 10)))) (S f)) by lia.
  rewrite (dec_digits_fuel_add (S f) (S (Z.to_nat (Z.log2 (n / 10))))) by lia.
  f_equal. lia.
Qed.

Lemma zeros_all_digits (k : nat) : all_chars is_digit (zeros k) = true.
Proof. induction k as [|k IH]; [reflexivity|]. cbn [zeros all_chars]. rewrite IH. reflexivity. Qed.

Lemma fmt_d_nonneg (n : Z) : 0 <= n -> fmt_d n = print_uint n.
Proof.
  intros H. unfold fmt_d.
  replace (n <? 0) with false by (symmetry; apply Z.ltb_ge; lia). reflexivity.
Qed.

Lemma fmt_03d_all_digits (n : Z) : 0 <= n -> all_chars is_digit (fmt_03d n) = true.
Proof.
  intros H. unfold fmt_03d.
  replace (n <? 0) with false by (symmetry; apply Z.ltb_ge; lia).
  rewrite all_chars_app, zeros_all_digits, print_uint_all_digits by lia. reflexivity.
Qed.

Lemma fmt_03d_table :
  forallb (fun k => (String.length (fmt_03d (Z.of_nat k)) =? 3)%nat) (seq 0 1000) = true.
Proof. vm_compute. reflexivity. Qed.

(** Up to 999 the conversion [%03d] prints exactly three digits. *)
Lemma fmt_03d_length (d : Z) : 0 <= d <= 999 -> String.length (fmt_03d d) = 3%nat.
Proof.
  intros H. pose proof fmt_03d_table as T.
  rewrite forallb_forall in T.
  specialize (T (Z.to_nat d)). rewrite Z2Nat.id in T by lia.
  apply Nat.eqb_eq, T, in_seq. lia.
Qed.

Lemma is_digit_not_point : is_digit "." = false.
Proof. reflexivity. Qed.

(** The shape of [%d.%03d] for a natural number and a number below 1000. *)
Lemma decimal_shape_intro (pre : string) (ip dp : Z) :
  count_char "." pre = 0%nat -> 0 <= ip -> 0 <= dp <= 999 ->
  decimal_shape (pre ++ print_uint ip ++ String "." (fmt_03d dp)).
Proof.
  intros Hpre Hip Hdp.
  pose proof (print_uint_all_digits ip Hip) as H1.
  pose proof (fmt_03d_all_digits dp ltac:(lia)) as H2.
  pose proof (count_char_absent "." is_digit _ is_digit_not_point H1) as C1.
  pose proof (count_char_absent "." is_digit _ is_digit_not_point H2) as C2.
  split.
  - rewrite !count_char_app. cbn [count_char]. rewrite Hpre, C1, C2. reflexivity.
  - exists (fmt_03d dp). rewrite <- string_app_assoc.
    rewrite after_char_app by (rewrite count_char_app, Hpre, C1; reflexivity).
    repeat split; [apply fmt_03d_length|]; assumption.
Qed.

(* ================================================================= *)
(** * Part IV: the conversions *)
(* ================================================================= *)

(** ** Conversion to an integer type *)

Lemma sext_range (w n : Z) : 0 < w -> int_min w <= sext w n <= int_max w.
Proof.
  intros Hw. unfold sext, int_min, int_max.
  pose proof (pow2_pos (w - 1) ltac:(lia)) as Hp.
  assert (E : 2 ^ w = 2 * 2 ^ (w - 1)).
  { rewrite <- Z.pow_succ_r by lia. f_equal. lia. }
  pose proof (Z.mod_pos_bound (n + 2 ^ (w - 1)) (2 ^ w) ltac:(lia)). lia.
Qed.

Lemma sext_id (w n : Z) : 0 < w -> int_min w <= n <= int_max w -> sext w n = n.
Proof.
  intros Hw. unfold sext, int_min, int_max. intros H.
  pose proof (pow2_pos (w - 1) ltac:(lia)) as Hp.
  assert (E : 2 ^ w = 2 * 2 ^ (w - 1)).
  { rewrite <- Z.pow_succ_r by lia. f_equal. lia. }
  rewrite Z.mod_small by lia. lia.
Qed.

Lemma in_int_iff (w n : Z) : in_int w n = true <-> int_min w <= n <= int_max w.
Proof. unfold in_int. rewrite andb_true_iff, !Z.leb_le. reflexivity. Qed.

Lemma fptosi_range (conv : spec_float -> Z) (w : Z) (x : spec_float) :
  0 < w -> int_min w <= fptosi conv w x <= int_max w.
Proof.
  intros Hw. unfold fptosi.
  destruct (SFtrunc x) as [n|]; [|apply sext_range; assumption].
  destruct (in_int w n) eqn:E; [apply in_int_iff; assumption|].
  apply sext_range; assumption.
Qed.

Lemma fptosi_defined (conv : spec_float -> Z) (w : Z) (x : spec_float) :
  is_finite x = true -> int_min w <= Qtrunc (SF2Q x) <= int_max w ->
  fptosi conv w x = Qtrunc (SF2Q x).
Proof.
  intros Hf Hr. unfold fptosi. rewrite SFtrunc_spec by assumption.
  apply in_int_iff in Hr. rewrite Hr. reflexivity.
Qed.

#[global] Instance Qtrunc_Proper : Proper (Qeq ==> eq) Qtrunc.
Proof.
  intros q q' E. unfold Qtrunc.
  rewrite (Qfloor_comp q q' E), (Qceiling_comp q q' E), E. reflexivity.
Qed.

Lemma Qtrunc_Z (n : Z) : Qtrunc (inject_Z n) = n.
Proof.
  unfold Qtrunc. destruct (Qle_bool 0 (inject_Z n)); [apply Qfloor_Z|apply Qceiling_Z].
Qed.

(** ** Normal results *)

Lemma round_spec_normal (m e : Z) :
  0 < m -> e <= ulp_exp m e -> -149 < ulp_exp m e ->
  let r := round_spec m e in
  2 ^ 23 <= fst r < 2 ^ 24 /\ ulp_exp m e <= snd r <= ulp_exp m e + 1.
Proof.
  intros Hm He Hn r. subst r. unfold round_spec. fold (ulp_exp m e).
  pose proof (ulp_exp_eq m e) as He1. set (e1 := ulp_exp m e) in *.
  pose proof (Zdigits2_bounds m Hm) as Hb.
  assert (Hd : Zdigits2 m = e1 - e + 24) by lia.
  destruct (Z.leb_spec e1 e) as [H1|H1]; cbn [fst snd].
  - replace (Zdigits2 m) with 24 in Hb by lia. lia.
  - pose proof (rnd_shift_le_pow m (e1 - e) Hm ltac:(lia) ltac:(lia)) as Hle.
    pose proof (rnd_shift_ge_pow m (e1 - e) Hm ltac:(lia) ltac:(lia)) as Hge.
    set (m1 := rnd_shift m (e1 - e)) in *.
    change (2 ^ prec) with (2 ^ 24). change (prec - 1) with 23.
    destruct (Z.eqb_spec m1 (2 ^ 24)) as [E|NE]; cbn [fst snd]; lia.
Qed.

Lemma binary_round_normal (s : bool) (m : positive) (e : Z) :
  Zdigits2 (Zpos m) + e <= 127 -> -149 < ulp_exp (Zpos m) e ->
  exists m' e',
    binary_round prec emax s m e = S754_finite s m' e' /\
    Zdigits2 (Zpos m') = 24 /\
    ulp_exp (Zpos m) e <= e' <= ulp_exp (Zpos m) e + 1.
Proof.
  intros Hd Hn. unfold binary_round.
  change (fexp prec emax (Zpos (digits2_pos m) + e)) with (ulp_exp (Zpos m) e).
  pose proof (shl_align_spec m e (ulp_exp (Zpos m) e)) as [Hz1 Hz2].
  destruct (shl_align m e (ulp_exp (Zpos m) e)) as [mz ez]; cbn [fst snd] in *.
  rewrite binary_round_aux_spec.
  assert (Hsh : ez = e - (e - ez)) by lia.
  pose proof (ulp_exp_shift (Zpos m) e (e - ez) ltac:(lia) ltac:(lia)) as Hu.
  rewrite <- Hz2, <- Hsh in Hu.
  pose proof (round_spec_normal (Zpos mz) ez ltac:(lia) ltac:(lia) ltac:(lia))
    as (P0 & P1). cbv zeta in *. rewrite Hu in P1.
  pose proof (ulp_exp_eq (Zpos m) e).
  unfold SF_of_round.
  destruct (round_spec (Zpos mz) ez) as [m' e']; cbn [fst snd] in *.
  destruct m' as [|m'|m']; try lia.
  exists m', e'.
  change (emax - prec) with 104.
  replace (e' <=? 104) with true by (symmetry; apply Z.leb_le; lia).
  split; [reflexivity|]. split; [|lia].
  apply Zdigits2_unique; lia.
Qed.

Lemma b32_of_Z_normal (a : Z) :
  a <> 0 -> Z.abs a < 2 ^ 100 ->
  exists s m e,
    b32_of_Z a = S754_finite s m e /\ Zdigits2 (Zpos m) = 24 /\
    Zdigits2 a - 24 <= e <= Zdigits2 a - 23.
Proof.
  intros NE Ha. unfold b32_of_Z.
  pose proof (Zdigits2_le_bound a 100 ltac:(lia) Ha) as Hd.
  pose proof (Zdigits2_pos a NE) as Hp.
  assert (Hu : ulp_exp a 0 = Zdigits2 a - 24) by (rewrite ulp_exp_eq; lia).
  destruct a as [|p|p]; try lia; cbn [binary_normalize].
  - destruct (binary_round_normal false p 0 ltac:(lia) ltac:(lia))
      as (m' & e' & E1 & E2 & E3).
    exists false, m', e'. repeat split; try assumption; lia.
  - change (Zdigits2 (Zneg p)) with (Zdigits2 (Zpos p)) in *.
    change (ulp_exp (Zneg p) 0) with (ulp_exp (Zpos p) 0) in Hu.
    destruct (binary_round_normal true p 0 ltac:(lia) ltac:(lia))
      as (m' & e' & E1 & E2 & E3).
    exists true, m', e'. repeat split; try assumption; lia.
Qed.

(** ** From Q31 and Q15 to [float] *)

Lemma F2Q_scale (m e k : Z) : (F2Q m (e + k) == F2Q m e * F2Q 1 k)%Q.
Proof. rewrite F2Q_mul, Z.mul_1_r. reflexivity. Qed.

(** The division by [2 ^ 31] of [q31_to_float] is exact: the result is the
    converted integer, scaled. *)
Lemma q31_to_float_scaled (a : Z) :
  - 2 ^ 31 <= a < 2 ^ 31 ->
  is_finite (q31_to_float a) = true /\ is_b32 (q31_to_float a) = true /\
  (SF2Q (q31_to_float a) == SF2Q (b32_of_Z a) * F2Q 1 (-31))%Q /\
  (Qabs (SF2Q (q31_to_float a)) < 4)%Q.
Proof.
  intros Ha. unfold q31_to_float.
  change (b32_of_Z 2147483648) with (S754_finite false 8388608 8).
  destruct (Z.eq_dec a 0) as [->|NE].
  - repeat split.
  - destruct (b32_of_Z_normal a NE) as (s & m & e & E1 & E2 & E3).
    { assert (2 ^ 31 < 2 ^ 100) by (apply Z.pow_lt_mono_r; lia). lia. }
    assert (Hd : 1 <= Zdigits2 a <= 32).
    { pose proof (Zdigits2_pos a NE).
      pose proof (Zdigits2_le_bound a 32 ltac:(lia)) as H32.
      assert (2 ^ 31 < 2 ^ 32) by (apply Z.pow_lt_mono_r; lia). lia. }
    rewrite E1, b32_div_pow2 by lia.
    pose proof (Zdigits2_bounds (Zpos m) ltac:(lia)) as Hm. rewrite E2 in Hm.
    split; [reflexivity|]. split; [|split].
    + apply is_b32_finite. rewrite ulp_exp_eq, E2. lia.
    + cbn [SF2Q]. replace (e - 8 - 23) with (e + -31) by lia. apply F2Q_scale.
    + cbn [SF2Q]. rewrite F2Q_abs.
      replace (Z.abs (cond_Zopp s (Zpos m))) with (Zpos m) by (destruct s; reflexivity).
      setoid_replace 4%Q with (F2Q 1 2) by reflexivity.
      rewrite (F2Q_align 1 (e - 8 - 23) 2) by lia.
      apply F2Q_lt. rewrite Z.mul_1_l.
      assert (2 ^ 24 <= 2 ^ (2 - (e - 8 - 23))) by (apply Z.pow_le_mono_r; lia).
      lia.
Qed.

(* ================================================================= *)
(** * Part V: the decimal formatter *)
(* ================================================================= *)

(** ** Integral and fractional part of a binary32 number *)

Lemma Qfloor_nonneg_lt (q : Q) (b : Z) :
  (0 <= q)%Q -> (q < inject_Z b)%Q -> 0 <= Qfloor q < b.
Proof.
  intros H0 Hb. split.
  - change 0 with (Qfloor 0). apply Qfloor_resp_le. assumption.
  - rewrite Zlt_Qlt. eapply Qle_lt_trans; [apply Qfloor_le|assumption].
Qed.

Lemma frac_repr (m : positive) (e : Z) :
  -149 <= e -> Zpos m < 2 ^ 24 ->
  let ip := Qfloor (F2Q (Zpos m) e) in
  0 <= ip /\
  (exists mi ei, (inject_Z ip == F2Q mi ei)%Q /\ Z.abs mi < 2 ^ 24 /\ -149 <= ei) /\
  (exists mf ef,
      (F2Q (Zpos m) e - inject_Z ip == F2Q mf ef)%Q /\
      0 <= mf < 2 ^ 24 /\ -149 <= ef <= 0 /\ mf < 2 ^ (- ef) /\
      (F2Q mf ef <= F2Q (2 ^ 24 - 1) (-24))%Q).
Proof.
  intros He Hm ip. subst ip. rewrite Qfloor_F2Q.
  destruct (Z.leb_spec 0 e) as [H0|H0].
  - pose proof (pow2_pos e H0). split; [nia|]. split.
    + exists (Zpos m), e. split; [|lia].
      rewrite <- F2Q_Z, (F2Q_align (Zpos m) 0 e), Z.sub_0_r by lia. reflexivity.
    + exists 0, 0. split; [|split; [|split; [|split]]]; try (cbn; lia).
      * rewrite <- F2Q_Z, (F2Q_align (Zpos m) 0 e), Z.sub_0_r, F2Q_0 by lia. ring.
      * rewrite F2Q_0. apply F2Q_nonneg. cbn. lia.
  - pose proof (pow2_pos (- e) ltac:(lia)) as Hp.
    pose proof (Z.div_mod (Zpos m) (2 ^ (- e)) ltac:(lia)) as Hdm.
    pose proof (Z.mod_pos_bound (Zpos m) (2 ^ (- e)) Hp) as Hr.
    assert (Hq : 0 <= Zpos m / 2 ^ (- e)) by (apply Z.div_pos; lia).
    set (q := Zpos m / 2 ^ (- e)) in *. set (r := Zpos m mod 2 ^ (- e)) in *.
    split; [assumption|]. split.
    + exists q, 0. split; [rewrite F2Q_Z; reflexivity|]. split; [nia|lia].
    + exists r, e. split; [|split; [|split; [|split]]]; try lia; try nia.
      * rewrite <- (F2Q_Z q), (F2Q_align q e 0), F2Q_sub, Z.sub_0_l by lia.
        apply F2Q_inj. lia.
      * destruct (Z.le_ge_cases (-24) e) as [Hc|Hc].
        -- rewrite (F2Q_align r (-24) e) by lia. apply F2Q_le.
           pose proof (pow2_pos (e - -24) ltac:(lia)) as Hp2.
           assert (E : 2 ^ (- e) * 2 ^ (e - -24) = 2 ^ 24)
             by (rewrite <- pow2_split by lia; f_equal; lia).
           nia.
        -- rewrite (F2Q_align (2 ^ 24 - 1) e (-24)) by lia. apply F2Q_le.
           pose proof (pow2_pos (-24 - e) ltac:(lia)) as Hp2. nia.
Qed.

Lemma F2Q_pow2_m15 : (F2Q 1 (-15) == 1 # 32768)%Q.
Proof. vm_compute. reflexivity. Qed.

Lemma F2Q_frac_max : (F2Q (2 ^ 24 - 1) (-24) == 16777215 # 16777216)%Q.
Proof. vm_compute. reflexivity. Qed.

Lemma SF2Q_1000 : (SF2Q (b32_of_Z 1000) == 1000)%Q.
Proof. vm_compute. reflexivity. Qed.

Lemma Qabs_small (q b : Q) : (0 <= q)%Q -> (q < b)%Q -> (Qabs q < b)%Q.
Proof. intros H0 Hb. rewrite Qabs_pos; assumption. Qed.

Lemma F2Q_1_127_big : (2147483648000 < F2Q 1 127)%Q.
Proof. vm_compute. reflexivity. Qed.

(** The integral part of a number below [2 ^ 31] and the thousandths of its
    fractional part, as [float_to_string] computes them. *)
Lemma split_number (conv : spec_float -> Z) (number : spec_float) :
  is_finite number = true -> is_b32 number = true ->
  (0 <= SF2Q number)%Q -> (SF2Q number < 2147483648)%Q ->
  let ip := fptosi conv 32 number in
  let r := b32_mul (b32_sub number (b32_of_Z ip)) (b32_of_Z 1000) in
  ip = Qfloor (SF2Q number) /\ 0 <= ip < 2147483648 /\
  is_finite r = true /\
  rounds_to ((SF2Q number - inject_Z ip) * 1000) (SF2Q r) /\
  fptosi conv 32 r = Qfloor (SF2Q r) /\ 0 <= Qfloor (SF2Q r) <= 999.
Proof.
  intros Hfin Hval Hpos Hlt ip r.
  assert (Hip : ip = Qfloor (SF2Q number) /\ 0 <= ip < 2147483648).
  { pose proof (Qfloor_nonneg_lt _ 2147483648 Hpos Hlt) as Hfl.
    subst ip. rewrite fptosi_defined, Qtrunc_nonneg; try assumption; [lia|].
    rewrite Qtrunc_nonneg by assumption. unfold int_min, int_max.
    change (2 ^ (32 - 1)) with 2147483648. lia. }
  destruct Hip as [Eip Rip]. clearbody ip. subst ip.
  (* the representations of the two parts *)
  assert (Hparts :
    (exists mi ei, (inject_Z (Qfloor (SF2Q number)) == F2Q mi ei)%Q /\
                   Z.abs mi < 2 ^ 24 /\ -149 <= ei) /\
    (exists mf ef,
      (SF2Q number - inject_Z (Qfloor (SF2Q number)) == F2Q mf ef)%Q /\
      0 <= mf < 2 ^ 24 /\ -149 <= ef <= 0 /\ mf < 2 ^ (- ef) /\
      (F2Q mf ef <= F2Q (2 ^ 24 - 1) (-24))%Q)).
  { destruct number as [s|s| |s m e]; try discriminate.
    - cbn [SF2Q]. change (Qfloor 0) with 0. split.
      + exists 0, 0. rewrite F2Q_0. repeat split; cbn; lia.
      + exists 0, 0. rewrite F2Q_0. repeat split; try (cbn; lia); try ring.
        apply F2Q_nonneg. cbn. lia.
    - pose proof (is_b32_bounds _ _ _ Hval) as (Bm & Be & _).
      destruct s.
      + exfalso. cbn [SF2Q cond_Zopp] in Hpos. apply F2Q_nonneg in Hpos. lia.
      + cbn [SF2Q cond_Zopp]. apply (frac_repr m e); lia. }
  destruct Hparts as [(mi & ei & Ei & Bmi & Bei) (mf & ef & Ef & Bmf & Bef & Bmf' & Bfr)].
  set (ipz := Qfloor (SF2Q number)) in *.
  (* the integral part converts back exactly *)
  destruct (b32_of_Z_props ipz) as (F1 & V1 & R1).
  { assert (2 ^ 31 < 2 ^ 127) by (apply Z.pow_lt_mono_r; lia).
    change (2 ^ 31) with 2147483648 in *. lia. }
  pose proof (rounds_to_exact _ _ mi ei R1 Ei Bmi Bei) as X1.
  (* the subtraction is exact *)
  assert (Hfrac0 : (0 <= F2Q mf ef)%Q) by (apply F2Q_nonneg; lia).
  assert (Hfrac1 : (F2Q mf ef < 1)%Q).
  { rewrite F2Q_frac_max in Bfr. eapply Qle_lt_trans; [exact Bfr|]. reflexivity. }
  destruct (b32_sub_props number (b32_of_Z ipz) Hfin F1 Hval V1) as (F2 & V2 & R2).
  { rewrite X1, Ef. apply Qabs_small; [assumption|].
    eapply Qlt_trans; [exact Hfrac1|].
    eapply Qlt_trans; [|apply F2Q_1_127_big]. reflexivity. }
  rewrite X1 in R2.
  pose proof (rounds_to_exact _ _ mf ef R2 Ef ltac:(lia) ltac:(lia)) as X2.
  (* the multiplication by 1000 *)
  assert (F3 : is_finite (b32_of_Z 1000) = true) by reflexivity.
  assert (V3 : is_b32 (b32_of_Z 1000) = true) by reflexivity.
  destruct (b32_mul_props _ _ F2 F3 V2 V3) as (F4 & V4 & R4).
  { rewrite X2, SF2Q_1000, Ef. apply Qabs_small.
    - apply Qmult_le_0_compat; [assumption|discriminate].
    - eapply Qlt_trans; [|apply F2Q_1_127_big]. lra. }
  rewrite X2, SF2Q_1000 in R4. fold r in F4, V4, R4.
  split; [reflexivity|]. split; [assumption|]. split; [assumption|].
  split; [assumption|].
  (* the product is below 1000 *)
  assert (Ev : ((SF2Q number - inject_Z ipz) * 1000 == F2Q (mf * 1000) ef)%Q).
  { rewrite Ef. unfold F2Q. rewrite inject_Z_mult. ring. }
  assert (Hd : Z.abs (mf * 1000) < 2 ^ (10 - ef)).
  { rewrite Z.abs_eq by lia. replace (10 - ef) with (10 + - ef) by lia.
    rewrite pow2_split by lia. change (2 ^ 10) with 1024. lia. }
  pose proof (rounds_to_error _ _ _ _ (10 - ef) R4 Ev ltac:(lia) Hd) as Herr.
  replace (Z.max (10 - ef + ef - 24) (-149) - 1) with (-15) in Herr by lia.
  rewrite F2Q_pow2_m15 in Herr. apply Qabs_le_iff in Herr.
  destruct (rounds_to_grid _ _ _ _ R4 Ev) as (n & En & Hn & _).
  assert (Hr0 : (0 <= SF2Q r)%Q) by (rewrite En; apply F2Q_nonneg, Hn; lia).
  assert (Hr1 : (SF2Q r < 1000)%Q).
  { rewrite F2Q_frac_max in Bfr. rewrite Ef in Herr. lra. }
  pose proof (Qfloor_nonneg_lt _ 1000 Hr0 Hr1) as Hfl.
  split; [|lia].
  rewrite fptosi_defined, Qtrunc_nonneg; try assumption; [reflexivity|].
  rewrite Qtrunc_nonneg by assumption. unfold int_min, int_max.
  change (2 ^ (32 - 1)) with 2147483648. lia.
Qed.

(** ** The sign *)

Lemma float_text_unfold (conv : spec_float -> Z) (x : spec_float) :
  float_text conv x =
  sign_text x ++
  fmt_d (fptosi conv 32 (magnitude x)) ++
  String "." (fmt_03d (fptosi conv 32
     (b32_mul (b32_sub (magnitude x) (b32_of_Z (fptosi conv 32 (magnitude x))))
              (b32_of_Z 1000)))).
Proof.
  unfold float_text, sign_text, magnitude.
  destruct (b32_ltb x (b32_of_Z 0)); reflexivity.
Qed.

Lemma magnitude_props (x : spec_float) :
  is_finite x = true -> is_b32 x = true ->
  is_finite (magnitude x) = true /\ is_b32 (magnitude x) = true /\
  (SF2Q (magnitude x) == Qabs (SF2Q x))%Q.
Proof.
  intros Hf Hv. unfold magnitude.
  destruct x as [s|s| |s m e]; try discriminate.
  - destruct s; repeat split.
  - destruct s; (split; [reflexivity|]; split; [exact Hv|]);
      cbn [b32_ltb SFltb SFcompare b32_of_Z binary_normalize b32_opp SFopp negb SF2Q cond_Zopp];
      rewrite F2Q_abs; reflexivity.
Qed.

Theorem float_text_inrange (conv : spec_float -> Z) (x : spec_float) :
  is_finite x = true -> is_b32 x = true ->
  (Qabs (SF2Q x) < 2147483648)%Q ->
  exists ip dp r,
    float_text conv x = sign_text x ++ print_uint ip ++ String "." (fmt_03d dp) /\
    ip = Qfloor (Qabs (SF2Q x)) /\ 0 <= ip < 2147483648 /\
    rounds_to ((Qabs (SF2Q x) - inject_Z ip) * 1000) r /\
    dp = Qfloor r /\ 0 <= dp <= 999.
Proof.
  intros Hf Hv Hb.
  destruct (magnitude_props x Hf Hv) as (Fm & Vm & Em).
  destruct (split_number conv (magnitude x) Fm Vm) as (E1 & R1 & F2 & R2 & E3 & R3).
  { rewrite Em. apply Qabs_nonneg. }
  { rewrite Em. assumption. }
  cbv zeta in *.
  set (ip := fptosi conv 32 (magnitude x)) in *.
  set (r := b32_mul (b32_sub (magnitude x) (b32_of_Z ip)) (b32_of_Z 1000)) in *.
  exists ip, (Qfloor (SF2Q r)), (SF2Q r).
  split; [|split; [|split; [|split; [|split]]]]; try assumption; try reflexivity.
  - rewrite float_text_unfold. fold ip. fold r. rewrite E3, fmt_d_nonneg by lia.
    reflexivity.
  - rewrite E1, Em. reflexivity.
  - rewrite <- Em. assumption.
Qed.

Lemma sign_text_length (x : spec_float) : (String.length (sign_text x) <= 1)%nat.
Proof. unfold sign_text. destruct (b32_ltb _ _); cbn; lia. Qed.

Lemma sign_text_no_point (x : spec_float) : count_char "." (sign_text x) = 0%nat.
Proof. unfold sign_text. destruct (b32_ltb _ _); reflexivity. Qed.

Lemma float_text_length (conv : spec_float -> Z) (x : spec_float) :
  is_finite x = true -> is_b32 x = true ->
  (Qabs (SF2Q x) < 2147483648)%Q ->
  (String.length (float_text conv x) <= 15)%nat.
Proof.
  intros Hf Hv Hb.
  destruct (float_text_inrange conv x Hf Hv Hb) as (ip & dp & r & E & _ & Hip & _ & _ & Hdp).
  rewrite E, !length_app. cbn [String.length].
  rewrite fmt_03d_length by assumption.
  pose proof (sign_text_length x).
  pose proof (print_uint_length ip ltac:(lia)). lia.
Qed.

Lemma float_text_shape (conv : spec_float -> Z) (x : spec_float) :
  is_finite x = true -> is_b32 x = true ->
  (Qabs (SF2Q x) < 2147483648)%Q ->
  decimal_shape (float_text conv x).
Proof.
  intros Hf Hv Hb.
  destruct (float_text_inrange conv x Hf Hv Hb) as (ip & dp & r & E & _ & Hip & _ & _ & Hdp).
  rewrite E. apply decimal_shape_intro; [apply sign_text_no_point|lia|assumption].
Qed.

Lemma float_to_string_complete (conv : spec_float -> Z) (buf : string)
                               (size : Z) (x : spec_float) :
  is_finite x = true -> is_b32 x = true ->
  (Qabs (SF2Q x) < 2147483648)%Q -> 16 <= size <= 255 ->
  float_to_string conv buf size x = float_text conv x.
Proof.
  intros Hf Hv Hb Hs. unfold float_to_string, uint8.
  change (2 ^ 8) with 256. rewrite Z.mod_small by lia.
  apply snprintf_fits. pose proof (float_text_length conv x Hf Hv Hb). lia.
Qed.

(** A dyadic number with three decimals has a multiple of 125
    thousandths. *)
Lemma exact_thousandths (m e n d : Z) :
  (F2Q m e == inject_Z n + inject_Z d / 1000)%Q -> d mod 125 = 0.
Proof.
  intros E.
  assert (E' : (F2Q (1000 * m) e == inject_Z (1000 * n + d))%Q).
  { unfold F2Q in *. rewrite inject_Z_plus, !inject_Z_mult, <- Qmult_assoc, E.
    change (inject_Z 1000) with 1000%Q. field. }
  apply Z.mod_divide; [lia|].
  destruct (Z.le_ge_cases 0 e) as [He|He].
  - rewrite <- F2Q_Z, (F2Q_align (1000 * m) 0 e), Z.sub_0_r in E' by lia.
    apply F2Q_inj in E'. exists (8 * (m * 2 ^ e - n)). lia.
  - rewrite <- (F2Q_Z (1000 * n + d)), (F2Q_align (1000 * n + d) e 0) in E' by lia.
    apply F2Q_inj in E'.
    apply (Z.gauss 125 (2 ^ (0 - e)) d).
    + exists (8 * (m - n * 2 ^ (0 - e))). lia.
    + apply Z.coprime_pow_r; [lia|reflexivity].
Qed.

(* ================================================================= *)
(** * Part VI: from [float] to Q15 and Q31 *)
(* ================================================================= *)

Lemma F2Q_1_val (k : Z) (q : Q) : (2 ^ k == q)%Q -> (F2Q 1 k == q)%Q.
Proof. intros <-. apply F2Q_pow2. Qed.

(** Multiplication by [2 ^ k] is exact. *)
Lemma b32_mul_pow2 (x c : spec_float) (k : Z) :
  is_finite x = true -> is_b32 x = true ->
  is_finite c = true -> is_b32 c = true -> (SF2Q c == F2Q 1 k)%Q -> 0 <= k <= 100 ->
  (Qabs (SF2Q x) < 4)%Q ->
  is_finite (b32_mul x c) = true /\ is_b32 (b32_mul x c) = true /\
  (SF2Q (b32_mul x c) == SF2Q x * F2Q 1 k)%Q.
Proof.
  intros Fx Vx Fc Vc Ec Hk Hb.
  assert (Hrep : exists m e, (SF2Q x == F2Q m e)%Q /\ Z.abs m < 2 ^ 24 /\ -149 <= e).
  { destruct x as [s|s| |s m e]; try discriminate.
    - exists 0, 0. rewrite F2Q_0. repeat split; cbn; lia.
    - pose proof (is_b32_bounds _ _ _ Vx) as (Bm & Be & _).
      exists (cond_Zopp s (Zpos m)), e. split; [reflexivity|].
      split; [destruct s; cbn; lia|lia]. }
  destruct Hrep as (m & e & Ex & Bm & Be).
  destruct (b32_mul_props x c Fx Fc Vx Vc) as (F & V & R).
  { rewrite Ec, Qabs_Qmult, (Qabs_pos (F2Q 1 k)) by (apply F2Q_nonneg; lia).
    assert (E127 : (F2Q 1 127 == F2Q 1 (127 - k) * F2Q 1 k)%Q).
    { rewrite F2Q_mul. f_equiv. lia. }
    rewrite E127. apply Qmult_lt_r; [rewrite <- (F2Q_0 k); apply F2Q_lt; lia|].
    eapply Qlt_le_trans; [exact Hb|].
    setoid_replace 4%Q with (F2Q 1 2) by reflexivity.
    rewrite (F2Q_align 1 2 (127 - k)) by lia. apply F2Q_le.
    pose proof (pow2_pos (127 - k - 2) ltac:(lia)). lia. }
  split; [assumption|]. split; [assumption|].
  rewrite Ec in R.
  apply (rounds_to_exact _ _ m (e + k) R); try lia.
  rewrite Ex. symmetry. apply F2Q_scale.
Qed.

Lemma Zdigits2_succ_shift (m k : Z) :
  0 < m -> 0 < k -> Zdigits2 (m * 2 ^ k + 1) = Zdigits2 m + k.
Proof.
  intros Hm Hk. pose proof (Zdigits2_bounds m Hm) as Hb.
  pose proof (Zdigits2_pos m ltac:(lia)) as Hd.
  pose proof (pow2_pos k ltac:(lia)) as Hp.
  assert (2 <= 2 ^ k).
  { change 2 with (2 ^ 1) at 1. apply Z.pow_le_mono_r; lia. }
  apply Zdigits2_unique; [|lia].
  replace (Zdigits2 m + k - 1) with ((Zdigits2 m - 1) + k) by lia.
  rewrite !pow2_split by lia. nia.
Qed.

Lemma rnd_shift_succ (m k : Z) : 0 <= m -> 1 < k -> rnd_shift (m * 2 ^ k + 1) k = m.
Proof.
  intros Hm Hk. unfold rnd_shift.
  pose proof (pow2_pos k ltac:(lia)) as Hp.
  assert (2 <= 2 ^ (k - 1)).
  { change 2 with (2 ^ 1) at 1. apply Z.pow_le_mono_r; lia. }
  assert (2 ^ k = 2 * 2 ^ (k - 1)).
  { rewrite <- Z.pow_succ_r by lia. f_equal. lia. }
  rewrite Z.add_comm, Z.mod_add, Z.div_add, Z.mod_small, Z.div_small by lia.
  replace (1 <? 2 ^ (k - 1)) with true by (symmetry; apply Z.ltb_lt; lia).
  lia.
Qed.

Lemma F2Q_half : (F2Q 1 (-1) == 1 # 2)%Q.
Proof. vm_compute. reflexivity. Qed.

Lemma SF2Q_f_0_5 : (SF2Q f_0_5 == 1 # 2)%Q.
Proof. vm_compute. reflexivity. Qed.

Lemma F2Q_1_127_gt (q : Q) : (q <= 2 ^ 40)%Q -> (q < F2Q 1 127)%Q.
Proof.
  intros H. eapply Qle_lt_trans; [exact H|]. vm_compute. reflexivity.
Qed.

(** The sum [a * 2 ^ k + 0.5F] of [float_to_q15] and [float_to_q31]. *)
Lemma biased_product (x c : spec_float) (k : Z) :
  is_finite x = true -> is_b32 x = true ->
  is_finite c = true -> is_b32 c = true -> (SF2Q c == F2Q 1 k)%Q -> 0 <= k <= 31 ->
  (Qabs (SF2Q x) < 4)%Q ->
  let s := b32_add (b32_mul x c) f_0_5 in
  is_finite s = true /\
  rounds_to (SF2Q x * F2Q 1 k + (1 # 2)) (SF2Q s).
Proof.
  intros Fx Vx Fc Vc Ec Hk Hb s. subst s.
  destruct (b32_mul_pow2 x c k Fx Vx Fc Vc Ec ltac:(lia) Hb) as (F & V & E).
  destruct (b32_add_props (b32_mul x c) f_0_5 F eq_refl V eq_refl) as (F' & _ & R).
  { rewrite E, SF2Q_f_0_5. apply F2Q_1_127_gt.
    eapply Qle_trans; [apply Qabs_triangle|].
    rewrite Qabs_Qmult, (Qabs_pos (F2Q 1 k)) by (apply F2Q_nonneg; lia).
    assert (F2Q 1 k <= F2Q 1 31)%Q.
    { rewrite (F2Q_align 1 k 31) by lia. apply F2Q_le.
      pose proof (pow2_pos (31 - k) ltac:(lia)). lia. }
    assert (E31 : (F2Q 1 31 == 2147483648)%Q) by (vm_compute; reflexivity).
    rewrite E31 in H.
    assert (0 <= F2Q 1 k)%Q by (apply F2Q_nonneg; lia).
    assert (0 <= Qabs (SF2Q x))%Q by apply Qabs_nonneg.
    assert (Qabs (SF2Q x) * F2Q 1 k <= 4 * 2147483648)%Q.
    { apply Qmult_le_compat_nonneg; split; try assumption.
      apply Qlt_le_weak. assumption. }
    change (Qabs (1 # 2)) with (1 # 2)%Q.
    assert (4 * 2147483648 + (1 # 2) <= 2 ^ 40)%Q by (vm_compute; discriminate).
    lra. }
  split; [assumption|]. rewrite E, SF2Q_f_0_5 in R. exact R.
Qed.

Lemma SF2Q_2p31 : (SF2Q (b32_of_Z 2147483648) == F2Q 1 31)%Q.
Proof. vm_compute. reflexivity. Qed.

Lemma SF2Q_2p15 : (SF2Q (b32_of_Z 32768) == F2Q 1 15)%Q.
Proof. vm_compute. reflexivity. Qed.

Lemma F2Q_1_31 : (F2Q 1 31 == 2147483648)%Q.
Proof. vm_compute. reflexivity. Qed.

Lemma F2Q_1_m31 : (F2Q 1 (-31) == 1 # 2147483648)%Q.
Proof. vm_compute. reflexivity. Qed.

Lemma Qfloor_bounds (q : Q) : (inject_Z (Qfloor q) <= q < inject_Z (Qfloor q) + 1)%Q.
Proof.
  split; [apply Qfloor_le|].
  pose proof (Qlt_floor q) as H. rewrite inject_Z_plus in H. exact H.
Qed.

(** The Q31 code of a number of [0, 1) is within one unit of the scaled
    number, and converts back exactly. *)
Lemma float_to_q31_near (conv : spec_float -> Z) (x : spec_float) :
  is_b32 x = true -> is_finite x = true ->
  (0 <= SF2Q x)%Q -> (SF2Q x < 1)%Q ->
  let n := float_to_q31 conv x in
  0 <= n < 2 ^ 31 /\
  (SF2Q x * 2147483648 - 1 <= inject_Z n <= SF2Q x * 2147483648 + 1)%Q /\
  (SF2Q (b32_of_Z n) == inject_Z n)%Q.
Proof.
  intros Vx Fx H0 H1 n. subst n. unfold float_to_q31.
  destruct (biased_product x (b32_of_Z 2147483648) 31 Fx Vx eq_refl eq_refl
              SF2Q_2p31 ltac:(lia)) as (Fs & R).
  { rewrite Qabs_pos by assumption. lra. }
  cbv zeta in *.
  set (s := b32_add (b32_mul x (b32_of_Z 2147483648)) f_0_5) in *.
  destruct x as [sx|sx| |sx m e]; try discriminate.
  { (* zero *)
    destruct sx; vm_compute; repeat split; discriminate. }
  pose proof (is_b32_bounds _ _ _ Vx) as (Bm & Be & Cm).
  destruct sx.
  { exfalso. cbn [SF2Q cond_Zopp] in H0. apply F2Q_nonneg in H0. lia. }
  cbn [SF2Q cond_Zopp] in *.
  assert (Ey : (F2Q (Zpos m) e * F2Q 1 31 == F2Q (Zpos m) (e + 31))%Q).
  { rewrite F2Q_mul, Z.mul_1_r. reflexivity. }
  rewrite Ey in R.
  assert (Ey' : (F2Q (Zpos m) e * 2147483648 == F2Q (Zpos m) (e + 31))%Q).
  { rewrite <- Ey, F2Q_1_31. reflexivity. }
  rewrite Ey'.
  destruct (Z_le_gt_dec (e + 31) 0) as [Hc|Hc].
  - (* below 2 ^ 24: the sum is rounded by at most 1/2 *)
    set (P := 2 ^ (- e - 31)).
    assert (HP : 0 < P) by (apply pow2_pos; lia).
    assert (Ev : (F2Q (Zpos m) (e + 31) + (1 # 2) ==
                  F2Q (Zpos m * 2 + P) (e + 30))%Q).
    { rewrite <- F2Q_add, <- F2Q_half.
      rewrite (F2Q_align (Zpos m) (e + 30) (e + 31)) by lia.
      rewrite (F2Q_align 1 (e + 30) (-1)) by lia.
      replace (e + 31 - (e + 30)) with 1 by lia.
      replace (-1 - (e + 30)) with (- e - 31) by lia.
      change (2 ^ 1) with 2. fold P. rewrite Z.mul_1_l. reflexivity. }
    assert (Hd : Z.abs (Zpos m * 2 + P) < 2 ^ (- e - 6)).
    { replace (- e - 6) with (25 + (- e - 31)) by lia.
      rewrite pow2_split by lia. fold P. change (2 ^ 25) with 33554432.
      change (2 ^ 24) with 16777216 in Bm. lia. }
    pose proof (rounds_to_error _ _ _ _ (- e - 6) R Ev ltac:(lia) Hd) as Herr.
    replace (Z.max (- e - 6 + (e + 30) - 24) (-149) - 1) with (-1) in Herr by lia.
    rewrite F2Q_half in Herr. apply Qabs_le_iff in Herr.
    destruct (rounds_to_grid _ _ _ _ R Ev) as (g & Eg & Hg & _).
    assert (Hs0 : (0 <= SF2Q s)%Q) by (rewrite Eg; apply F2Q_nonneg, Hg; lia).
    assert (Hy : (F2Q (Zpos m) (e + 31) <= 16777215)%Q).
    { change 16777215%Q with (inject_Z 16777215). rewrite <- F2Q_Z.
      rewrite (F2Q_align 16777215 (e + 31) 0) by lia. apply F2Q_le.
      pose proof (pow2_pos (0 - (e + 31)) ltac:(lia)).
      change (2 ^ 24) with 16777216 in Bm. nia. }
    assert (Hy0 : (0 <= F2Q (Zpos m) (e + 31))%Q) by (apply F2Q_nonneg; lia).
    pose proof (Qfloor_bounds (SF2Q s)) as Hfl.
    assert (Hn : 0 <= Qfloor (SF2Q s) <= 16777216).
    { pose proof (Qfloor_nonneg_lt (SF2Q s) 16777217 Hs0) as Hq.
      change (inject_Z 16777217) with 16777217%Q in Hq.
      assert (SF2Q s < 16777217)%Q by lra. specialize (Hq H). lia. }
    rewrite fptosi_defined, Qtrunc_nonneg; try assumption.
    2:{ rewrite Qtrunc_nonneg by assumption. unfold int_min, int_max.
        change (2 ^ (32 - 1)) with 2147483648. lia. }
    split; [change (2 ^ 31) with 2147483648; lia|]. split; [lra|].
    apply b32_of_Z_exact. change (2 ^ 24) with 16777216. lia.
  - (* from 2 ^ 24 on: the number is an integer and the bias is rounded off *)
    assert (Hdig : Zdigits2 (Zpos m) = 24) by lia.
    pose proof (Zdigits2_bounds (Zpos m) ltac:(lia)) as Hm. rewrite Hdig in Hm.
    set (Y := Zpos m * 2 ^ (e + 31)).
    assert (EY : (F2Q (Zpos m) (e + 31) == inject_Z Y)%Q).
    { rewrite <- F2Q_Z, (F2Q_align (Zpos m) 0 (e + 31)), Z.sub_0_r by lia.
      reflexivity. }
    assert (Ev : (F2Q (Zpos m) (e + 31) + (1 # 2) ==
                  F2Q (Zpos m * 2 ^ (e + 32) + 1) (-1))%Q).
    { rewrite <- F2Q_add, <- F2Q_half.
      rewrite (F2Q_align (Zpos m) (-1) (e + 31)) by lia.
      replace (e + 31 - -1) with (e + 32) by lia. reflexivity. }
    pose proof (R _ _ Ev) as Es.
    assert (Hu : ulp_exp (Zpos m * 2 ^ (e + 32) + 1) (-1) = e + 31).
    { rewrite ulp_exp_eq, Zdigits2_succ_shift, Hdig by lia. lia. }
    pose proof (pow2_pos (e + 32) ltac:(lia)) as Hp.
    rewrite rnd_int_pos, Hu in Es by nia.
    replace (e + 31 <=? -1) with false in Es by (symmetry; apply Z.leb_gt; lia).
    replace (e + 31 - -1) with (e + 32) in Es by lia.
    rewrite rnd_shift_succ, EY in Es by lia.
    assert (HY : 0 <= Y < 2147483648).
    { split; [unfold Y; pose proof (pow2_pos (e + 31) ltac:(lia)); nia|].
      rewrite Zlt_Qlt. rewrite <- EY, <- Ey'. 
      change (inject_Z 2147483648) with 2147483648%Q. lra. }
    rewrite fptosi_defined; try assumption; rewrite Es, Qtrunc_Z.
    2:{ unfold int_min, int_max. change (2 ^ (32 - 1)) with 2147483648. lia. }
    split; [change (2 ^ 31) with 2147483648; lia|]. split; [lra|].
    destruct (b32_of_Z_props Y) as (_ & _ & RY).
    { assert (2 ^ 31 < 2 ^ 127) by (apply Z.pow_lt_mono_r; lia).
      change (2 ^ 31) with 2147483648 in *. lia. }
    apply (rounds_to_exact _ _ (Zpos m) (e + 31) RY); try lia.
    symmetry. exact EY.
Qed.

(** When the sum [m * 2 ^ E + 1/2] needs 25 bits, the rounding to 24 bits
    does not change its integral part. *)
Lemma tie_keeps_floor (m j : Z) :
  0 <= j <= 23 -> 2 ^ 23 <= m < 2 ^ 24 -> 2 ^ 24 <= m + 2 ^ j ->
  rnd_shift (m + 2 ^ j) 1 / 2 ^ j = (m + 2 ^ j) / 2 ^ (j + 1).
Proof.
  intros Hj Hm Hc.
  pose proof (pow2_pos j ltac:(lia)) as HP.
  assert (ET : 2 ^ j * 2 ^ (23 - j) = 2 ^ 23)
    by (rewrite <- pow2_split by lia; f_equal; lia).
  pose proof (pow2_pos (23 - j) ltac:(lia)) as HT.
  rewrite (Z.add_comm j 1), pow2_split by lia. change (2 ^ 1) with 2.
  rewrite <- Z.div_div by lia.
  set (P := 2 ^ j) in *. set (T := 2 ^ (23 - j)) in *.
  change (2 ^ 23) with 8388608 in *. change (2 ^ 24) with 16777216 in *.
  unfold rnd_shift. change (2 ^ 1) with 2. change (2 ^ (1 - 1)) with 1.
  pose proof (Z.div_mod (m + P) 2 ltac:(lia)) as Hdm.
  pose proof (Z.mod_pos_bound (m + P) 2 ltac:(lia)) as Hr.
  set (q := (m + P) / 2) in *. set (r := (m + P) mod 2) in *.
  destruct (Z.ltb_spec r 1); [reflexivity|].
  destruct (Z.ltb_spec 1 r); [lia|].
  destruct (Z.even q); [reflexivity|].
  (* a tie rounded up: [q + 1] is not a multiple of [P] *)
  pose proof (Z.div_mod q P ltac:(lia)) as Hq.
  pose proof (Z.mod_pos_bound q P HP) as Hb.
  set (a := q / P) in *. set (b := q mod P) in *.
  assert (Hne : b + 1 < P).
  { destruct (Z_lt_ge_dec (b + 1) P) as [|Hge]; [assumption|exfalso].
    assert (Eb : b = P - 1) by lia.
    assert (Em : m = (2 * a + 1) * P - 1) by nia.
    assert (a + 1 <= T) by nia.
    assert (T < a + 1) by nia.
    lia. }
  symmetry. apply (Z.div_unique _ _ a (b + 1)); [lia|]. lia.
Qed.

Lemma F2Q_1_15 : (F2Q 1 15 == 32768)%Q.
Proof. vm_compute. reflexivity. Qed.

Lemma Qtrunc_small (q : Q) : (0 <= q)%Q -> (q < 1)%Q -> Qtrunc q = 0.
Proof.
  intros H0 H1. rewrite Qtrunc_nonneg by assumption.
  pose proof (Qfloor_nonneg_lt q 1 H0 H1). lia.
Qed.

Lemma Qtrunc_range (q : Q) (a b : Z) :
  (inject_Z a <= q)%Q -> (q <= inject_Z b)%Q -> a <= 0 -> 0 <= b ->
  a <= Qtrunc q <= b.
Proof.
  intros Ha Hb Ha0 Hb0. unfold Qtrunc.
  destruct (Qle_bool 0 q) eqn:E.
  - apply Qle_bool_iff in E. split.
    + transitivity 0; [assumption|]. change 0 with (Qfloor 0).
      apply Qfloor_resp_le. assumption.
    + rewrite <- (Qfloor_Z b). apply Qfloor_resp_le. assumption.
  - assert (Hneg : (q <= 0)%Q).
    { destruct (Qlt_le_dec 0 q) as [H|H]; [|assumption].
      apply Qlt_le_weak, Qle_bool_iff in H. congruence. }
    split.
    + rewrite <- (Qceiling_Z a). apply Qceiling_resp_le. assumption.
    + transitivity 0; [|assumption]. change 0 with (Qceiling 0).
      apply Qceiling_resp_le. assumption.
Qed.

Lemma Qtrunc_lt (q : Q) (b : Z) : (q < inject_Z b)%Q -> 0 < b -> Qtrunc q < b.
Proof.
  intros Hb H0. unfold Qtrunc.
  destruct (Qle_bool 0 q) eqn:E.
  - rewrite Zlt_Qlt. eapply Qle_lt_trans; [apply Qfloor_le|assumption].
  - assert (Hneg : (q <= 0)%Q).
    { destruct (Qlt_le_dec 0 q) as [H|H]; [|assumption].
      apply Qlt_le_weak, Qle_bool_iff in H. congruence. }
    assert (Qceiling q <= 0); [|lia].
    change 0 with (Qceiling 0). apply Qceiling_resp_le. assumption.
Qed.

(** Except at [q15_tie], the rounding of the sum does not change its
    integral part. *)
Lemma q15_sum_trunc (sx : bool) (m : positive) (e : Z) (r : Q) :
  is_b32 (S754_finite sx m e) = true ->
  (-1 <= SF2Q (S754_finite sx m e) < 1)%Q ->
  S754_finite sx m e <> q15_tie ->
  rounds_to (F2Q (cond_Zopp sx (Zpos m)) (e + 15) + (1 # 2)) r ->
  Qtrunc r = Qtrunc (F2Q (cond_Zopp sx (Zpos m)) (e + 15) + (1 # 2)).
Proof.
  intros Vx [Hlo Hhi] Hne R.
  pose proof (is_b32_bounds _ _ _ Vx) as (Bm & Be & Cm).
  cbn [SF2Q] in Hlo, Hhi.
  change (2 ^ 24) with 16777216 in Bm.
  set (E := e + 15) in *.
  destruct (Z_le_gt_dec E (-25)) as [Hsmall|Hbig].
  - (* |y| < 1/2: the sum lies in (0, 1) and stays there *)
    set (P := 2 ^ (-1 - E)).
    assert (HP : 16777216 <= P).
    { change 16777216 with (2 ^ 24). apply Z.pow_le_mono_r; lia. }
    assert (Ehalf : (F2Q P E == 1 # 2)%Q).
    { rewrite <- F2Q_half. unfold P. rewrite <- (Z.mul_1_l (2 ^ _)).
      symmetry. apply F2Q_align. lia. }
    assert (EP2 : 2 ^ (- E) = 2 * P).
    { unfold P. rewrite <- Z.pow_succ_r by lia. f_equal. lia. }
    assert (Ev : (F2Q (cond_Zopp sx (Zpos m)) E + (1 # 2) ==
                  F2Q (cond_Zopp sx (Zpos m) + P) E)%Q).
    { rewrite <- F2Q_add, Ehalf. reflexivity. }
    assert (Hd : Z.abs (cond_Zopp sx (Zpos m) + P) < 2 ^ (- E)).
    { rewrite EP2. destruct sx; cbn [cond_Zopp]; lia. }
    pose proof (rounds_to_error _ _ _ _ (- E) R Ev ltac:(lia) Hd) as Herr.
    replace (Z.max (- E + E - 24) (-149) - 1) with (-25) in Herr by lia.
    assert (E25 : (F2Q 1 (-25) == 1 # 33554432)%Q) by (vm_compute; reflexivity).
    rewrite E25 in Herr. apply Qabs_le_iff in Herr.
    destruct (rounds_to_grid _ _ _ _ R Ev) as (g & Eg & Hg & _).
    assert (Hr0 : (0 <= r)%Q).
    { rewrite Eg. apply F2Q_nonneg, Hg. destruct sx; cbn [cond_Zopp]; lia. }
    assert (Hy : (F2Q (cond_Zopp sx (Zpos m)) E <= 8388607 # 16777216)%Q).
    { assert (E24 : (8388607 # 16777216 == F2Q 8388607 (-24))%Q)
        by (vm_compute; reflexivity).
      rewrite E24, (F2Q_align 8388607 E (-24)) by lia. apply F2Q_le.
      destruct sx; cbn [cond_Zopp].
      - pose proof (pow2_pos (-24 - E) ltac:(lia)). lia.
      - destruct (Z.eq_dec E (-25)) as [E25'|NE25].
        + replace (-24 - E) with 1 by lia. change (2 ^ 1) with 2.
          assert (Zpos m <> 16777215); [|lia].
          intros Em. apply Hne. unfold q15_tie. f_equal; [|lia].
          injection Em as ->. reflexivity.
        + assert (4 <= 2 ^ (-24 - E)).
          { change 4 with (2 ^ 2). apply Z.pow_le_mono_r; lia. }
          lia. }
    assert (Hy0 : (- (1 # 2) < F2Q (cond_Zopp sx (Zpos m)) E)%Q).
    { rewrite <- Ehalf, F2Q_opp. apply F2Q_lt.
      destruct sx; cbn [cond_Zopp]; lia. }
    rewrite !Qtrunc_small; try lra. reflexivity.
  - (* |y| >= 1/2 *)
    assert (Hdig : Zdigits2 (Zpos m) = 24) by lia.
    pose proof (Zdigits2_bounds (Zpos m) ltac:(lia)) as Hm. rewrite Hdig in Hm.
    change (2 ^ (24 - 1)) with 8388608 in Hm. change (2 ^ 24) with 16777216 in Hm.
    set (j := -1 - E).
    assert (HE : E <= -8).
    { (* |x| <= 1 *)
      destruct (Z_le_gt_dec E (-8)) as [|Hgt]; [assumption|exfalso].
      assert (Habs : (F2Q (Zpos m) e <= 1)%Q).
      { destruct sx; cbn [cond_Zopp] in *.
        - change (Zneg m) with (- Zpos m) in Hlo. rewrite <- F2Q_opp in Hlo. lra.
        - lra. }
      change 1%Q with (inject_Z 1) in Habs.
      rewrite <- F2Q_Z, (F2Q_align 1 (-23) 0) in Habs by lia.
      rewrite (F2Q_align (Zpos m) (-23) e) in Habs by lia.
      apply F2Q_le in Habs.
      pose proof (pow2_pos (e - -23) ltac:(lia)).
      change (1 * 2 ^ (0 - -23)) with 8388608 in Habs.
      assert (2 <= 2 ^ (e - -23)).
      { change 2 with (2 ^ 1) at 1. apply Z.pow_le_mono_r; lia. }
      nia. }
    set (P := 2 ^ j).
    assert (HP : 128 <= P <= 8388608).
    { unfold P, j. split.
      - change 128 with (2 ^ 7). apply Z.pow_le_mono_r; lia.
      - change 8388608 with (2 ^ 23). apply Z.pow_le_mono_r; lia. }
    assert (Ehalf : (F2Q P E == 1 # 2)%Q).
    { rewrite <- F2Q_half. unfold P, j. rewrite <- (Z.mul_1_l (2 ^ _)).
      symmetry. apply F2Q_align. lia. }
    assert (Ev : (F2Q (cond_Zopp sx (Zpos m)) E + (1 # 2) ==
                  F2Q (cond_Zopp sx (Zpos m) + P) E)%Q).
    { rewrite <- F2Q_add, Ehalf. reflexivity. }
    destruct sx; cbn [cond_Zopp] in *.
    + (* negative: the sum has fewer bits and is exact *)
      rewrite (rounds_to_exact _ _ _ _ R Ev); [reflexivity| |lia].
      change (2 ^ 24) with 16777216. lia.
    + destruct (Z_lt_ge_dec (Zpos m + P) 16777216) as [Hfit|Hcarry].
      * rewrite (rounds_to_exact _ _ _ _ R Ev); [reflexivity| |lia].
        change (2 ^ 24) with 16777216. lia.
      * (* 25 bits: rounded to 24 *)
        assert (HX : E <= -9).
        { destruct (Z.eq_dec E (-8)) as [E8|]; [exfalso|lia].
          (* then x >= 1 *)
          assert (Habs : (F2Q (Zpos m) e < 1)%Q) by lra.
          change 1%Q with (inject_Z 1) in Habs.
          rewrite <- F2Q_Z, (F2Q_align 1 e 0) in Habs by lia.
          apply F2Q_lt in Habs. replace (0 - e) with 23 in Habs by lia.
          change (1 * 2 ^ 23) with 8388608 in Habs. lia. }
        pose proof (R _ _ Ev) as Es.
        assert (Hd25 : Zdigits2 (Zpos m + P) = 25).
        { apply Zdigits2_unique; [|lia]. change (2 ^ (25 - 1)) with 16777216.
          change (2 ^ 25) with 33554432. lia. }
        assert (Hu : ulp_exp (Zpos m + P) E = E + 1).
        { rewrite ulp_exp_eq, Hd25. lia. }
        rewrite rnd_int_pos, Hu in Es by lia.
        replace (E + 1 <=? E) with false in Es by (symmetry; apply Z.leb_gt; lia).
        replace (E + 1 - E) with 1 in Es by lia.
        rewrite Es, Ev.
        pose proof (rnd_shift_range (Zpos m + P) 1 ltac:(lia) ltac:(lia)) as Hrs.
        assert (0 <= (Zpos m + P) / 2 ^ 1) by (apply Z.div_pos; lia).
        rewrite !Qtrunc_nonneg by (apply F2Q_nonneg; lia).
        rewrite !Qfloor_F2Q.
        replace (0 <=? E + 1) with false by (symmetry; apply Z.leb_gt; lia).
        replace (0 <=? E) with false by (symmetry; apply Z.leb_gt; lia).
        replace (- (E + 1)) with j by (unfold j; lia).
        replace (- E) with (j + 1) by (unfold j; lia).
        apply tie_keeps_floor; fold P;
          change (2 ^ 23) with 8388608; change (2 ^ 24) with 16777216;
          [unfold j|..]; lia.
Qed.

(** ** Signs, also beyond the range of [int] *)

Lemma round_spec_fst_nonneg (m e : Z) : 0 < m -> 0 <= fst (round_spec m e).
Proof.
  intros Hm. unfold round_spec.
  destruct (_ <=? _) eqn:E; cbn [fst]; [lia|].
  apply Z.leb_gt in E.
  pose proof (rnd_shift_range m (fexp prec emax (Zdigits2 m + e) - e) ltac:(lia) ltac:(lia)).
  assert (0 <= m / 2 ^ (fexp prec emax (Zdigits2 m + e) - e))
    by (apply Z.div_pos; [lia|apply pow2_pos; lia]).
  destruct (_ =? _); cbn [fst]; [cbn; lia|lia].
Qed.

Lemma SF_of_round_nonneg (r : Z * Z) :
  0 <= fst r -> nonneg_float (SF_of_round false r) = true.
Proof.
  intros H. unfold SF_of_round. destruct (fst r); try lia; [reflexivity|].
  destruct (_ <=? _); reflexivity.
Qed.

Lemma binary_normalize_nonneg (m e : Z) :
  0 <= m -> nonneg_float (binary_normalize prec emax m e false) = true.
Proof.
  intros H. destruct m as [|p|p]; try lia; [reflexivity|].
  cbn [binary_normalize]. unfold binary_round.
  destruct (shl_align p e _) as [mz ez].
  rewrite binary_round_aux_spec.
  apply SF_of_round_nonneg, round_spec_fst_nonneg. lia.
Qed.

Lemma b32_mul_nonneg (x : spec_float) (m : positive) (e : Z) :
  nonneg_float x = true ->
  nonneg_float (b32_mul x (S754_finite false m e)) = true.
Proof.
  destruct x as [s|s| |s mx ex]; try discriminate; intros H.
  - reflexivity.
  - destruct s; [discriminate|reflexivity].
  - destruct s; [discriminate|].
    unfold b32_mul, SFmul. cbn [xorb]. rewrite binary_round_aux_spec.
    apply SF_of_round_nonneg, round_spec_fst_nonneg. lia.
Qed.

Lemma b32_sub_nonneg (mx my : positive) (ex ey : Z) :
  (F2Q (Zpos my) ey <= F2Q (Zpos mx) ex)%Q ->
  nonneg_float (b32_sub (S754_finite false mx ex) (S754_finite false my ey)) = true.
Proof.
  intros Hle. unfold b32_sub, SFsub. cbn [cond_Zopp].
  apply binary_normalize_nonneg.
  pose proof (shl_align_value false mx ex (Z.min ex ey) ltac:(lia)) as E1.
  pose proof (shl_align_value false my ey (Z.min ex ey) ltac:(lia)) as E2.
  cbn [cond_Zopp] in E1, E2. rewrite <- E1, <- E2 in Hle.
  apply F2Q_le in Hle. lia.
Qed.

Lemma SFtrunc_nonneg (x : spec_float) (n : Z) :
  nonneg_float x = true -> SFtrunc x = Some n -> 0 <= n.
Proof.
  intros Hx Ht.
  assert (Hf : is_finite x = true /\ (0 <= SF2Q x)%Q).
  { destruct x as [s|s| |s m e]; try discriminate.
    - split; [reflexivity|]. cbn [SF2Q]. apply Qle_refl.
    - destruct s; [discriminate|]. split; [reflexivity|].
      cbn [SF2Q cond_Zopp]. apply F2Q_nonneg. lia. }
  destruct Hf as [Hf H0].
  rewrite SFtrunc_spec in Ht by assumption. injection Ht as <-.
  rewrite Qtrunc_nonneg by assumption.
  change 0 with (Qfloor 0). apply Qfloor_resp_le. assumption.
Qed.

Lemma int_max_32 : int_max 32 = 2147483647.
Proof. reflexivity. Qed.

Lemma int_min_32 : int_min 32 = -2147483648.
Proof. reflexivity. Qed.

(** With the saturating conversion a number that is not negative converts
    to an integer that is not negative, and to [INT_MAX] beyond the
    range. *)
Lemma fptosi_arm_nonneg (x : spec_float) :
  nonneg_float x = true ->
  0 <= fptosi arm_conv 32 x /\
  (SFtrunc x = None \/ (exists n, SFtrunc x = Some n /\ 2147483647 < n) ->
   fptosi arm_conv 32 x = 2147483647).
Proof.
  intros Hx. unfold fptosi.
  destruct (SFtrunc x) as [n|] eqn:Et.
  - pose proof (SFtrunc_nonneg x n Hx Et) as Hn.
    destruct (in_int 32 n) eqn:Ei.
    + split; [assumption|]. apply in_int_iff in Ei. rewrite int_max_32 in Ei.
      intros [|(n' & [= <-] & Hgt)]; [discriminate|lia].
    + assert (Hbig : 2147483647 < n).
      { destruct (Z_lt_ge_dec 2147483647 n); [assumption|exfalso].
        assert (in_int 32 n = true); [|congruence].
        apply in_int_iff. rewrite int_max_32, int_min_32. lia. }
      assert (Ea : arm_conv x = 2147483647).
      { unfold arm_conv. rewrite Et, int_max_32, int_min_32.
        destruct x as [s|s| |s m e]; try discriminate; lia. }
      rewrite Ea. change (sext 32 2147483647) with 2147483647.
      split; [lia|reflexivity].
  - destruct x as [s|s| |s m e]; try discriminate.
    destruct s; [discriminate|].
    change (sext 32 (arm_conv (S754_infinity false))) with 2147483647.
    split; [lia|reflexivity].
Qed.

(** On the ARM target a conversion to [int16_t] is a conversion to [int]
    followed by a narrowing. *)
Lemma fptosi_arm_16 (x : spec_float) :
  is_finite x = true -> -2147483648 <= Qtrunc (SF2Q x) <= 2147483647 ->
  fptosi arm_conv 16 x = sext 16 (Qtrunc (SF2Q x)).
Proof.
  intros Hf Hr. unfold fptosi. rewrite SFtrunc_spec by assumption.
  destruct (in_int 16 (Qtrunc (SF2Q x))) eqn:Ei.
  - apply in_int_iff in Ei. symmetry. apply sext_id; [lia|assumption].
  - f_equal. unfold arm_conv. rewrite SFtrunc_spec by assumption.
    rewrite int_max_32, int_min_32.
    destruct x as [s|s| |s m e]; try discriminate; lia.
Qed.

Lemma Qfloor_ge (q : Q) (b : Z) : (inject_Z b <= q)%Q -> b <= Qfloor q.
Proof. intros H. rewrite <- (Qfloor_Z b). apply Qfloor_resp_le. assumption. Qed.

(** On the ARM target the two numbers that [float_to_string] prints are
    never negative, whatever the magnitude. *)
Lemma float_text_arm_digits (x : spec_float) :
  is_b32 x = true -> nonneg_float x = true ->
  0 <= fptosi arm_conv 32 x /\
  0 <= fptosi arm_conv 32
         (b32_mul (b32_sub x (b32_of_Z (fptosi arm_conv 32 x))) (b32_of_Z 1000)).
Proof.
  intros Vx Nx.
  pose proof (fptosi_arm_nonneg x Nx) as [Hip Hsat].
  split; [assumption|].
  change (b32_of_Z 1000) with (S754_finite false 16384000 (-14)).
  apply fptosi_arm_nonneg, b32_mul_nonneg.
  destruct x as [s|s| |s m e]; try discriminate.
  - (* zero *) destruct s; reflexivity.
  - (* infinity *) destruct s; [discriminate|].
    rewrite Hsat by (left; reflexivity). reflexivity.
  - destruct s; [discriminate|].
    destruct (Qlt_le_dec (F2Q (Zpos m) e) 2147483648) as [Hin|Hout].
    + (* within the range of [int] *)
      assert (H0 : (0 <= SF2Q (S754_finite false m e))%Q)
        by (cbn [SF2Q cond_Zopp]; apply F2Q_nonneg; lia).
      destruct (split_number arm_conv (S754_finite false m e) eq_refl Vx H0 Hin)
        as (E1 & R1 & _).
      cbv zeta in *.
      set (ip := fptosi arm_conv 32 (S754_finite false m e)) in *.
      destruct (Z.eq_dec ip 0) as [->|NE].
      * reflexivity.
      * assert (Hip' : Z.abs ip < 2 ^ 100).
        { assert (2 ^ 31 < 2 ^ 100) by (apply Z.pow_lt_mono_r; lia).
          change (2 ^ 31) with 2147483648 in *. lia. }
        destruct (b32_of_Z_normal ip NE Hip') as (si & mi & ei & Ei & Di & Bi).
        destruct (b32_of_Z_props ip ltac:(assert (2 ^ 100 < 2 ^ 127)
                    by (apply Z.pow_lt_mono_r; lia); lia)) as (_ & _ & Ri).
        pose proof (rounds_to_grid _ _ ip 0 Ri ltac:(rewrite F2Q_Z; reflexivity))
          as (g & Eg & Hg & _).
        rewrite Ei in *. destruct si.
        { exfalso. cbn [SF2Q cond_Zopp] in Eg.
          assert (Hneg : (F2Q (Zneg mi) ei < 0)%Q)
            by (rewrite <- (F2Q_0 ei); apply F2Q_lt; lia).
          rewrite Eg in Hneg. rewrite <- (F2Q_0 (ulp_exp ip 0)) in Hneg.
          apply F2Q_lt in Hneg. lia. }
        apply b32_sub_nonneg.
        (* the integral part is at most the number *)
        destruct (frac_repr m e) as (_ & (mi' & ei' & Ei' & Bmi & Bei) & _).
        { pose proof (is_b32_bounds _ _ _ Vx). lia. }
        { pose proof (is_b32_bounds _ _ _ Vx). lia. }
        cbn [SF2Q cond_Zopp] in E1. rewrite <- E1 in Ei'.
        pose proof (rounds_to_exact _ _ _ _ Ri Ei' Bmi Bei) as X.
        cbn [SF2Q cond_Zopp] in X. rewrite X, E1. apply Qfloor_le.
    + (* beyond: the integral part saturates at [INT_MAX], which converts
         to [2 ^ 31] *)
      rewrite Hsat.
      * change (b32_of_Z 2147483647) with (S754_finite false 8388608 8).
        apply b32_sub_nonneg.
        assert (E31 : (F2Q 8388608 8 == 2147483648)%Q) by (vm_compute; reflexivity).
        rewrite E31. assumption.
      * right. exists (Qfloor (F2Q (Zpos m) e)). split.
        -- rewrite (SFtrunc_spec (S754_finite false m e) eq_refl).
           cbn [SF2Q cond_Zopp]. rewrite Qtrunc_nonneg by (apply F2Q_nonneg; lia).
           reflexivity.
        -- pose proof (Qfloor_ge _ 2147483648 Hout). lia.
Qed.

Lemma is_num_char_digit (c : ascii) : is_digit c = true -> is_num_char c = true.
Proof. intros H. unfold is_num_char. rewrite H. reflexivity. Qed.

Lemma fmt_d_num_chars (n : Z) : all_chars is_num_char (fmt_d n) = true.
Proof.
  unfold fmt_d. destruct (Z.ltb_spec n 0).
  - cbn [all_chars]. change (is_num_char "-") with true. cbn [andb].
    apply (all_chars_impl is_digit); [apply is_num_char_digit|].
    apply print_uint_all_digits. lia.
  - apply (all_chars_impl is_digit); [apply is_num_char_digit|].
    apply print_uint_all_digits. lia.
Qed.

Lemma num_chars_single_line (s : string) :
  all_chars is_num_char s = true -> single_line s.
Proof.
  intros H. split; apply (count_char_absent _ is_num_char); try assumption; reflexivity.
Qed.

Lemma digits_no_minus (s : string) :
  all_chars is_digit s = true -> count_char "-" s = 0%nat.
Proof. apply count_char_absent. reflexivity. Qed.

(** The text of a number that is not negative, when both printed integers
    are natural numbers. *)
Lemma unsigned_text_chars (ip dp : Z) :
  0 <= ip -> 0 <= dp ->
  count_char "-" (fmt_d ip ++ String "." (fmt_03d dp)) = 0%nat /\
  all_chars is_num_char (fmt_d ip ++ String "." (fmt_03d dp)) = true.
Proof.
  intros Hip Hdp. rewrite fmt_d_nonneg by assumption.
  pose proof (print_uint_all_digits ip Hip) as H1.
  pose proof (fmt_03d_all_digits dp Hdp) as H2.
  split.
  - rewrite count_char_app. cbn [count_char].
    rewrite (digits_no_minus _ H1), (digits_no_minus _ H2). reflexivity.
  - rewrite all_chars_app. cbn [all_chars].
    rewrite (all_chars_impl is_digit is_num_char _ is_num_char_digit H1).
    rewrite (all_chars_impl is_digit is_num_char _ is_num_char_digit H2).
    reflexivity.
Qed.

Lemma inject_Z_le (a b : Z) : a <= b -> (inject_Z a <= inject_Z b)%Q.
Proof. intros H. rewrite <- Zle_Qle. assumption. Qed.

Lemma sign_text_num_chars (x : spec_float) : all_chars is_num_char (sign_text x) = true.
Proof. unfold sign_text. destruct (b32_ltb _ _); reflexivity. Qed.

Lemma float_text_num_chars (conv : spec_float -> Z) (x : spec_float) :
  is_finite x = true -> is_b32 x = true ->
  (Qabs (SF2Q x) < 2147483648)%Q ->
  all_chars is_num_char (float_text conv x) = true.
Proof.
  intros Hf Hv Hb.
  destruct (float_text_inrange conv x Hf Hv Hb) as (ip & dp & r & E & _ & Hip & _ & _ & Hdp).
  rewrite E, all_chars_app, sign_text_num_chars. cbn [andb].
  rewrite <- (fmt_d_nonneg ip) by lia.
  apply unsigned_text_chars; lia.
Qed.

(** A negative number and its opposite are formatted alike, up to the
    marker. *)
Lemma float_text_negative (conv : spec_float -> Z) (x : spec_float) :
  b32_ltb x (b32_of_Z 0) = true ->
  float_text conv x = String "-" (float_text conv (b32_opp x)) /\
  sign_text (b32_opp x) = EmptyString /\ magnitude (b32_opp x) = b32_opp x /\
  nonneg_float (b32_opp x) = true.
Proof.
  intros Hlt.
  assert (Hopp : b32_ltb (b32_opp x) (b32_of_Z 0) = false /\
                 nonneg_float (b32_opp x) = true).
  { destruct x as [s|s| |s m e]; try discriminate; destruct s; try discriminate;
      split; reflexivity. }
  destruct Hopp as [Hopp Hnn].
  unfold float_text, sign_text, magnitude. rewrite Hlt, Hopp. repeat split.
  assumption.
Qed.

(** ** The formatter and the codec on the inputs of the example *)

Example format_0_25 (conv : spec_float -> Z) (buf : string) :
  float_to_string conv buf STRING_BUF_SIZE f_0_25 = "0.250".
Proof. vm_compute. reflexivity. Qed.

Example format_minus_0_5 (conv : spec_float -> Z) (buf : string) :
  float_to_string conv buf STRING_BUF_SIZE (b32_opp f_0_5) = "-0.500".
Proof. vm_compute. reflexivity. Qed.

Example format_1 (conv : spec_float -> Z) (buf : string) :
  float_to_string conv buf STRING_BUF_SIZE (b32_of_Z 1) = "1.000".
Proof. vm_compute. reflexivity. Qed.

Example format_truncated (conv : spec_float -> Z) (buf : string) :
  float_to_string conv buf 3 f_0_5 = "0." /\
  float_to_string conv buf 0 f_0_5 = buf.
Proof. split; vm_compute; reflexivity. Qed.

Example float_to_q31_input (conv : spec_float -> Z) :
  float_to_q31 conv INPUT_NUM = 536870912.
Proof. vm_compute. reflexivity. Qed.

Example q31_to_float_half : q31_to_float 1073741824 = f_0_5.
Proof. vm_compute. reflexivity. Qed.

Example q15_to_float_half : q15_to_float 16384 = f_0_5.
Proof. vm_compute. reflexivity. Qed.

Example float_to_q15_wraps : float_to_q15 arm_conv (S754_finite false 12582912 (-23)) = -16384.
Proof. vm_compute. reflexivity. Qed.

(* ================================================================= *)
(** * Part VII: the properties of the specification *)
(* ================================================================= *)

(** ** C1: the shape of the formatted text *)

(** C1, as stated, does not hold: [1e10] is a [float], and on the ARM target
    [float_to_string] prints it as [2147483647.2147483647], with ten digits
    after the decimal point. *)
Lemma C1_counterexample :
  ~ decimal_shape
      (float_to_string arm_conv EmptyString STRING_BUF_SIZE (b32_of_Z 10000000000)).
Proof.
  intros [_ (frac & H1 & H2 & _)].
  vm_compute in H1. injection H1 as <-. discriminate H2.
Qed.

(** C1 (amended): for every finite input of magnitude below [2 ^ 31], the
    range in which the conversions to [int] are defined, and a [buf_size]
    of 16 to 255 (the parameter is a [uint8_t]), the string produced by
    [float_to_string] contains exactly one decimal point and exactly 3
    digits after it. The fractional part never prints as 1000. *)
Theorem C1_decimal_shape (conv : spec_float -> Z) (buf : string) (size : Z)
                         (x : spec_float) :
  is_b32 x = true -> is_finite x = true ->
  (Qabs (SF2Q x) < 2147483648)%Q -> 16 <= size <= 255 ->
  decimal_shape (float_to_string conv buf size x).
Proof.
  intros Hv Hf Hb Hs.
  rewrite float_to_string_complete by assumption.
  apply float_text_shape; assumption.
Qed.

Lemma C1_decimal_shape_witness :
  is_b32 f_0_25 = true /\ is_finite f_0_25 = true /\
  (Qabs (SF2Q f_0_25) < 2147483648)%Q /\ 16 <= STRING_BUF_SIZE <= 255 /\
  decimal_shape (float_to_string arm_conv EmptyString STRING_BUF_SIZE f_0_25).
Proof.
  assert (H1 : is_b32 f_0_25 = true) by reflexivity.
  assert (H2 : is_finite f_0_25 = true) by reflexivity.
  assert (H3 : (Qabs (SF2Q f_0_25) < 2147483648)%Q) by (vm_compute; reflexivity).
  assert (H4 : 16 <= STRING_BUF_SIZE <= 255) by (unfold STRING_BUF_SIZE; lia).
  split; [assumption|]. split; [assumption|]. split; [assumption|].
  split; [assumption|].
  exact (C1_decimal_shape arm_conv EmptyString STRING_BUF_SIZE f_0_25 H1 H2 H3 H4).
Defined.

(** ** C2: the Q31 round trip *)

(** C2: for every binary32 [x] in [0, 1), [q31_to_float (float_to_q31 x)]
    differs from [x] by at most [2 ^ -31]. *)
Theorem C2_q31_round_trip (conv : spec_float -> Z) (x : spec_float) :
  is_b32 x = true -> is_finite x = true ->
  (0 <= SF2Q x)%Q -> (SF2Q x < 1)%Q ->
  (Qabs (SF2Q (q31_to_float (float_to_q31 conv x)) - SF2Q x) <= 1 # 2147483648)%Q.
Proof.
  intros Hv Hf H0 H1.
  destruct (float_to_q31_near conv x Hv Hf H0 H1) as (Hn & Hnear & Hex).
  cbv zeta in *.
  destruct (q31_to_float_scaled (float_to_q31 conv x) ltac:(lia)) as (_ & _ & Es & _).
  rewrite Es, Hex, F2Q_1_m31. apply Qabs_le_iff. lra.
Qed.

Lemma C2_q31_round_trip_witness :
  let x := S754_finite false 8388609 (-31) in
  is_b32 x = true /\ (0 <= SF2Q x)%Q /\ (SF2Q x < 1)%Q /\
  (Qabs (SF2Q (q31_to_float (float_to_q31 arm_conv x)) - SF2Q x) <= 1 # 2147483648)%Q.
Proof.
  intros x.
  assert (H1 : is_b32 x = true) by reflexivity.
  assert (H2 : is_finite x = true) by reflexivity.
  assert (H3 : (0 <= SF2Q x)%Q) by (vm_compute; discriminate).
  assert (H4 : (SF2Q x < 1)%Q) by (vm_compute; reflexivity).
  split; [assumption|]. split; [assumption|]. split; [assumption|].
  exact (C2_q31_round_trip arm_conv x H1 H2 H3 H4).
Defined.

(** ** C3: numbers with three decimals *)

(** C3, as stated, does not hold. [0.251F], the [float] nearest to
    [0 + 251 / 1000], is [8422162 * 2 ^ -25], a little below 0.251: the
    product by 1000 is rounded to [251 - 2 ^ -16], the cast gives 250, and
    the text is "0.250", with no conversion out of range. Besides,
    [2 ^ 31] is [n + d / 1000] for [n = 2147483648] and [d = 0], and [%d]
    cannot print it; on the ARM target the text is [2147483647.000]. *)
Lemma C3_counterexample :
  (is_b32 (S754_finite false 8422162 (-25)) = true /\
   (Qabs (SF2Q (S754_finite false 8422162 (-25)) - (251 # 1000)) <= 1 # 67108864)%Q /\
   float_to_string arm_conv EmptyString STRING_BUF_SIZE
     (S754_finite false 8422162 (-25)) = "0.250" /\
   float_to_string x86_conv EmptyString STRING_BUF_SIZE
     (S754_finite false 8422162 (-25)) = "0.250" /\
   float_to_string arm_conv EmptyString STRING_BUF_SIZE
     (S754_finite false 8422162 (-25)) <>
   print_uint 0 ++ String "." (fmt_03d 251)) /\
  ((SF2Q (b32_of_Z 2147483648) == inject_Z 2147483648 + inject_Z 0 / 1000)%Q /\
   float_to_string arm_conv EmptyString STRING_BUF_SIZE (b32_of_Z 2147483648) <>
   print_uint 2147483648 ++ String "." (fmt_03d 0)).
Proof.
  split.
  - split; [reflexivity|]. split; [vm_compute; discriminate|].
    split; [vm_compute; reflexivity|]. split; [vm_compute; reflexivity|].
    vm_compute. discriminate.
  - split; [vm_compute; reflexivity|]. vm_compute. discriminate.
Qed.

(** C3 (amended): for every binary32 [x] that is exactly [n + d / 1000]
    with [0 <= n < 2 ^ 31] and [0 <= d <= 999], which a binary32 number is
    only when [d] is a multiple of 125, and a [buf_size] of 16 to 255,
    [float_to_string] yields exactly the numeral of [n], a decimal point
    and [d] padded with zeros to 3 digits. *)
Theorem C3_exact_decimal (conv : spec_float -> Z) (buf : string) (size : Z)
                         (x : spec_float) (n d : Z) :
  is_b32 x = true -> is_finite x = true ->
  0 <= n < 2147483648 -> 0 <= d <= 999 ->
  (SF2Q x == inject_Z n + inject_Z d / 1000)%Q -> 16 <= size <= 255 ->
  d mod 125 = 0 /\
  float_to_string conv buf size x = print_uint n ++ String "." (fmt_03d d).
Proof.
  intros Hv Hf Hn Hd Ex Hs.
  split.
  { destruct (SF2Q_repr x) as (mx & ex & Er). rewrite Er in Ex.
    exact (exact_thousandths mx ex n d Ex). }
  assert (Hd0 : (0 <= inject_Z d)%Q) by (apply (inject_Z_le 0 d); lia).
  assert (Hd1 : (inject_Z d <= 999)%Q) by (apply (inject_Z_le d 999); lia).
  assert (Hn0 : (0 <= inject_Z n)%Q) by (apply (inject_Z_le 0 n); lia).
  assert (Hn1 : (inject_Z n <= 2147483647)%Q)
    by (apply (inject_Z_le n 2147483647); lia).
  assert (Hfr : (inject_Z d / 1000 == inject_Z d * (1 # 1000))%Q) by reflexivity.
  assert (Hx0 : (0 <= SF2Q x)%Q) by (rewrite Ex, Hfr; lra).
  assert (Hb : (Qabs (SF2Q x) < 2147483648)%Q).
  { rewrite Qabs_pos by assumption. rewrite Ex, Hfr. lra. }
  rewrite float_to_string_complete by assumption.
  destruct (float_text_inrange conv x Hf Hv Hb) as (ip & dp & r & E & Eip & _ & R & Edp & _).
  rewrite Qabs_pos in Eip, R by assumption.
  assert (Hip : ip = n).
  { subst ip. apply Qfloor_unique; rewrite Ex, Hfr, ?inject_Z_plus.
    - lra.
    - change (inject_Z 1) with 1%Q. lra. }
  clear Eip. subst ip.
  assert (Ev : ((SF2Q x - inject_Z n) * 1000 == F2Q d 0)%Q).
  { rewrite F2Q_Z, Ex, Hfr. ring. }
  pose proof (rounds_to_exact _ _ d 0 R Ev
                ltac:(change (2 ^ 24) with 16777216; lia) ltac:(lia)) as Er.
  assert (Hdp : dp = d).
  { subst dp. rewrite Er, Ev, F2Q_Z. apply Qfloor_Z. }
  clear Edp. subst dp. rewrite E.
  assert (Es : sign_text x = EmptyString).
  { unfold sign_text. destruct x as [s|s| |s m e]; try discriminate.
    - destruct s; reflexivity.
    - destruct s; [|reflexivity]. exfalso.
      cbn [SF2Q cond_Zopp] in Hx0. apply F2Q_nonneg in Hx0. lia. }
  rewrite Es. reflexivity.
Qed.

Lemma C3_exact_decimal_witness :
  let x := S754_finite false 13631488 (-23) in
  (SF2Q x == inject_Z 1 + inject_Z 625 / 1000)%Q /\
  float_to_string arm_conv EmptyString STRING_BUF_SIZE x = "1.625".
Proof.
  intros x.
  assert (H1 : is_b32 x = true) by reflexivity.
  assert (H2 : is_finite x = true) by reflexivity.
  assert (H3 : 0 <= 1 < 2147483648) by lia.
  assert (H4 : 0 <= 625 <= 999) by lia.
  assert (H5 : (SF2Q x == inject_Z 1 + inject_Z 625 / 1000)%Q)
    by (vm_compute; reflexivity).
  assert (H6 : 16 <= STRING_BUF_SIZE <= 255) by (unfold STRING_BUF_SIZE; lia).
  split; [assumption|].
  exact (proj2 (C3_exact_decimal arm_conv EmptyString STRING_BUF_SIZE x 1 625
                  H1 H2 H3 H4 H5 H6)).
Defined.

(** ** C4: the sign of negative inputs *)

(** C4, as stated, does not hold for every negative input: beyond the
    range of [int] the casts are undefined, and what they deliver can be
    negative. With the conversion of a PC, [-1e10] is written
    [--2147483648.-2147483648]: both numerals carry a sign. *)
Lemma C4_counterexample :
  b32_ltb (b32_of_Z (-10000000000)) (b32_of_Z 0) = true /\
  float_to_string x86_conv EmptyString STRING_BUF_SIZE (b32_of_Z (-10000000000)) =
    "--2147483648.-2147483648" /\
  count_char "-" (float_text x86_conv (b32_opp (b32_of_Z (-10000000000)))) = 2%nat.
Proof.
  split; [reflexivity|]. split; vm_compute; reflexivity.
Qed.

(** C4 (amended): for every negative input [x] the text of
    [float_to_string] is "-" followed by the text of [- x]. For [x] of
    magnitude below [2 ^ 31], where the casts are defined, the text of the
    magnitude holds no "-", and with a [buf_size] of 16 to 255 the string
    in the buffer is "-" followed by the string of [- x]. With the
    saturating conversion of the ARM target the text of the magnitude
    holds no "-" for every negative input. *)
Theorem C4_negative_sign (conv : spec_float -> Z) (buf : string) (size : Z)
                         (x : spec_float) :
  is_b32 x = true -> b32_ltb x (b32_of_Z 0) = true ->
  float_text conv x = String "-" (float_text conv (b32_opp x)) /\
  (is_finite x = true -> (Qabs (SF2Q x) < 2147483648)%Q ->
   count_char "-" (float_text conv (b32_opp x)) = 0%nat /\
   (16 <= size <= 255 ->
    float_to_string conv buf size x =
    String "-" (float_to_string conv buf size (b32_opp x)))) /\
  count_char "-" (float_text arm_conv (b32_opp x)) = 0%nat.
Proof.
  intros Hv Hlt.
  destruct (float_text_negative conv x Hlt) as (E & Es & Em & Hnn).
  assert (Hvo : is_b32 (b32_opp x) = true)
    by (destruct x as [s|s| |s m e]; try discriminate; exact Hv).
  split; [exact E|]. split.
  - intros Hf Hb.
    assert (Hfo : is_finite (b32_opp x) = true)
      by (destruct x as [s|s| |s m e]; try discriminate; reflexivity).
    assert (Hbo : (Qabs (SF2Q (b32_opp x)) < 2147483648)%Q).
    { destruct x as [s|s| |s m e]; try discriminate.
      cbn [b32_opp SFopp SF2Q] in *. rewrite F2Q_abs in *.
      destruct s; exact Hb. }
    split.
    + destruct (float_text_inrange conv (b32_opp x) Hfo Hvo Hbo)
        as (ip & dp & r & Et & _ & Hip & _ & _ & Hdp).
      rewrite Et, Es. cbn [append]. rewrite <- (fmt_d_nonneg ip) by lia.
      apply unsigned_text_chars; lia.
    + intros Hs. rewrite !float_to_string_complete by assumption. exact E.
  - destruct (float_text_arm_digits (b32_opp x) Hvo Hnn) as [Hip Hdp].
    rewrite float_text_unfold, Es, Em. cbn [append].
    apply unsigned_text_chars; assumption.
Qed.

Lemma C4_negative_sign_witness :
  let x := S754_finite true 8589935 (-33) in
  is_b32 x = true /\ b32_ltb x (b32_of_Z 0) = true /\
  float_text arm_conv x = "-0.001" /\
  float_text arm_conv x = String "-" (float_text arm_conv (b32_opp x)) /\
  count_char "-" (float_text arm_conv (b32_opp x)) = 0%nat.
Proof.
  intros x.
  assert (H1 : is_b32 x = true) by reflexivity.
  assert (H2 : b32_ltb x (b32_of_Z 0) = true) by reflexivity.
  split; [assumption|]. split; [assumption|]. split; [reflexivity|].
  split.
  - exact (proj1 (C4_negative_sign arm_conv EmptyString STRING_BUF_SIZE x H1 H2)).
  - exact (proj2 (proj2 (C4_negative_sign arm_conv EmptyString STRING_BUF_SIZE x H1 H2))).
Defined.

(** ** C5: from [float] to Q15 *)

(** C5, as stated, does not hold: at [2 ^ -16 - 2 ^ -40], a number of the
    range, the sum [x * 32768 + 0.5] is [1 - 2 ^ -25], whose integral part
    is 0; single precision rounds the sum to 1, and [float_to_q15]
    returns 1. *)
Lemma C5_counterexample :
  is_b32 q15_tie = true /\
  (-1 <= SF2Q q15_tie < 1)%Q /\
  (SF2Q q15_tie * 32768 + (1 # 2) == 1 - (1 # 33554432))%Q /\
  sext 16 (Qtrunc (SF2Q q15_tie * 32768 + (1 # 2))) = 0 /\
  float_to_q15 arm_conv q15_tie = 1.
Proof.
  split; [reflexivity|].
  split; [split; vm_compute; [discriminate|reflexivity]|].
  split; [vm_compute; reflexivity|]. split; reflexivity.
Qed.

(** C5 (amended): for every binary32 [x] of [-1, 1) other than
    [2 ^ -16 - 2 ^ -40], [float_to_q15] returns the [int16_t] truncation of
    the exact [x * 32768 + 0.5]: the product is exact, and the rounding of
    the sum does not change its integral part. Up to [1 - 2 ^ -16] that
    integral part (truncated toward zero) is an [int16_t] and is returned
    whatever the implementation; from [1 - 2 ^ -16] on it is 32768, of which
    the ARM target returns the low 16 bits, -32768. *)
Theorem C5_float_to_q15 (conv : spec_float -> Z) (x : spec_float) :
  is_b32 x = true -> is_finite x = true ->
  (-1 <= SF2Q x < 1)%Q -> x <> q15_tie ->
  ((SF2Q x < 65535 # 65536)%Q ->
   float_to_q15 conv x = Qtrunc (SF2Q x * 32768 + (1 # 2))) /\
  float_to_q15 arm_conv x = sext 16 (Qtrunc (SF2Q x * 32768 + (1 # 2))).
Proof.
  intros Hv Hf Hr Hne. unfold float_to_q15.
  destruct (biased_product x (b32_of_Z 32768) 15 Hf Hv eq_refl eq_refl
              SF2Q_2p15 ltac:(lia)) as (Fs & R).
  { apply Qabs_Qlt_condition. destruct Hr. split; lra. }
  cbv zeta in *. rewrite F2Q_1_15 in R.
  set (s := b32_add (b32_mul x (b32_of_Z 32768)) f_0_5) in *.
  assert (Et : Qtrunc (SF2Q s) = Qtrunc (SF2Q x * 32768 + (1 # 2))).
  { destruct x as [sx|sx| |sx m e]; try discriminate.
    - cbn [SF2Q] in *.
      apply Qtrunc_Proper, (rounds_to_exact _ _ 1 (-1) R); try (cbn; lia).
      rewrite F2Q_half. ring.
    - assert (Ey : (SF2Q (S754_finite sx m e) * 32768 ==
                    F2Q (cond_Zopp sx (Zpos m)) (e + 15))%Q).
      { cbn [SF2Q]. rewrite <- F2Q_1_15. symmetry. apply F2Q_scale. }
      rewrite Ey in *. apply (q15_sum_trunc sx m e); assumption. }
  destruct Hr as [Hlo Hhi].
  assert (Hrange : -32768 <= Qtrunc (SF2Q x * 32768 + (1 # 2)) <= 32769).
  { apply Qtrunc_range; try lia.
    - change (inject_Z (-32768)) with (-32768)%Q. lra.
    - change (inject_Z 32769) with 32769%Q. lra. }
  split.
  - intros Hhi'.
    rewrite fptosi_defined, Et; [reflexivity|assumption|]. rewrite Et.
    unfold int_min, int_max. change (2 ^ (16 - 1)) with 32768.
    assert (Qtrunc (SF2Q x * 32768 + (1 # 2)) < 32768); [|lia].
    apply Qtrunc_lt; [|lia]. change (inject_Z 32768) with 32768%Q. lra.
  - rewrite <- Et. apply fptosi_arm_16; [assumption|]. rewrite Et. lia.
Qed.

Lemma C5_float_to_q15_witness :
  let x := S754_finite true 12582912 (-25) in
  is_b32 x = true /\ (-1 <= SF2Q x < 1)%Q /\ x <> q15_tie /\
  float_to_q15 arm_conv x = -12287 /\
  float_to_q15 arm_conv x = sext 16 (Qtrunc (SF2Q x * 32768 + (1 # 2))).
Proof.
  intros x.
  assert (H1 : is_b32 x = true) by reflexivity.
  assert (H2 : is_finite x = true) by reflexivity.
  assert (H3 : (-1 <= SF2Q x < 1)%Q)
    by (split; vm_compute; [discriminate|reflexivity]).
  assert (H4 : x <> q15_tie) by discriminate.
  split; [assumption|]. split; [assumption|]. split; [assumption|].
  split; [reflexivity|].
  exact (proj2 (C5_float_to_q15 arm_conv x H1 H2 H3 H4)).
Defined.

(** ** C6: from Q31 to [float] *)

(** C6, as stated, does not hold: [2 ^ 24 + 1] has 25 significant bits, the
    conversion to [float] rounds it to [2 ^ 24], and [q31_to_float] returns
    [2 ^ -7]. *)
Lemma C6_counterexample :
  ~ (SF2Q (q31_to_float 16777217) == inject_Z 16777217 / 2147483648)%Q /\
  (SF2Q (q31_to_float 16777217) == inject_Z 16777216 / 2147483648)%Q.
Proof. split; [vm_compute; discriminate|vm_compute; reflexivity]. Qed.

(** C6 (amended): for every 32-bit signed integer [a], [q31_to_float]
    returns [fl(a) / 2147483648], where [fl(a)], the conversion of [a] to
    [float], is [a] rounded to the nearest binary32 number; the division is
    exact. The result is within [2 ^ -24] of [a / 2147483648], and equal to
    it whenever [a] has at most 24 significant bits, [a = m * 2 ^ e] with
    [|m| < 2 ^ 24], so whenever [|a| <= 2 ^ 24]. *)
Theorem C6_q31_to_float (a : Z) :
  - 2 ^ 31 <= a < 2 ^ 31 ->
  is_finite (q31_to_float a) = true /\
  (SF2Q (q31_to_float a) == SF2Q (b32_of_Z a) / 2147483648)%Q /\
  rounds_to (inject_Z a) (SF2Q (b32_of_Z a)) /\
  (Qabs (SF2Q (q31_to_float a) - inject_Z a / 2147483648) <= 1 # 16777216)%Q /\
  (forall m e, a = m * 2 ^ e -> Z.abs m < 2 ^ 24 -> 0 <= e ->
     (SF2Q (q31_to_float a) == inject_Z a / 2147483648)%Q).
Proof.
  intros Ha.
  destruct (q31_to_float_scaled a Ha) as (Hf & _ & Es & _).
  destruct (b32_of_Z_props a) as (_ & _ & R).
  { assert (2 ^ 31 < 2 ^ 127) by (apply Z.pow_lt_mono_r; lia). lia. }
  assert (Ediv : forall q : Q, (q * F2Q 1 (-31) == q / 2147483648)%Q).
  { intros q. rewrite F2Q_1_m31. reflexivity. }
  split; [assumption|]. split; [rewrite Es; apply Ediv|]. split; [assumption|].
  split.
  - assert (Ea : (inject_Z a == F2Q a 0)%Q) by (rewrite F2Q_Z; reflexivity).
    assert (Hd : Z.abs a < 2 ^ 32).
    { assert (2 ^ 31 < 2 ^ 32) by (apply Z.pow_lt_mono_r; lia). lia. }
    pose proof (rounds_to_error _ _ a 0 32 R Ea ltac:(lia) Hd) as Herr.
    replace (Z.max (32 + 0 - 24) (-149) - 1) with 7 in Herr by lia.
    assert (E7 : (F2Q 1 7 == 128)%Q) by (vm_compute; reflexivity).
    rewrite E7 in Herr. apply Qabs_le_iff in Herr.
    rewrite Es, F2Q_1_m31. apply Qabs_le_iff.
    assert (Hq : (inject_Z a / 2147483648 == inject_Z a * (1 # 2147483648))%Q)
      by reflexivity.
    rewrite Hq. lra.
  - intros m e Ea Hm He. rewrite Es, Ediv.
    apply Qmult_comp; [|reflexivity].
    apply (rounds_to_exact _ _ m e R); try lia.
    rewrite Ea, <- F2Q_Z, (F2Q_align m 0 e), Z.sub_0_r by lia. reflexivity.
Qed.

Lemma C6_q31_to_float_witness :
  - 2 ^ 31 <= 1073741824 < 2 ^ 31 /\
  (SF2Q (q31_to_float 1073741824) == inject_Z 1073741824 / 2147483648)%Q.
Proof.
  assert (H : - 2 ^ 31 <= 1073741824 < 2 ^ 31) by lia.
  split; [assumption|].
  apply (proj2 (proj2 (proj2 (proj2 (C6_q31_to_float 1073741824 H)))) 1 30);
    [reflexivity|vm_compute; reflexivity|discriminate].
Defined.

(** ** C7: the software path *)

(** C7: on the input 0.25 the software path computes a square root of
    exactly 0.5, and formatting it produces the string "0.500". *)
Theorem C7_software_path (conv : spec_float -> Z) (buf : string) :
  b32_sqrt INPUT_NUM = f_0_5 /\
  (SF2Q (b32_sqrt INPUT_NUM) == 1 # 2)%Q /\
  float_to_string conv buf STRING_BUF_SIZE (b32_sqrt INPUT_NUM) = "0.500".
Proof.
  split; [reflexivity|]. split; [vm_compute; reflexivity|].
  vm_compute. reflexivity.
Qed.

(** ** C8: the output of the driver *)

(** C8: a run of the driver emits, in this order and each on a line of its
    own, the raw fixed-point integer that the hardware returned, the decimal
    string of the hardware result and the decimal string of the software
    result; this for every result of the hardware operation and every
    initial content of the buffer. *)
Theorem C8_driver_output (conv : spec_float -> Z) (hw : Z -> Z) (buf : string) :
  let h := sext 32 (hw 536870912) in
  main conv hw CY_RSLT_SUCCESS buf =
    banner ++
    ("Sqr_root_CORDIC_Q31 = " ++ fmt_d h ++ " " ++ CRLF) ++
    ("Sqr_root_CORDIC_float = " ++ float_text conv (q31_to_float h) ++ CRLF) ++
    ("Sqr_root_Software_float = " ++ "0.500" ++ CRLF) /\
  single_line (fmt_d h) /\
  single_line (float_text conv (q31_to_float h)) /\
  decimal_shape (float_text conv (q31_to_float h)).
Proof.
  intros h.
  assert (Hh : - 2 ^ 31 <= h < 2 ^ 31).
  { pose proof (sext_range 32 (hw 536870912) ltac:(lia)) as H.
    unfold int_min, int_max in H. change (32 - 1) with 31 in H. fold h in H. lia. }
  destruct (q31_to_float_scaled h Hh) as (Hf & Hv & _ & Hb).
  assert (Hb' : (Qabs (SF2Q (q31_to_float h)) < 2147483648)%Q).
  { eapply Qlt_trans; [exact Hb|]. reflexivity. }
  split; [|split; [|split]].
  - unfold main. change (negb (CY_RSLT_SUCCESS =? CY_RSLT_SUCCESS)) with false.
    cbv iota zeta.
    replace (float_to_q31 conv INPUT_NUM) with 536870912 by (vm_compute; reflexivity).
    fold h.
    rewrite (float_to_string_complete conv buf STRING_BUF_SIZE (q31_to_float h))
      by (try assumption; unfold STRING_BUF_SIZE; lia).
    replace (float_to_string conv (float_text conv (q31_to_float h))
               STRING_BUF_SIZE (b32_sqrt INPUT_NUM))
      with "0.500" by (vm_compute; reflexivity).
    rewrite !string_app_assoc. reflexivity.
  - apply num_chars_single_line, fmt_d_num_chars.
  - apply num_chars_single_line, float_text_num_chars; assumption.
  - apply float_text_shape; assumption.
Qed.

(** ** C9: the range of [float_to_q15] *)

(** C9: for every [float] input, also outside [-1, 1), infinite or NaN,
    and whatever an out-of-range conversion delivers, the value returned by
    [float_to_q15] lies in [-32768, 32767]: the [int32_t] result is the
    sign extension of an [int16_t]. *)
Theorem C9_float_to_q15_range (conv : spec_float -> Z) (a : spec_float) :
  -32768 <= float_to_q15 conv a <= 32767 /\
  sext 16 (float_to_q15 conv a) = float_to_q15 conv a.
Proof.
  pose proof (fptosi_range conv 16 (b32_add (b32_mul a (b32_of_Z 32768)) f_0_5)
                ltac:(lia)) as H.
  fold (float_to_q15 conv a) in H.
  split; [exact H|]. apply sext_id; [lia|exact H].
Qed.

(** ** C10: negative zero *)

(** C10: formatting negative zero produces the unsigned string "0.000":
    the test [number < 0] is false for [-0.0], so no marker is emitted. *)
Theorem C10_negative_zero (conv : spec_float -> Z) (buf : string) :
  b32_ltb (S754_zero true) (b32_of_Z 0) = false /\
  float_to_string conv buf STRING_BUF_SIZE (S754_zero true) = "0.000".
Proof. split; [reflexivity|]. vm_compute. reflexivity. Qed.


(* ================================================================= *)
(** * Part VIII: further properties of the conversions and the formatter *)
(* ================================================================= *)

(** ** Rounding is monotone *)

Lemma rnd_shift_mono (m1 m2 k : Z) :
  0 < k -> m1 <= m2 -> rnd_shift m1 k <= rnd_shift m2 k.
Proof.
  intros Hk Hle. unfold rnd_shift.
  pose proof (pow2_pos k ltac:(lia)) as Hp.
  pose proof (Z.div_mod m1 (2 ^ k) ltac:(lia)) as D1.
  pose proof (Z.div_mod m2 (2 ^ k) ltac:(lia)) as D2.
  pose proof (Z.mod_pos_bound m1 (2 ^ k) Hp) as B1.
  pose proof (Z.mod_pos_bound m2 (2 ^ k) Hp) as B2.
  set (q1 := m1 / 2 ^ k) in *. set (q2 := m2 / 2 ^ k) in *.
  set (r1 := m1 mod 2 ^ k) in *. set (r2 := m2 mod 2 ^ k) in *.
  set (h := 2 ^ (k - 1)).
  assert (Hq : q1 <= q2) by (apply Z.div_le_mono; lia).
  assert (Hc : q1 < q2 \/ (q1 = q2 /\ r1 <= r2)) by nia.
  destruct Hc as [Hc|[Hc Hr]].
  - destruct (r1 <? h), (h <? r1), (Z.even q1), (r2 <? h), (h <? r2), (Z.even q2); lia.
  - rewrite <- Hc.
    destruct (Z.ltb_spec r1 h), (Z.ltb_spec h r1), (Z.ltb_spec r2 h), (Z.ltb_spec h r2);
      destruct (Z.even q1); lia.
Qed.

Lemma Zdigits2_mono (m1 m2 : Z) : 0 < m1 <= m2 -> Zdigits2 m1 <= Zdigits2 m2.
Proof.
  intros H.
  pose proof (Zdigits2_bounds m1 ltac:(lia)) as B1.
  pose proof (Zdigits2_bounds m2 ltac:(lia)) as B2.
  destruct (Z.le_gt_cases (Zdigits2 m1) (Zdigits2 m2)) as [|Hlt]; [assumption|].
  assert (2 ^ Zdigits2 m2 <= 2 ^ (Zdigits2 m1 - 1))
    by (apply Z.pow_le_mono_r; lia).
  lia.
Qed.

(** The rounding of [m * 2 ^ e], for [e] below every unit in the last
    place, counted in units of [2 ^ e]. *)
Lemma rnd_int_mono_pos (m1 m2 e : Z) :
  0 < m1 <= m2 -> e < -149 ->
  rnd_int m1 e * 2 ^ (ulp_exp m1 e - e) <= rnd_int m2 e * 2 ^ (ulp_exp m2 e - e).
Proof.
  intros Hm He.
  pose proof (Zdigits2_mono m1 m2 Hm) as Hd.
  pose proof (Zdigits2_bounds m1 ltac:(lia)) as B1.
  pose proof (Zdigits2_bounds m2 ltac:(lia)) as B2.
  pose proof (Zdigits2_pos m1 ltac:(lia)) as P1.
  rewrite !rnd_int_pos by lia.
  pose proof (ulp_exp_eq m1 e) as U1. pose proof (ulp_exp_eq m2 e) as U2.
  set (u1 := ulp_exp m1 e) in *. set (u2 := ulp_exp m2 e) in *.
  replace (u1 <=? e) with false by (symmetry; apply Z.leb_gt; lia).
  replace (u2 <=? e) with false by (symmetry; apply Z.leb_gt; lia).
  set (k1 := u1 - e). set (k2 := u2 - e).
  assert (Hk1 : 0 < k1) by lia. assert (Hk2 : 0 < k2) by lia.
  pose proof (pow2_pos k1 ltac:(lia)) as Hp1.
  destruct (Z.eq_dec u1 u2) as [E|NE].
  - replace k2 with k1 by lia.
    pose proof (rnd_shift_mono m1 m2 k1 Hk1 ltac:(lia)). nia.
  - assert (Hlt : k1 < k2) by lia.
    assert (Ek2 : k2 = Zdigits2 m2 - 24) by lia.
    pose proof (rnd_shift_ge_pow m2 k2 ltac:(lia) Hk2 Ek2) as Hge.
    pose proof (pow2_pos k2 ltac:(lia)) as Hp2.
    assert (H2 : 2 ^ (Zdigits2 m2 - 1) <= rnd_shift m2 k2 * 2 ^ k2).
    { replace (Zdigits2 m2 - 1) with (23 + k2) by lia.
      rewrite pow2_split by lia. nia. }
    pose proof (rnd_shift_err m1 k1 Hk1) as Herr.
    assert (Hm1 : m1 < 2 ^ (Zdigits2 m2 - 1)).
    { assert (2 ^ Zdigits2 m1 <= 2 ^ (Zdigits2 m2 - 1))
        by (apply Z.pow_le_mono_r; lia). lia. }
    assert (Es : 2 ^ (Zdigits2 m2 - 1) = 2 ^ (Zdigits2 m2 - 1 - k1) * 2 ^ k1)
      by (rewrite <- pow2_split by lia; f_equal; lia).
    set (b := 2 ^ (Zdigits2 m2 - 1 - k1)) in *.
    set (a := rnd_shift m1 k1) in *.
    assert (a <= b); [|nia].
    destruct (Z.le_gt_cases a b) as [|Hgt]; [assumption|exfalso].
    assert ((b + 1) * 2 ^ k1 <= a * 2 ^ k1) by nia. nia.
Qed.

Lemma rnd_int_mono (m1 m2 e : Z) :
  m1 <= m2 -> e < -149 ->
  rnd_int m1 e * 2 ^ (ulp_exp m1 e - e) <= rnd_int m2 e * 2 ^ (ulp_exp m2 e - e).
Proof.
  intros Hm He.
  assert (P : forall m, 0 < m -> 0 <= rnd_int m e * 2 ^ (ulp_exp m e - e)).
  { intros m H. pose proof (rnd_int_bound m e H).
    pose proof (ulp_exp_eq m e).
    pose proof (pow2_pos (ulp_exp m e - e) ltac:(lia)). nia. }
  assert (N : forall m, m < 0 -> rnd_int m e * 2 ^ (ulp_exp m e - e) <= 0).
  { intros m H. pose proof (P (- m) ltac:(lia)) as H1.
    rewrite rnd_int_opp, ulp_exp_opp in H1. lia. }
  destruct (Z.lt_trichotomy m1 0) as [H1|[->|H1]];
    destruct (Z.lt_trichotomy m2 0) as [H2|[->|H2]]; try lia;
    rewrite ?rnd_int_0, ?Z.mul_0_l.
  - pose proof (rnd_int_mono_pos (- m2) (- m1) e ltac:(lia) He) as H.
    rewrite !rnd_int_opp, !ulp_exp_opp in H. lia.
  - apply N; assumption.
  - pose proof (N m1 H1). pose proof (P m2 H2). lia.
  - apply P; assumption.
  - apply rnd_int_mono_pos; lia.
Qed.

(** Rounding to nearest preserves the order of dyadic numbers. *)
Theorem rounds_to_mono (v1 r1 v2 r2 : Q) (m1 e1 m2 e2 : Z) :
  rounds_to v1 r1 -> rounds_to v2 r2 ->
  (v1 == F2Q m1 e1)%Q -> (v2 == F2Q m2 e2)%Q ->
  (v1 <= v2)%Q -> (r1 <= r2)%Q.
Proof.
  intros R1 R2 E1 E2 Hle.
  set (e := Z.min (Z.min e1 e2) (-150)).
  rewrite (F2Q_align m1 e e1) in E1 by lia.
  rewrite (F2Q_align m2 e e2) in E2 by lia.
  set (n1 := m1 * 2 ^ (e1 - e)) in *. set (n2 := m2 * 2 ^ (e2 - e)) in *.
  rewrite (R1 n1 e E1), (R2 n2 e E2).
  rewrite E1, E2 in Hle. apply F2Q_le in Hle.
  pose proof (rnd_int_mono n1 n2 e Hle ltac:(lia)) as H.
  pose proof (ulp_exp_eq n1 e). pose proof (ulp_exp_eq n2 e).
  rewrite (F2Q_align (rnd_int n1 e) e (ulp_exp n1 e)) by lia.
  rewrite (F2Q_align (rnd_int n2 e) e (ulp_exp n2 e)) by lia.
  apply F2Q_le. exact H.
Qed.

(** A rounding does not cross a [float]. *)
Lemma rounds_to_le_float (v r : Q) (m e : Z) (g : spec_float) :
  rounds_to v r -> (v == F2Q m e)%Q -> is_b32 g = true ->
  (v <= SF2Q g)%Q -> (r <= SF2Q g)%Q.
Proof.
  intros R E Hg Hle. destruct (SF2Q_repr g) as (mg & eg & Eg).
  exact (rounds_to_mono v r (SF2Q g) (SF2Q g) m e mg eg R
           (SF2Q_valid_rounds g Hg) E Eg Hle).
Qed.

Lemma rounds_to_ge_float (v r : Q) (m e : Z) (g : spec_float) :
  rounds_to v r -> (v == F2Q m e)%Q -> is_b32 g = true ->
  (SF2Q g <= v)%Q -> (SF2Q g <= r)%Q.
Proof.
  intros R E Hg Hle. destruct (SF2Q_repr g) as (mg & eg & Eg).
  exact (rounds_to_mono (SF2Q g) (SF2Q g) v r mg eg m e
           (SF2Q_valid_rounds g Hg) R Eg E Hle).
Qed.

(** ** Q15 *)

(** The division by [2 ^ 15] of [q15_to_float] is exact, and so is the
    conversion of a 16-bit integer. *)
Lemma q15_to_float_scaled (a : Z) :
  -32768 <= a <= 32767 ->
  is_finite (q15_to_float a) = true /\ is_b32 (q15_to_float a) = true /\
  (SF2Q (q15_to_float a) == inject_Z a * (1 # 32768))%Q.
Proof.
  intros Ha. unfold q15_to_float.
  change (b32_of_Z 32768) with (S754_finite false 8388608 (-8)).
  destruct (Z.eq_dec a 0) as [->|NE].
  - repeat split.
  - destruct (b32_of_Z_normal a NE) as (s & m & e & E1 & E2 & E3).
    { assert (2 ^ 16 < 2 ^ 100) by (apply Z.pow_lt_mono_r; lia).
      change (2 ^ 16) with 65536 in *. lia. }
    assert (Hd : 1 <= Zdigits2 a <= 16).
    { pose proof (Zdigits2_pos a NE).
      pose proof (Zdigits2_le_bound a 16 ltac:(lia)) as H16.
      change (2 ^ 16) with 65536 in H16. lia. }
    destruct (b32_of_Z_exact a) as (_ & _ & Ea).
    { change (2 ^ 24) with 16777216. lia. }
    rewrite E1 in Ea |- *. rewrite b32_div_pow2 by lia.
    split; [reflexivity|]. split.
    + apply is_b32_finite. rewrite ulp_exp_eq, E2. lia.
    + rewrite <- Ea. cbn [SF2Q]. rewrite <- F2Q_pow2_m15.
      replace (e - -8 - 23) with (e + -15) by lia. apply F2Q_scale.
Qed.

Lemma Qtrunc_half_up (a : Z) :
  Qtrunc (inject_Z a + (1 # 2)) = if a <? 0 then a + 1 else a.
Proof.
  destruct (Z.ltb_spec a 0) as [Hneg|Hpos].
  - assert (Hle : (inject_Z a <= -1)%Q).
    { change (-1)%Q with (inject_Z (-1)). apply inject_Z_le. lia. }
    rewrite Qtrunc_neg by lra.
    assert (Qfloor (- (inject_Z a + (1 # 2))) = - a - 1); [|lia].
    apply Qfloor_unique; rewrite ?inject_Z_plus, ?inject_Z_opp;
      change (inject_Z 1) with 1%Q; unfold Zminus;
      rewrite ?inject_Z_plus, ?inject_Z_opp; change (inject_Z 1) with 1%Q; lra.
  - assert (Hge : (0 <= inject_Z a)%Q) by (apply (inject_Z_le 0 a); lia).
    rewrite Qtrunc_nonneg by lra.
    apply Qfloor_unique; rewrite ?inject_Z_plus; change (inject_Z 1) with 1%Q; lra.
Qed.

(** X1: for every 16-bit signed integer [a], [q15_to_float] returns
    exactly [a / 32768], a finite number of [-1, 1): neither the conversion
    of [a] to [float] nor the division rounds. *)
Theorem X1_q15_to_float_exact (a : Z) :
  -32768 <= a <= 32767 ->
  is_finite (q15_to_float a) = true /\
  (SF2Q (q15_to_float a) == inject_Z a / 32768)%Q /\
  (-1 <= SF2Q (q15_to_float a) < 1)%Q.
Proof.
  intros Ha. destruct (q15_to_float_scaled a Ha) as (F & _ & E).
  split; [assumption|]. split; [rewrite E; reflexivity|].
  rewrite E.
  assert (H1 : (inject_Z (-32768) <= inject_Z a)%Q) by (apply inject_Z_le; lia).
  assert (H2 : (inject_Z a <= inject_Z 32767)%Q) by (apply inject_Z_le; lia).
  change (inject_Z (-32768)) with (-32768)%Q in H1.
  change (inject_Z 32767) with 32767%Q in H2. split; lra.
Qed.

Lemma X1_q15_to_float_exact_witness :
  -32768 <= -32768 <= 32767 /\
  (SF2Q (q15_to_float (-32768)) == inject_Z (-32768) / 32768)%Q.
Proof.
  assert (H : -32768 <= -32768 <= 32767) by lia.
  split; [assumption|].
  exact (proj1 (proj2 (X1_q15_to_float_exact (-32768) H))).
Defined.

(** The sum that [float_to_q15] truncates, on a Q15 number: exact. *)
Lemma q15_biased_exact (a : Z) :
  -32768 <= a <= 32767 ->
  let s := b32_add (b32_mul (q15_to_float a) (b32_of_Z 32768)) f_0_5 in
  is_finite s = true /\ (SF2Q s == inject_Z a + (1 # 2))%Q.
Proof.
  intros Ha s. subst s.
  destruct (q15_to_float_scaled a Ha) as (F & V & E).
  assert (H1 : (inject_Z (-32768) <= inject_Z a)%Q) by (apply inject_Z_le; lia).
  assert (H2 : (inject_Z a <= inject_Z 32767)%Q) by (apply inject_Z_le; lia).
  change (inject_Z (-32768)) with (-32768)%Q in H1.
  change (inject_Z 32767) with 32767%Q in H2.
  destruct (biased_product (q15_to_float a) (b32_of_Z 32768) 15 F V eq_refl eq_refl
              SF2Q_2p15 ltac:(lia)) as (Fs & R).
  { apply Qabs_Qlt_condition. rewrite E. split; lra. }
  cbv zeta in *. split; [assumption|].
  assert (Ev : (SF2Q (q15_to_float a) * F2Q 1 15 + (1 # 2) == F2Q (2 * a + 1) (-1))%Q).
  { rewrite E, F2Q_1_15, <- F2Q_add, F2Q_half.
    replace (2 * a) with (a * 2 ^ 1) by (change (2 ^ 1) with 2; lia).
    rewrite F2Q_shift by lia. replace (-1 + 1) with 0 by lia. rewrite F2Q_Z.
    ring. }
  rewrite (rounds_to_exact _ _ _ _ R Ev); [|change (2 ^ 24) with 16777216; lia|lia].
  rewrite E, F2Q_1_15. ring.
Qed.

(** X2: from Q15 to [float] and back. For every 16-bit signed integer [a],
    [float_to_q15 (q15_to_float a)] is [a] when [a] is not negative and
    [a + 1] when it is: the bias of one half is added, and the conversion
    then truncates toward zero. *)
Theorem X2_q15_float_q15 (conv : spec_float -> Z) (a : Z) :
  -32768 <= a <= 32767 ->
  float_to_q15 conv (q15_to_float a) = if a <? 0 then a + 1 else a.
Proof.
  intros Ha. destruct (q15_biased_exact a Ha) as (Fs & Es). cbv zeta in *.
  unfold float_to_q15.
  rewrite fptosi_defined; rewrite ?Es, ?Qtrunc_half_up; try assumption.
  - reflexivity.
  - unfold int_min, int_max. change (2 ^ (16 - 1)) with 32768.
    destruct (Z.ltb_spec a 0); lia.
Qed.

Lemma X2_q15_float_q15_witness :
  -32768 <= -1 <= 32767 /\
  float_to_q15 arm_conv (q15_to_float (-1)) = 0 /\
  -32768 <= 12345 <= 32767 /\
  float_to_q15 arm_conv (q15_to_float 12345) = 12345.
Proof.
  assert (H1 : -32768 <= -1 <= 32767) by lia.
  assert (H2 : -32768 <= 12345 <= 32767) by lia.
  split; [assumption|]. split; [exact (X2_q15_float_q15 arm_conv (-1) H1)|].
  split; [assumption|]. exact (X2_q15_float_q15 arm_conv 12345 H2).
Defined.

Lemma spec_float_eq_dec (x y : spec_float) : {x = y} + {x <> y}.
Proof.
  decide equality; try apply Bool.bool_dec; try apply Z.eq_dec; apply Pos.eq_dec.
Qed.

(** Except at [q15_tie], [float_to_q15] truncates the exact sum. *)
Lemma float_to_q15_sum (x : spec_float) :
  is_b32 x = true -> is_finite x = true ->
  (-1 <= SF2Q x < 1)%Q -> x <> q15_tie ->
  let s := b32_add (b32_mul x (b32_of_Z 32768)) f_0_5 in
  is_finite s = true /\
  Qtrunc (SF2Q s) = Qtrunc (SF2Q x * 32768 + (1 # 2)).
Proof.
  intros Hv Hf Hr Hne s. subst s.
  destruct (biased_product x (b32_of_Z 32768) 15 Hf Hv eq_refl eq_refl
              SF2Q_2p15 ltac:(lia)) as (Fs & R).
  { apply Qabs_Qlt_condition. destruct Hr. split; lra. }
  cbv zeta in *. rewrite F2Q_1_15 in R. split; [assumption|].
  destruct x as [sx|sx| |sx m e]; try discriminate.
  - cbn [SF2Q] in *.
    apply Qtrunc_Proper, (rounds_to_exact _ _ 1 (-1) R); try (cbn; lia).
    rewrite F2Q_half. ring.
  - assert (Ey : (SF2Q (S754_finite sx m e) * 32768 ==
                  F2Q (cond_Zopp sx (Zpos m)) (e + 15))%Q).
    { cbn [SF2Q]. rewrite <- F2Q_1_15. symmetry. apply F2Q_scale. }
    rewrite Ey in *. apply (q15_sum_trunc sx m e); assumption.
Qed.

Lemma Qtrunc_bounds_nonneg (q : Q) :
  (0 <= q)%Q -> (inject_Z (Qtrunc q) <= q < inject_Z (Qtrunc q) + 1)%Q.
Proof. intros H. rewrite Qtrunc_nonneg by assumption. apply Qfloor_bounds. Qed.

Lemma Qtrunc_bounds_neg (q : Q) :
  (q <= 0)%Q -> (q <= inject_Z (Qtrunc q) < q + 1)%Q.
Proof.
  intros H. rewrite Qtrunc_neg by assumption.
  pose proof (Qfloor_bounds (- q)) as [H1 H2].
  rewrite inject_Z_opp. split; lra.
Qed.

(** X3: the round trip through Q15. For every binary32 [x] of
    [0, 1 - 2 ^ -16), [q15_to_float (float_to_q15 x)] differs from [x] by at
    most [2 ^ -16 + 2 ^ -40], and by at most [2 ^ -16], half a unit of Q15,
    unless [x] is [2 ^ -16 - 2 ^ -40]. *)
Theorem X3_float_q15_float (conv : spec_float -> Z) (x : spec_float) :
  is_b32 x = true -> is_finite x = true ->
  (0 <= SF2Q x < 65535 # 65536)%Q ->
  (Qabs (SF2Q (q15_to_float (float_to_q15 conv x)) - SF2Q x)
   <= (1 # 65536) + (1 # 1099511627776))%Q /\
  (x <> q15_tie ->
   (Qabs (SF2Q (q15_to_float (float_to_q15 conv x)) - SF2Q x) <= 1 # 65536)%Q).
Proof.
  intros Hv Hf [H0 H1].
  assert (G : x <> q15_tie ->
    (Qabs (SF2Q (q15_to_float (float_to_q15 conv x)) - SF2Q x) <= 1 # 65536)%Q).
  { intros Hne.
    destruct (float_to_q15_sum x Hv Hf ltac:(split; lra) Hne) as (Fs & Et).
    cbv zeta in *. unfold float_to_q15.
    pose proof (Qtrunc_bounds_nonneg (SF2Q x * 32768 + (1 # 2)) ltac:(lra)) as [B1 B2].
    assert (Hn : 0 <= Qtrunc (SF2Q x * 32768 + (1 # 2)) < 32768).
    { split.
      - apply Qtrunc_range with (b := 32768); try lia.
        + change (inject_Z 0) with 0%Q. lra.
        + change (inject_Z 32768) with 32768%Q. lra.
      - apply Qtrunc_lt; [|lia]. change (inject_Z 32768) with 32768%Q. lra. }
    rewrite fptosi_defined, Et; try assumption.
    2:{ rewrite Et. unfold int_min, int_max. change (2 ^ (16 - 1)) with 32768. lia. }
    destruct (q15_to_float_scaled (Qtrunc (SF2Q x * 32768 + (1 # 2))) ltac:(lia))
      as (_ & _ & E).
    rewrite E. apply Qabs_le_iff. split; lra. }
  split; [|exact G].
  destruct (spec_float_eq_dec x q15_tie) as [->|Hne].
  - vm_compute. discriminate.
  - eapply Qle_trans; [apply G, Hne|]. vm_compute. discriminate.
Qed.

Lemma X3_float_q15_float_witness :
  is_b32 f_0_25 = true /\ is_finite f_0_25 = true /\
  (0 <= SF2Q f_0_25 < 65535 # 65536)%Q /\ f_0_25 <> q15_tie /\
  (Qabs (SF2Q (q15_to_float (float_to_q15 arm_conv f_0_25)) - SF2Q f_0_25)
   <= 1 # 65536)%Q.
Proof.
  assert (H1 : is_b32 f_0_25 = true) by reflexivity.
  assert (H2 : is_finite f_0_25 = true) by reflexivity.
  assert (H3 : (0 <= SF2Q f_0_25 < 65535 # 65536)%Q)
    by (split; vm_compute; [discriminate|reflexivity]).
  assert (H4 : f_0_25 <> q15_tie) by discriminate.
  split; [assumption|]. split; [assumption|]. split; [assumption|].
  split; [assumption|].
  exact (proj2 (X3_float_q15_float arm_conv f_0_25 H1 H2 H3) H4).
Defined.

(** X4: on negative numbers the bias works against the truncation. For
    every binary32 [x] of [-1, 0), the Q15 code that [float_to_q15] returns
    is above [x * 32768], by less than one unit and a half, and the number
    that [q15_to_float] makes of it is above [x], by less than
    [3 * 2 ^ -16]. *)
Theorem X4_float_q15_float_neg (conv : spec_float -> Z) (x : spec_float) :
  is_b32 x = true -> is_finite x = true ->
  (-1 <= SF2Q x < 0)%Q ->
  (SF2Q x * 32768 < inject_Z (float_to_q15 conv x) < SF2Q x * 32768 + (3 # 2))%Q /\
  (SF2Q x < SF2Q (q15_to_float (float_to_q15 conv x)) < SF2Q x + (3 # 65536))%Q.
Proof.
  intros Hv Hf [H0 H1].
  assert (Hne : x <> q15_tie).
  { intros ->. revert H1. vm_compute. discriminate. }
  destruct (float_to_q15_sum x Hv Hf ltac:(split; lra) Hne) as (Fs & Et).
  cbv zeta in *. unfold float_to_q15.
  set (v := (SF2Q x * 32768 + (1 # 2))%Q) in *.
  assert (Hb : (SF2Q x * 32768 < inject_Z (Qtrunc v) < SF2Q x * 32768 + (3 # 2))%Q).
  { destruct (Qlt_le_dec 0 v) as [Hp|Hn].
    - rewrite Qtrunc_small by (unfold v in *; lra). unfold v in Hp.
      change (inject_Z 0) with 0%Q. split; lra.
    - pose proof (Qtrunc_bounds_neg v Hn) as [B1 B2]. unfold v in *. split; lra. }
  assert (Hn : -32768 <= Qtrunc v <= 0).
  { destruct (Qlt_le_dec 0 v) as [Hp|Hn].
    - rewrite Qtrunc_small by (unfold v in *; lra). lia.
    - apply Qtrunc_range; try lia; [|exact Hn].
      change (inject_Z (-32768)) with (-32768)%Q. unfold v. lra. }
  rewrite fptosi_defined, Et; try assumption.
  2:{ rewrite Et. unfold int_min, int_max. change (2 ^ (16 - 1)) with 32768. lia. }
  split; [exact Hb|].
  destruct (q15_to_float_scaled (Qtrunc v) ltac:(lia)) as (_ & _ & E).
  rewrite E. destruct Hb. split; lra.
Qed.

Lemma X4_float_q15_float_neg_witness :
  let x := S754_finite true 8388608 (-24) in
  is_b32 x = true /\ is_finite x = true /\ (-1 <= SF2Q x < 0)%Q /\
  float_to_q15 arm_conv x = -16383 /\
  (SF2Q x * 32768 < inject_Z (float_to_q15 arm_conv x) < SF2Q x * 32768 + (3 # 2))%Q.
Proof.
  intros x.
  assert (H1 : is_b32 x = true) by reflexivity.
  assert (H2 : is_finite x = true) by reflexivity.
  assert (H3 : (-1 <= SF2Q x < 0)%Q) by (split; vm_compute; [discriminate|reflexivity]).
  split; [assumption|]. split; [assumption|]. split; [assumption|].
  split; [reflexivity|].
  exact (proj1 (X4_float_q15_float_neg arm_conv x H1 H2 H3)).
Defined.

(** ** Dyadic writings *)

Lemma F2Q_add_repr (m1 e1 m2 e2 : Z) :
  exists m e, (F2Q m1 e1 + F2Q m2 e2 == F2Q m e)%Q.
Proof.
  exists (m1 * 2 ^ (e1 - Z.min e1 e2) + m2 * 2 ^ (e2 - Z.min e1 e2)), (Z.min e1 e2).
  rewrite (F2Q_align m1 (Z.min e1 e2) e1), (F2Q_align m2 (Z.min e1 e2) e2) by lia.
  apply F2Q_add.
Qed.

Lemma SF2Q_repr24 (x : spec_float) :
  is_b32 x = true ->
  exists m e, (SF2Q x == F2Q m e)%Q /\ Z.abs m < 2 ^ 24 /\ -149 <= e.
Proof.
  intros Vx. destruct x as [s|s| |s m e]; cbn [SF2Q].
  1-3: exists 0, 0; rewrite F2Q_0; repeat split; cbn; lia.
  pose proof (is_b32_bounds _ _ _ Vx) as (Bm & Be & _).
  exists (cond_Zopp s (Zpos m)), e. split; [reflexivity|].
  split; [destruct s; cbn; lia|lia].
Qed.

Lemma Qtrunc_mono (p q : Q) : (p <= q)%Q -> Qtrunc p <= Qtrunc q.
Proof.
  intros H. unfold Qtrunc.
  destruct (Qle_bool 0 p) eqn:Ep; destruct (Qle_bool 0 q) eqn:Eq.
  - apply Qfloor_resp_le. assumption.
  - apply Qle_bool_iff in Ep.
    assert (Hq : (0 <= q)%Q) by lra. apply Qle_bool_iff in Hq. congruence.
  - transitivity 0.
    + change 0 with (Qceiling 0). apply Qceiling_resp_le.
      destruct (Qlt_le_dec 0 p) as [Hp|Hp]; [|assumption].
      apply Qlt_le_weak, Qle_bool_iff in Hp. congruence.
    + change 0 with (Qfloor 0). apply Qfloor_resp_le. apply Qle_bool_iff. assumption.
  - apply Qceiling_resp_le. assumption.
Qed.

(** The integral part of a [float] is a [float]. *)
Lemma trunc_float_exact (s : spec_float) :
  is_b32 s = true -> is_finite s = true ->
  (Qabs (SF2Q s) <= 4294967296)%Q ->
  (SF2Q (b32_of_Z (Qtrunc (SF2Q s))) == inject_Z (Qtrunc (SF2Q s)))%Q.
Proof.
  intros Vs Fs Hb.
  pose proof (SFtrunc_spec s Fs) as Ht.
  assert (Hn : Z.abs (Qtrunc (SF2Q s)) <= 4294967296).
  { apply Qabs_le_iff in Hb. destruct Hb as [Hb1 Hb2].
    pose proof (Qtrunc_range (SF2Q s) (-4294967296) 4294967296 Hb1 Hb2) as H.
    lia. }
  destruct s as [sg|sg| |sg m e]; try discriminate.
  - cbn [SF2Q]. change (Qtrunc 0) with 0. reflexivity.
  - pose proof (is_b32_bounds _ _ _ Vs) as (Bm & Be & _).
    assert (Ht' : Qtrunc (SF2Q (S754_finite sg m e)) =
                  cond_Zopp sg (if 0 <=? e then Zpos m * 2 ^ e
                                else Zpos m / 2 ^ (- e)))
      by (unfold SFtrunc in Ht; congruence).
    clear Ht. rewrite Ht' in *. clear Ht'.
    destruct (Z.leb_spec 0 e) as [He|He].
    + destruct (b32_of_Z_props (cond_Zopp sg (Zpos m * 2 ^ e))) as (_ & _ & R).
      { assert (2 ^ 33 < 2 ^ 127) by (apply Z.pow_lt_mono_r; lia).
        change (2 ^ 33) with 8589934592 in *. lia. }
      apply (rounds_to_exact _ _ (cond_Zopp sg (Zpos m)) e R);
        [|destruct sg; cbn [cond_Zopp]; lia|lia].
      rewrite <- F2Q_Z, (F2Q_align (cond_Zopp sg (Zpos m)) 0 e), Z.sub_0_r by lia.
      destruct sg; cbn [cond_Zopp]; [|reflexivity].
      rewrite <- Z.mul_opp_l. reflexivity.
    + apply b32_of_Z_exact.
      pose proof (pow2_pos (- e) ltac:(lia)) as Hp.
      assert (0 <= Zpos m / 2 ^ (- e) <= Zpos m).
      { split; [apply Z.div_pos; lia|].
        apply Z.div_le_upper_bound; [lia|]. nia. }
      destruct sg; cbn [cond_Zopp]; lia.
Qed.

(** ** Q31 *)

(** The sum [a * 0x80000000 + 0.5F] on the numbers of [-1, 1). *)
Lemma q31_sum (x : spec_float) :
  is_b32 x = true -> is_finite x = true -> (-1 <= SF2Q x < 1)%Q ->
  let y := b32_mul x (b32_of_Z 2147483648) in
  let s := b32_add y f_0_5 in
  is_b32 y = true /\ (SF2Q y == SF2Q x * 2147483648)%Q /\
  is_finite s = true /\ is_b32 s = true /\
  rounds_to (SF2Q x * 2147483648 + (1 # 2)) (SF2Q s) /\
  exists m e, (SF2Q x * 2147483648 + (1 # 2) == F2Q m e)%Q.
Proof.
  intros Vx Fx [H0 H1] y s. subst y s.
  assert (Hb : (Qabs (SF2Q x) < 4)%Q) by (apply Qabs_Qlt_condition; split; lra).
  destruct (b32_mul_pow2 x (b32_of_Z 2147483648) 31 Fx Vx eq_refl eq_refl
              SF2Q_2p31 ltac:(lia) Hb) as (F & V & E).
  rewrite F2Q_1_31 in E.
  destruct (b32_add_props (b32_mul x (b32_of_Z 2147483648)) f_0_5 F eq_refl V eq_refl)
    as (F' & V' & R).
  { rewrite E, SF2Q_f_0_5. apply F2Q_1_127_gt.
    apply Qabs_le_iff.
    assert (2147483649 <= 2 ^ 40)%Q by (vm_compute; discriminate).
    split; lra. }
  rewrite E, SF2Q_f_0_5 in R.
  repeat (split; [assumption|]).
  destruct (SF2Q_repr24 x Vx) as (m & e & Ex & _).
  destruct (F2Q_add_repr m (e + 31) 1 (-1)) as (mv & ev & Ev).
  exists mv, ev. rewrite <- Ev, F2Q_half, Ex, F2Q_scale, F2Q_1_31. reflexivity.
Qed.

(** On [0, 1) no conversion of [float_to_q31] is out of range. *)
Lemma float_to_q31_defined_nonneg (conv : spec_float -> Z) (x : spec_float) :
  is_b32 x = true -> is_finite x = true -> (0 <= SF2Q x < 1)%Q ->
  let s := b32_add (b32_mul x (b32_of_Z 2147483648)) f_0_5 in
  float_to_q31 conv x = Qtrunc (SF2Q s) /\ 0 <= Qtrunc (SF2Q s) < 2 ^ 31.
Proof.
  intros Vx Fx [H0 H1] s.
  destruct (q31_sum x Vx Fx ltac:(split; lra)) as (_ & _ & Fs & _).
  cbv zeta in Fs. fold s in Fs.
  pose proof (float_to_q31_near (fun _ => 0) x Vx Fx H0 H1) as (_ & B0 & _).
  pose proof (float_to_q31_near (fun _ => 5) x Vx Fx H0 H1) as (_ & B5 & _).
  pose proof (float_to_q31_near conv x Vx Fx H0 H1) as (Bn & _ & _).
  cbv zeta in *. unfold float_to_q31, fptosi in *. fold s in B0, B5, Bn |- *.
  rewrite (SFtrunc_spec s Fs) in *.
  destruct (in_int 32 (Qtrunc (SF2Q s))) eqn:Ein.
  - split; [reflexivity|exact Bn].
  - exfalso. change (sext 32 0) with 0 in B0. change (sext 32 5) with 5 in B5.
    change (inject_Z 0) with 0%Q in B0. change (inject_Z 5) with 5%Q in B5.
    destruct B0, B5. lra.
Qed.

(** On [-1, 0) the sum is not below the product and at most one above it
    when the product has no fractional bits. *)
Lemma q31_sum_neg_big (m E : Z) (r : Q) :
  2 ^ 23 <= m < 2 ^ 24 -> 1 <= E ->
  rounds_to (F2Q (- m) E + (1 # 2)) r ->
  (r <= F2Q (- m) E + 1)%Q.
Proof.
  intros Hm HE R.
  pose proof (pow2_pos (E + 1) ltac:(lia)) as Hp.
  set (M := m * 2 ^ (E + 1) - 1).
  assert (Ev : (F2Q (- m) E + (1 # 2) == F2Q (- M) (-1))%Q).
  { rewrite <- F2Q_half, (F2Q_align (- m) (-1) E) by lia.
    replace (E - -1) with (E + 1) by lia. rewrite F2Q_add. f_equiv. unfold M. lia. }
  assert (E1 : (F2Q (- m) E + 1 == F2Q (- M + 1) (-1))%Q).
  { rewrite <- F2Q_add, <- Ev, F2Q_half. ring. }
  rewrite (R _ _ Ev), E1, rnd_int_opp.
  assert (HM : 2 ^ (23 + E) <= M < 2 ^ (25 + E)).
  { unfold M. replace (25 + E) with (24 + (E + 1)) by lia.
    replace (23 + E) with (22 + (E + 1)) by lia.
    rewrite !pow2_split by lia.
    change (2 ^ 23) with 8388608 in Hm. change (2 ^ 24) with 16777216 in *.
    change (2 ^ 22) with 4194304. nia. }
  assert (HD : 24 + E <= Zdigits2 M <= 25 + E).
  { split.
    - pose proof (Zdigits2_ge_bound M (23 + E) ltac:(lia) ltac:(lia)). lia.
    - apply Zdigits2_le_bound; lia. }
  rewrite ulp_exp_opp.
  pose proof (ulp_exp_eq M (-1)) as Hu. set (u := ulp_exp M (-1)) in *.
  assert (Eu : u = Zdigits2 M - 25) by lia.
  rewrite rnd_int_pos by lia. fold u.
  replace (u <=? -1) with false by (symmetry; apply Z.leb_gt; lia).
  set (k := u - -1). assert (Hk : 1 <= k <= E + 1) by lia.
  pose proof (rnd_shift_err M k ltac:(lia)) as Herr.
  set (q := rnd_shift M k) in *.
  rewrite (F2Q_align (- q) (-1) u) by lia. fold k. apply F2Q_le.
  pose proof (pow2_pos k ltac:(lia)) as Hpk.
  destruct (Z.eq_dec k 1) as [K1|K1].
  - rewrite K1 in *. change (2 ^ 1) with 2 in *. lia.
  - (* [M + 1] and the rounding are multiples of [2 ^ k] *)
    assert (Es : 2 ^ (E + 1) = 2 ^ (E + 1 - k) * 2 ^ k)
      by (rewrite <- pow2_split by lia; f_equal; lia).
    assert (EM : M + 1 = m * 2 ^ (E + 1 - k) * 2 ^ k) by (unfold M; rewrite Es; ring).
    assert (Hh : 2 ^ k = 2 * 2 ^ (k - 1)).
    { rewrite <- Z.pow_succ_r by lia. f_equal. lia. }
    assert (2 <= 2 ^ (k - 1)).
    { change 2 with (2 ^ 1) at 1. apply Z.pow_le_mono_r; lia. }
    set (c := m * 2 ^ (E + 1 - k)) in *.
    assert (c <= q); [|nia].
    destruct (Z.le_gt_cases c q) as [|Hgt]; [assumption|exfalso].
    assert ((q + 1) * 2 ^ k <= c * 2 ^ k) by nia. nia.
Qed.

Lemma inject_Z_pred (n : Z) : (inject_Z (n - 1) == inject_Z n - 1)%Q.
Proof.
  unfold Z.sub. rewrite inject_Z_plus. unfold Qminus. reflexivity.
Qed.

Lemma float_to_q31_neg (conv : spec_float -> Z) (x : spec_float) :
  is_b32 x = true -> is_finite x = true -> (-1 <= SF2Q x < 0)%Q ->
  let s := b32_add (b32_mul x (b32_of_Z 2147483648)) f_0_5 in
  float_to_q31 conv x = Qtrunc (SF2Q s) /\
  - 2 ^ 31 <= Qtrunc (SF2Q s) <= 0 /\
  (SF2Q x * 2147483648 <= inject_Z (Qtrunc (SF2Q s))
   < SF2Q x * 2147483648 + (3 # 2))%Q /\
  (- (2147483648) <= SF2Q s <= 1 # 2)%Q.
Proof.
  intros Vx Fx [H0 H1] s.
  destruct (q31_sum x Vx Fx ltac:(split; lra)) as (Vy & Ey & Fs & Vs & R & mv & ev & Ev).
  cbv zeta in *. fold s in Fs, Vs, R.
  set (y := b32_mul x (b32_of_Z 2147483648)) in *.
  set (p := (SF2Q x * 2147483648)%Q) in *.
  assert (Hlo : (p <= SF2Q s)%Q).
  { rewrite <- Ey. apply (rounds_to_ge_float _ _ mv ev y R Ev Vy). rewrite Ey. lra. }
  assert (Hhi : (SF2Q s <= 1 # 2)%Q).
  { rewrite <- SF2Q_f_0_5.
    apply (rounds_to_le_float _ _ mv ev f_0_5 R Ev eq_refl).
    rewrite SF2Q_f_0_5. unfold p. lra. }
  assert (G : - 2 ^ 31 <= Qtrunc (SF2Q s) <= 0 /\
              (p <= inject_Z (Qtrunc (SF2Q s)) < p + (3 # 2))%Q).
  { destruct x as [sx|sx| |sx m e]; try discriminate.
    pose proof (is_b32_bounds _ _ _ Vx) as (Bm & Be & Cm).
    destruct sx; cycle 1.
    { exfalso. cbn [SF2Q cond_Zopp] in H1.
      assert (0 <= F2Q (Zpos m) e)%Q by (apply F2Q_nonneg; lia). lra. }
    assert (Ep : (p == F2Q (- Zpos m) (e + 31))%Q).
    { unfold p. cbn [SF2Q cond_Zopp]. rewrite <- F2Q_1_31. symmetry.
      apply F2Q_scale. }
    change (2 ^ 24) with 16777216 in Bm.
    destruct (Z_le_gt_dec (e + 31) 0) as [Hc|Hc].
    - (* the product is above [- 2 ^ 24] *)
      assert (Hp : (inject_Z (-16777215) <= p)%Q).
      { rewrite Ep, <- F2Q_Z, (F2Q_align (-16777215) (e + 31) 0) by lia.
        apply F2Q_le. pose proof (pow2_pos (0 - (e + 31)) ltac:(lia)). nia. }
      assert (Ht : -16777215 <= Qtrunc (SF2Q s) <= 0).
      { pose proof (Qtrunc_range (SF2Q s) (-16777215) 1) as Hr.
        change (inject_Z 1) with 1%Q in Hr.
        specialize (Hr ltac:(lra) ltac:(lra) ltac:(lia) ltac:(lia)).
        pose proof (Qtrunc_lt (SF2Q s) 1) as Hl. change (inject_Z 1) with 1%Q in Hl.
        specialize (Hl ltac:(lra) ltac:(lia)). lia. }
      split; [change (2 ^ 31) with 2147483648; lia|].
      assert (Hs : (inject_Z (Qtrunc (SF2Q s)) - 1 < SF2Q s)%Q /\
                   (p <= inject_Z (Qtrunc (SF2Q s)))%Q).
      { destruct (Qlt_le_dec 0 (SF2Q s)) as [Hpos|Hneg].
        - rewrite Qtrunc_small by lra. change (inject_Z 0) with 0%Q.
          unfold p in *. split; lra.
        - pose proof (Qtrunc_bounds_neg (SF2Q s) Hneg) as [B1 B2]. split; lra. }
      destruct Hs as [Hs1 Hs2]. split; [assumption|].
      destruct (b32_of_Z_exact (Qtrunc (SF2Q s) - 1)) as (_ & Vg & Eg).
      { change (2 ^ 24) with 16777216. lia. }
      rewrite inject_Z_pred in Eg.
      destruct (Qlt_le_dec (inject_Z (Qtrunc (SF2Q s)) - 1) (p + (1 # 2))) as [Hv|Hv].
      + lra.
      + exfalso. rewrite <- Eg in Hv.
        pose proof (rounds_to_le_float _ _ mv ev _ R Ev Vg Hv) as Hle.
        rewrite Eg in Hle. lra.
    - (* the product is an integer *)
      assert (Hdig : Zdigits2 (Zpos m) = 24) by lia.
      pose proof (Zdigits2_bounds (Zpos m) ltac:(lia)) as Hm. rewrite Hdig in Hm.
      change (24 - 1) with 23 in Hm.
      assert (R' : rounds_to (F2Q (- Zpos m) (e + 31) + (1 # 2)) (SF2Q s)).
      { rewrite <- Ep. exact R. }
      pose proof (q31_sum_neg_big (Zpos m) (e + 31) (SF2Q s) Hm ltac:(lia) R') as Hup.
      rewrite <- Ep in Hup.
      set (P := - Zpos m * 2 ^ (e + 31)).
      assert (EP : (p == inject_Z P)%Q).
      { rewrite Ep, <- F2Q_Z, (F2Q_align (- Zpos m) 0 (e + 31)), Z.sub_0_r by lia.
        reflexivity. }
      assert (HP : - 2147483648 <= P < 0).
      { split.
        - rewrite Zle_Qle, <- EP. change (inject_Z (-2147483648)) with (-2147483648)%Q.
          unfold p. lra.
        - unfold P. pose proof (pow2_pos (e + 31) ltac:(lia)). nia. }
      assert (Ht : P <= Qtrunc (SF2Q s) <= P + 1).
      { split.
        - rewrite <- (Qtrunc_Z P). apply Qtrunc_mono. lra.
        - rewrite <- (Qtrunc_Z (P + 1)). apply Qtrunc_mono.
          rewrite inject_Z_plus. change (inject_Z 1) with 1%Q. lra. }
      split; [change (2 ^ 31) with 2147483648; lia|].
      destruct Ht as [Ht1 Ht2].
      apply inject_Z_le in Ht1, Ht2. rewrite inject_Z_plus in Ht2.
      change (inject_Z 1) with 1%Q in Ht2. split; lra. }
  destruct G as [G1 G2].
  split; [|split; [exact G1|split; [exact G2|]]].
  - unfold float_to_q31. fold y s. apply fptosi_defined; [assumption|].
    unfold int_min, int_max. change (32 - 1) with 31. lia.
  - unfold p in Hlo. split; lra.
Qed.

(** On the whole of [-1, 1) no conversion of [float_to_q31] is out of
    range. *)
Lemma float_to_q31_in_range (conv : spec_float -> Z) (x : spec_float) :
  is_b32 x = true -> is_finite x = true -> (-1 <= SF2Q x < 1)%Q ->
  float_to_q31 conv x =
    Qtrunc (SF2Q (b32_add (b32_mul x (b32_of_Z 2147483648)) f_0_5)) /\
  - 2 ^ 31 <= Qtrunc (SF2Q (b32_add (b32_mul x (b32_of_Z 2147483648)) f_0_5)) < 2 ^ 31.
Proof.
  intros Vx Fx [H0 H1].
  destruct (Qlt_le_dec (SF2Q x) 0) as [Hn|Hp].
  - destruct (float_to_q31_neg conv x Vx Fx ltac:(split; lra)) as (E & B & _).
    cbv zeta in *. split; [exact E|]. change (2 ^ 31) with 2147483648 in *. lia.
  - destruct (float_to_q31_defined_nonneg conv x Vx Fx ltac:(split; lra)) as (E & B).
    cbv zeta in *. split; [exact E|]. change (2 ^ 31) with 2147483648 in *. lia.
Qed.

(** X5: [float_to_q31] is defined on the whole of [-1, 1). For every
    binary32 [x] of that range the integral part of the single-precision
    sum [x * 2 ^ 31 + 0.5] is an [int32_t]: the result is that integral
    part, whatever an implementation does with conversions that are out of
    range. *)
Theorem X5_float_to_q31_defined (conv : spec_float -> Z) (x : spec_float) :
  is_b32 x = true -> is_finite x = true -> (-1 <= SF2Q x < 1)%Q ->
  float_to_q31 conv x =
    Qtrunc (SF2Q (b32_add (b32_mul x (b32_of_Z 2147483648)) f_0_5)) /\
  - 2 ^ 31 <= Qtrunc (SF2Q (b32_add (b32_mul x (b32_of_Z 2147483648)) f_0_5)) < 2 ^ 31 /\
  forall conv' : spec_float -> Z, float_to_q31 conv' x = float_to_q31 conv x.
Proof.
  intros Vx Fx Hx.
  destruct (float_to_q31_in_range conv x Vx Fx Hx) as [E B].
  split; [exact E|]. split; [exact B|].
  intros conv'. rewrite E.
  destruct (float_to_q31_in_range conv' x Vx Fx Hx) as [E' _]. exact E'.
Qed.

Lemma X5_float_to_q31_defined_witness :
  let x := S754_finite false 16777215 (-24) in
  is_b32 x = true /\ is_finite x = true /\ (-1 <= SF2Q x < 1)%Q /\
  float_to_q31 (fun _ => 0) x = 2147483520 /\
  float_to_q31 (fun _ => 0) x =
    Qtrunc (SF2Q (b32_add (b32_mul x (b32_of_Z 2147483648)) f_0_5)).
Proof.
  intros x.
  assert (H1 : is_b32 x = true) by reflexivity.
  assert (H2 : is_finite x = true) by reflexivity.
  assert (H3 : (-1 <= SF2Q x < 1)%Q) by (split; vm_compute; [discriminate|reflexivity]).
  split; [assumption|]. split; [assumption|]. split; [assumption|].
  split; [reflexivity|].
  exact (proj1 (X5_float_to_q31_defined (fun _ => 0) x H1 H2 H3)).
Defined.

(** X6: the Q31 code of a negative number. For every binary32 [x] of
    [-1, 0), the result of [float_to_q31] is not below [x * 2 ^ 31] and less
    than one unit and a half above it, and [q31_to_float] turns it into a
    number that is not below [x] and less than [3 * 2 ^ -32] above it. *)
Theorem X6_float_q31_float_neg (conv : spec_float -> Z) (x : spec_float) :
  is_b32 x = true -> is_finite x = true -> (-1 <= SF2Q x < 0)%Q ->
  (SF2Q x * 2147483648 <= inject_Z (float_to_q31 conv x)
   < SF2Q x * 2147483648 + (3 # 2))%Q /\
  (SF2Q x <= SF2Q (q31_to_float (float_to_q31 conv x))
   < SF2Q x + (3 # 4294967296))%Q.
Proof.
  intros Vx Fx Hx.
  destruct (float_to_q31_neg conv x Vx Fx Hx) as (E & B & Hb & Hs).
  destruct (q31_sum x Vx Fx ltac:(destruct Hx; split; lra)) as (_ & _ & Fs & Vs & _).
  cbv zeta in *. rewrite E.
  set (s := b32_add (b32_mul x (b32_of_Z 2147483648)) f_0_5) in *.
  split; [exact Hb|].
  destruct (q31_to_float_scaled (Qtrunc (SF2Q s)) ltac:(lia)) as (_ & _ & Es & _).
  rewrite Es, trunc_float_exact, F2Q_1_m31; try assumption.
  - destruct Hb. split; lra.
  - apply Qabs_le_iff. destruct Hs. split; lra.
Qed.

Lemma X6_float_q31_float_neg_witness :
  let x := S754_finite true 12582912 (-54) in
  is_b32 x = true /\ is_finite x = true /\ (-1 <= SF2Q x < 0)%Q /\
  (SF2Q x * 2147483648 == - (3 # 2))%Q /\
  float_to_q31 arm_conv x = -1 /\
  (SF2Q x <= SF2Q (q31_to_float (float_to_q31 arm_conv x))
   < SF2Q x + (3 # 4294967296))%Q.
Proof.
  intros x.
  assert (H1 : is_b32 x = true) by reflexivity.
  assert (H2 : is_finite x = true) by reflexivity.
  assert (H3 : (-1 <= SF2Q x < 0)%Q) by (split; vm_compute; [discriminate|reflexivity]).
  split; [assumption|]. split; [assumption|]. split; [assumption|].
  split; [vm_compute; reflexivity|]. split; [reflexivity|].
  exact (proj2 (X6_float_q31_float_neg arm_conv x H1 H2 H3)).
Defined.

(** X7: [float_to_q31] preserves the order. For binary32 numbers [x] and
    [y] of [-1, 1), [x <= y] implies [float_to_q31 x <= float_to_q31 y]. *)
Theorem X7_float_to_q31_monotone (conv : spec_float -> Z) (x y : spec_float) :
  is_b32 x = true -> is_finite x = true -> (-1 <= SF2Q x < 1)%Q ->
  is_b32 y = true -> is_finite y = true -> (-1 <= SF2Q y < 1)%Q ->
  (SF2Q x <= SF2Q y)%Q ->
  float_to_q31 conv x <= float_to_q31 conv y.
Proof.
  intros Vx Fx Hx Vy Fy Hy Hle.
  destruct (float_to_q31_in_range conv x Vx Fx Hx) as [-> _].
  destruct (float_to_q31_in_range conv y Vy Fy Hy) as [-> _].
  destruct (q31_sum x Vx Fx Hx) as (_ & _ & _ & _ & Rx & mx & ex & Ex).
  destruct (q31_sum y Vy Fy Hy) as (_ & _ & _ & _ & Ry & my & ey & Ey).
  cbv zeta in *. apply Qtrunc_mono.
  apply (rounds_to_mono _ _ _ _ mx ex my ey Rx Ry Ex Ey). lra.
Qed.

Lemma X7_float_to_q31_monotone_witness :
  let x := S754_finite true 8388608 (-24) in
  is_b32 x = true /\ (-1 <= SF2Q x < 1)%Q /\
  is_b32 f_0_25 = true /\ (-1 <= SF2Q f_0_25 < 1)%Q /\
  (SF2Q x <= SF2Q f_0_25)%Q /\
  float_to_q31 arm_conv x <= float_to_q31 arm_conv f_0_25.
Proof.
  intros x.
  assert (H1 : is_b32 x = true) by reflexivity.
  assert (H2 : is_finite x = true) by reflexivity.
  assert (H3 : (-1 <= SF2Q x < 1)%Q) by (split; vm_compute; [discriminate|reflexivity]).
  assert (H4 : is_b32 f_0_25 = true) by reflexivity.
  assert (H5 : is_finite f_0_25 = true) by reflexivity.
  assert (H6 : (-1 <= SF2Q f_0_25 < 1)%Q)
    by (split; vm_compute; [discriminate|reflexivity]).
  assert (H7 : (SF2Q x <= SF2Q f_0_25)%Q) by (vm_compute; discriminate).
  split; [assumption|]. split; [assumption|]. split; [assumption|].
  split; [assumption|]. split; [assumption|].
  exact (X7_float_to_q31_monotone arm_conv x f_0_25 H1 H2 H3 H4 H5 H6 H7).
Defined.

(** A positive number has one binary32 datum. *)
Lemma SF2Q_inj_pos (x y : spec_float) :
  is_b32 x = true -> is_b32 y = true ->
  (SF2Q x == SF2Q y)%Q -> (0 < SF2Q x)%Q -> x = y.
Proof.
  intros Vx Vy E Hp.
  assert (Hy : (0 < SF2Q y)%Q) by (rewrite <- E; assumption).
  assert (P : forall z, (0 < SF2Q z)%Q -> exists m e, z = S754_finite false m e).
  { intros [s|s| |s m e] H; cbn [SF2Q] in H; try (exfalso; lra).
    destruct s; [|exists m, e; reflexivity].
    exfalso. change (cond_Zopp true (Zpos m)) with (Zneg m) in H.
    assert (F2Q (Zneg m) e <= 0)%Q; [|lra].
    rewrite <- (F2Q_0 e). apply F2Q_le. lia. }
  destruct (P x Hp) as (m & e & ->). destruct (P y Hy) as (m' & e' & ->).
  cbn [SF2Q cond_Zopp] in E.
  apply is_b32_finite in Vx, Vy. destruct Vx as [Ux _], Vy as [Uy _].
  destruct (rnd_int_indep (Zpos m) e (Zpos m') e' ltac:(lia) E) as [_ Eu].
  assert (e = e') by congruence. subst e'.
  apply F2Q_inj in E. congruence.
Qed.

(** X9: [q31_to_float] preserves the order, and its values lie in
    [-1, 1]. For 32-bit signed integers [a <= b],
    [q31_to_float a <= q31_to_float b]. *)
Theorem X9_q31_to_float_monotone (a b : Z) :
  - 2 ^ 31 <= a -> a <= b -> b < 2 ^ 31 ->
  (SF2Q (q31_to_float a) <= SF2Q (q31_to_float b))%Q /\
  (-1 <= SF2Q (q31_to_float a))%Q /\ (SF2Q (q31_to_float b) <= 1)%Q.
Proof.
  intros Ha Hab Hb.
  assert (H127 : 2 ^ 31 < 2 ^ 127) by (apply Z.pow_lt_mono_r; lia).
  assert (R : forall c, - 2 ^ 31 <= c <= 2 ^ 31 ->
              rounds_to (F2Q c 0) (SF2Q (b32_of_Z c))).
  { intros c Hc. destruct (b32_of_Z_props c) as (_ & _ & R); [lia|].
    rewrite F2Q_Z. exact R. }
  assert (M : forall c d, - 2 ^ 31 <= c -> c <= d -> d <= 2 ^ 31 ->
              (SF2Q (b32_of_Z c) <= SF2Q (b32_of_Z d))%Q).
  { intros c d H1 H2 H3.
    apply (rounds_to_mono _ _ _ _ c 0 d 0 (R c ltac:(lia)) (R d ltac:(lia)));
      try reflexivity.
    apply F2Q_le. assumption. }
  destruct (q31_to_float_scaled a ltac:(lia)) as (_ & _ & Ea & _).
  destruct (q31_to_float_scaled b ltac:(lia)) as (_ & _ & Eb & _).
  rewrite Ea, Eb, F2Q_1_m31.
  pose proof (M a b ltac:(lia) ltac:(lia) ltac:(lia)) as H1.
  pose proof (M (- 2 ^ 31) a ltac:(lia) ltac:(lia) ltac:(lia)) as H2.
  pose proof (M b (2 ^ 31) ltac:(lia) ltac:(lia) ltac:(lia)) as H3.
  assert (E2 : (SF2Q (b32_of_Z (- 2 ^ 31)) == -2147483648)%Q) by (vm_compute; reflexivity).
  assert (E3 : (SF2Q (b32_of_Z (2 ^ 31)) == 2147483648)%Q) by (vm_compute; reflexivity).
  rewrite E2 in H2. rewrite E3 in H3.
  repeat split; lra.
Qed.

Lemma X9_q31_to_float_monotone_witness :
  - 2 ^ 31 <= 16777217 /\ 16777217 <= 16777218 /\ 16777218 < 2 ^ 31 /\
  (SF2Q (q31_to_float 16777217) <= SF2Q (q31_to_float 16777218))%Q.
Proof.
  assert (H1 : - 2 ^ 31 <= 16777217) by (vm_compute; discriminate).
  assert (H2 : 16777217 <= 16777218) by lia.
  assert (H3 : 16777218 < 2 ^ 31) by reflexivity.
  split; [assumption|]. split; [assumption|]. split; [assumption|].
  exact (proj1 (X9_q31_to_float_monotone 16777217 16777218 H1 H2 H3)).
Defined.

(** X10: the top of the Q31 range. [q31_to_float a] is below 1 for
    [a < 2 ^ 31 - 64] and is exactly [1.0F] for the 64 largest values of
    [a]; on [1.0F] the conversion of [float_to_q31] is out of range, so
    that the result is what the implementation delivers for
    [2147483648.0F]: [2147483647] on the ARM target. *)
Theorem X10_q31_to_float_top (conv : spec_float -> Z) (a : Z) :
  - 2 ^ 31 <= a < 2 ^ 31 ->
  (a < 2147483584 -> (SF2Q (q31_to_float a) < 1)%Q) /\
  (2147483584 <= a ->
   q31_to_float a = S754_finite false 8388608 (-23) /\
   float_to_q31 conv (q31_to_float a) = sext 32 (conv (b32_of_Z 2147483648)) /\
   float_to_q31 arm_conv (q31_to_float a) = 2147483647).
Proof.
  intros Ha.
  assert (H127 : 2 ^ 31 < 2 ^ 127) by (apply Z.pow_lt_mono_r; lia).
  assert (R : forall c, - 2 ^ 31 <= c <= 2 ^ 31 ->
              rounds_to (F2Q c 0) (SF2Q (b32_of_Z c))).
  { intros c Hc. destruct (b32_of_Z_props c) as (_ & _ & R); [lia|].
    rewrite F2Q_Z. exact R. }
  change (2 ^ 31) with 2147483648 in *.
  destruct (q31_to_float_scaled a ltac:(change (2 ^ 31) with 2147483648; lia))
    as (Fa & Va & Ea & _).
  rewrite F2Q_1_m31 in Ea. split.
  - intros Hlt.
    assert (H : (SF2Q (b32_of_Z a) <= SF2Q (b32_of_Z 2147483583))%Q).
    { apply (rounds_to_mono _ _ _ _ a 0 2147483583 0 (R a ltac:(lia)) (R 2147483583 ltac:(lia)));
        try reflexivity.
      apply F2Q_le. lia. }
    assert (E : (SF2Q (b32_of_Z 2147483583) == 2147483520)%Q) by (vm_compute; reflexivity).
    rewrite E in H. rewrite Ea. lra.
  - intros Hge.
    assert (H : (SF2Q (b32_of_Z 2147483584) <= SF2Q (b32_of_Z a))%Q).
    { apply (rounds_to_mono _ _ _ _ 2147483584 0 a 0 (R 2147483584 ltac:(lia)) (R a ltac:(lia)));
        try reflexivity.
      apply F2Q_le. lia. }
    assert (H' : (SF2Q (b32_of_Z a) <= SF2Q (b32_of_Z 2147483648))%Q).
    { apply (rounds_to_mono _ _ _ _ a 0 2147483648 0 (R a ltac:(lia)) (R 2147483648 ltac:(lia)));
        try reflexivity.
      apply F2Q_le. lia. }
    assert (E : (SF2Q (b32_of_Z 2147483584) == 2147483648)%Q) by (vm_compute; reflexivity).
    assert (E' : (SF2Q (b32_of_Z 2147483648) == 2147483648)%Q) by (vm_compute; reflexivity).
    rewrite E in H. rewrite E' in H'.
    assert (E1 : q31_to_float a = S754_finite false 8388608 (-23)).
    { apply SF2Q_inj_pos; [assumption|reflexivity| |]; rewrite Ea.
      - assert (Eo : (SF2Q (S754_finite false 8388608 (-23)) == 1)%Q)
          by (vm_compute; reflexivity).
        rewrite Eo. lra.
      - lra. }
    rewrite E1. repeat split; reflexivity.
Qed.

Lemma X10_q31_to_float_top_witness :
  - 2 ^ 31 <= 2147483584 < 2 ^ 31 /\
  q31_to_float 2147483584 = S754_finite false 8388608 (-23) /\
  float_to_q31 (fun _ => 7) (q31_to_float 2147483584) = 7 /\
  float_to_q31 arm_conv (q31_to_float 2147483584) = 2147483647.
Proof.
  assert (H : - 2 ^ 31 <= 2147483584 < 2 ^ 31) by (split; [vm_compute; discriminate|reflexivity]).
  assert (H' : 2147483584 <= 2147483584) by lia.
  split; [assumption|].
  exact (proj2 (X10_q31_to_float_top (fun _ => 7) 2147483584 H) H').
Defined.

(** X11: from Q31 to [float] and back. For every integer [a] of
    [- 2 ^ 23, 2 ^ 23), where the arithmetic is exact,
    [float_to_q31 (q31_to_float a)] is [a] when [a] is not negative and
    [a + 1] when it is. *)
Theorem X11_q31_float_q31 (conv : spec_float -> Z) (a : Z) :
  - 2 ^ 23 <= a < 2 ^ 23 ->
  float_to_q31 conv (q31_to_float a) = if a <? 0 then a + 1 else a.
Proof.
  intros Ha. change (2 ^ 23) with 8388608 in Ha.
  destruct (q31_to_float_scaled a ltac:(change (2 ^ 31) with 2147483648; lia))
    as (F & V & E & _).
  destruct (b32_of_Z_exact a ltac:(change (2 ^ 24) with 16777216; lia)) as (_ & _ & Ea).
  rewrite Ea, F2Q_1_m31 in E.
  assert (H1 : (inject_Z (-8388608) <= inject_Z a)%Q) by (apply inject_Z_le; lia).
  assert (H2 : (inject_Z a <= inject_Z 8388607)%Q) by (apply inject_Z_le; lia).
  change (inject_Z (-8388608)) with (-8388608)%Q in H1.
  change (inject_Z 8388607) with 8388607%Q in H2.
  assert (Hx : (-1 <= SF2Q (q31_to_float a) < 1)%Q) by (rewrite E; split; lra).
  destruct (float_to_q31_in_range conv _ V F Hx) as [-> _].
  destruct (q31_sum _ V F Hx) as (_ & _ & _ & _ & R & _). cbv zeta in R.
  assert (Ev : (SF2Q (q31_to_float a) * 2147483648 + (1 # 2) == F2Q (2 * a + 1) (-1))%Q).
  { rewrite E, <- F2Q_add, F2Q_half.
    replace (2 * a) with (a * 2 ^ 1) by (change (2 ^ 1) with 2; lia).
    rewrite F2Q_shift by lia. replace (-1 + 1) with 0 by lia. rewrite F2Q_Z.
    field. }
  rewrite (Qtrunc_Proper _ _ (rounds_to_exact _ _ _ _ R Ev
             ltac:(change (2 ^ 24) with 16777216; lia) ltac:(lia))).
  rewrite <- (Qtrunc_half_up a). apply Qtrunc_Proper. rewrite E. field.
Qed.

Lemma X11_q31_float_q31_witness :
  - 2 ^ 23 <= -5 < 2 ^ 23 /\
  float_to_q31 arm_conv (q31_to_float (-5)) = -4.
Proof.
  assert (H : - 2 ^ 23 <= -5 < 2 ^ 23) by (split; [vm_compute; discriminate|reflexivity]).
  split; [assumption|]. exact (X11_q31_float_q31 arm_conv (-5) H).
Defined.

(** ** The order on Q15 *)

Lemma float_to_q15_in_range (conv : spec_float -> Z) (x : spec_float) :
  is_b32 x = true -> is_finite x = true -> (-1 <= SF2Q x < 65535 # 65536)%Q ->
  float_to_q15 conv x = Qtrunc (SF2Q (b32_add (b32_mul x (b32_of_Z 32768)) f_0_5)) /\
  -32768 <= Qtrunc (SF2Q (b32_add (b32_mul x (b32_of_Z 32768)) f_0_5)) <= 32767.
Proof.
  intros Vx Fx [H0 H1].
  assert (G : -32768 <= Qtrunc (SF2Q (b32_add (b32_mul x (b32_of_Z 32768)) f_0_5))
              <= 32767 /\
              is_finite (b32_add (b32_mul x (b32_of_Z 32768)) f_0_5) = true).
  { destruct (spec_float_eq_dec x q15_tie) as [->|Hne].
    - split; [vm_compute; split; discriminate|reflexivity].
    - destruct (float_to_q15_sum x Vx Fx ltac:(split; lra) Hne) as (Fs & Et).
      cbv zeta in *. rewrite Et. split; [|assumption].
      pose proof (Qtrunc_range (SF2Q x * 32768 + (1 # 2)) (-32768) 32768) as Hr.
      change (inject_Z (-32768)) with (-32768)%Q in Hr.
      change (inject_Z 32768) with 32768%Q in Hr.
      specialize (Hr ltac:(lra) ltac:(lra) ltac:(lia) ltac:(lia)).
      pose proof (Qtrunc_lt (SF2Q x * 32768 + (1 # 2)) 32768) as Hl.
      change (inject_Z 32768) with 32768%Q in Hl.
      specialize (Hl ltac:(lra) ltac:(lia)). lia. }
  destruct G as [G F]. split; [|exact G].
  unfold float_to_q15. apply fptosi_defined; [assumption|].
  unfold int_min, int_max. change (2 ^ (16 - 1)) with 32768. lia.
Qed.

(** X8: [float_to_q15] preserves the order. For binary32 numbers [x] and
    [y] of [-1, 1 - 2 ^ -16), where the conversion to [int16_t] is in
    range, [x <= y] implies [float_to_q15 x <= float_to_q15 y]. *)
Theorem X8_float_to_q15_monotone (conv : spec_float -> Z) (x y : spec_float) :
  is_b32 x = true -> is_finite x = true -> (-1 <= SF2Q x < 65535 # 65536)%Q ->
  is_b32 y = true -> is_finite y = true -> (-1 <= SF2Q y < 65535 # 65536)%Q ->
  (SF2Q x <= SF2Q y)%Q ->
  float_to_q15 conv x <= float_to_q15 conv y.
Proof.
  intros Vx Fx Hx Vy Fy Hy Hle.
  destruct (float_to_q15_in_range conv x Vx Fx Hx) as [-> _].
  destruct (float_to_q15_in_range conv y Vy Fy Hy) as [-> _].
  assert (S : forall z, is_b32 z = true -> is_finite z = true ->
              (-1 <= SF2Q z < 65535 # 65536)%Q ->
              rounds_to (SF2Q z * 32768 + (1 # 2))
                        (SF2Q (b32_add (b32_mul z (b32_of_Z 32768)) f_0_5)) /\
              exists m e, (SF2Q z * 32768 + (1 # 2) == F2Q m e)%Q).
  { intros z Vz Fz [Z0 Z1].
    destruct (biased_product z (b32_of_Z 32768) 15 Fz Vz eq_refl eq_refl
                SF2Q_2p15 ltac:(lia)) as (_ & R).
    { apply Qabs_Qlt_condition. split; lra. }
    cbv zeta in R. rewrite F2Q_1_15 in R. split; [exact R|].
    destruct (SF2Q_repr24 z Vz) as (m & e & Ez & _).
    destruct (F2Q_add_repr m (e + 15) 1 (-1)) as (mv & ev & Ev).
    exists mv, ev. rewrite <- Ev, F2Q_half, Ez, F2Q_scale, F2Q_1_15. reflexivity. }
  destruct (S x Vx Fx Hx) as (Rx & mx & ex & Ex).
  destruct (S y Vy Fy Hy) as (Ry & my & ey & Ey).
  apply Qtrunc_mono.
  apply (rounds_to_mono _ _ _ _ mx ex my ey Rx Ry Ex Ey). lra.
Qed.

Lemma X8_float_to_q15_monotone_witness :
  is_b32 q15_tie = true /\ (-1 <= SF2Q q15_tie < 65535 # 65536)%Q /\
  is_b32 f_0_25 = true /\ (-1 <= SF2Q f_0_25 < 65535 # 65536)%Q /\
  (SF2Q q15_tie <= SF2Q f_0_25)%Q /\
  float_to_q15 arm_conv q15_tie <= float_to_q15 arm_conv f_0_25.
Proof.
  assert (H1 : is_b32 q15_tie = true) by reflexivity.
  assert (H2 : is_finite q15_tie = true) by reflexivity.
  assert (H3 : (-1 <= SF2Q q15_tie < 65535 # 65536)%Q)
    by (split; vm_compute; [discriminate|reflexivity]).
  assert (H4 : is_b32 f_0_25 = true) by reflexivity.
  assert (H5 : is_finite f_0_25 = true) by reflexivity.
  assert (H6 : (-1 <= SF2Q f_0_25 < 65535 # 65536)%Q)
    by (split; vm_compute; [discriminate|reflexivity]).
  assert (H7 : (SF2Q q15_tie <= SF2Q f_0_25)%Q) by (vm_compute; discriminate).
  split; [assumption|]. split; [assumption|]. split; [assumption|].
  split; [assumption|]. split; [assumption|].
  exact (X8_float_to_q15_monotone arm_conv q15_tie f_0_25 H1 H2 H3 H4 H5 H6 H7).
Defined.

(** ** The decimals of [float_to_string] *)

(** The thousandths of the fractional part, before the rounding of the
    product: a dyadic number below 1000. *)
Lemma thousandths_repr (x : spec_float) :
  is_finite x = true -> is_b32 x = true ->
  exists mt et,
    ((Qabs (SF2Q x) - inject_Z (Qfloor (Qabs (SF2Q x)))) * 1000 == F2Q mt et)%Q /\
    0 <= mt < 2 ^ (10 - et) /\ et <= 0.
Proof.
  intros Fx Vx. destruct x as [s|s| |s m e]; try discriminate.
  - exists 0, 0. cbn [SF2Q]. change (Qabs 0) with 0%Q. change (Qfloor 0) with 0.
    rewrite F2Q_0. split; [ring|cbn; lia].
  - pose proof (is_b32_bounds _ _ _ Vx) as (Bm & Be & _).
    assert (Ea : (Qabs (SF2Q (S754_finite s m e)) == F2Q (Zpos m) e)%Q).
    { cbn [SF2Q]. rewrite F2Q_abs. destruct s; reflexivity. }
    destruct (frac_repr m e ltac:(lia) Bm) as (_ & _ & mf & ef & Ef & Bmf & Bef & Bmf' & _).
    cbv zeta in Ef. exists (mf * 1000), ef. split; [|split; [|lia]].
    + rewrite (Qfloor_comp _ _ Ea), Ea, Ef. unfold F2Q. rewrite inject_Z_mult. ring.
    + replace (10 - ef) with (10 + - ef) by lia.
      rewrite pow2_split by lia. change (2 ^ 10) with 1024. lia.
Qed.

(** X12: the number that [float_to_string] writes. For every finite input
    of magnitude below [2 ^ 31] and a [buf_size] of 16 to 255, the
    string is the sign, the integral part of the magnitude and three
    decimals [dp]; the number written, [ip + dp / 1000], is above the
    magnitude minus one thousandth and exceeds the magnitude by at most
    [2 ^ -15] thousandths (the rounding of the product by 1000). *)
Theorem X12_float_to_string_accuracy (conv : spec_float -> Z) (buf : string) (size : Z)
                                 (x : spec_float) :
  is_b32 x = true -> is_finite x = true ->
  (Qabs (SF2Q x) < 2147483648)%Q -> 16 <= size <= 255 ->
  exists ip dp,
    float_to_string conv buf size x =
      sign_text x ++ print_uint ip ++ String "." (fmt_03d dp) /\
    ip = Qfloor (Qabs (SF2Q x)) /\ 0 <= dp <= 999 /\
    (Qabs (SF2Q x) - (1 # 1000) < inject_Z ip + inject_Z dp / 1000
     <= Qabs (SF2Q x) + (1 # 32768000))%Q.
Proof.
  intros Vx Fx Hb Hs.
  rewrite float_to_string_complete by assumption.
  destruct (float_text_inrange conv x Fx Vx Hb) as (ip & dp & r & E & Eip & Hip & R & Edp & Hdp).
  destruct (thousandths_repr x Fx Vx) as (mt & et & Et & Bmt & Bet).
  rewrite <- Eip in Et.
  exists ip, dp. split; [exact E|]. split; [exact Eip|]. split; [exact Hdp|].
  set (t := ((Qabs (SF2Q x) - inject_Z ip) * 1000)%Q) in *.
  pose proof (rounds_to_error _ _ mt et (10 - et) R Et ltac:(lia) ltac:(lia)) as Herr.
  replace (Z.max (10 - et + et - 24) (-149) - 1) with (-15) in Herr by lia.
  rewrite F2Q_pow2_m15 in Herr. apply Qabs_le_iff in Herr.
  pose proof (Qfloor_bounds r) as [B1 B2]. rewrite <- Edp in B1, B2.
  assert (Hup : (t < inject_Z dp + 1)%Q).
  { destruct (Qlt_le_dec t (inject_Z dp + 1)) as [|Hge]; [assumption|exfalso].
    destruct (b32_of_Z_exact (dp + 1)) as (_ & Vg & Eg).
    { change (2 ^ 24) with 16777216. lia. }
    rewrite inject_Z_plus in Eg. change (inject_Z 1) with 1%Q in Eg.
    rewrite <- Eg in Hge.
    pose proof (rounds_to_ge_float _ _ mt et _ R Et Vg Hge) as H.
    rewrite Eg in H. lra. }
  assert (Hfr : (inject_Z dp / 1000 == inject_Z dp * (1 # 1000))%Q) by reflexivity.
  rewrite Hfr. unfold t in *. destruct Herr. split; lra.
Qed.

Lemma X12_float_to_string_accuracy_witness :
  let x := S754_finite true 13421773 (-27) in
  is_b32 x = true /\ is_finite x = true /\
  (Qabs (SF2Q x) < 2147483648)%Q /\ 16 <= STRING_BUF_SIZE <= 255 /\
  float_to_string arm_conv EmptyString STRING_BUF_SIZE x = "-0.100" /\
  exists ip dp,
    float_to_string arm_conv EmptyString STRING_BUF_SIZE x =
      sign_text x ++ print_uint ip ++ String "." (fmt_03d dp) /\
    ip = Qfloor (Qabs (SF2Q x)) /\ 0 <= dp <= 999 /\
    (Qabs (SF2Q x) - (1 # 1000) < inject_Z ip + inject_Z dp / 1000
     <= Qabs (SF2Q x) + (1 # 32768000))%Q.
Proof.
  intros x.
  assert (H1 : is_b32 x = true) by reflexivity.
  assert (H2 : is_finite x = true) by reflexivity.
  assert (H3 : (Qabs (SF2Q x) < 2147483648)%Q) by (vm_compute; reflexivity).
  assert (H4 : 16 <= STRING_BUF_SIZE <= 255) by (unfold STRING_BUF_SIZE; lia).
  split; [assumption|]. split; [assumption|]. split; [assumption|].
  split; [assumption|]. split; [reflexivity|].
  exact (X12_float_to_string_accuracy arm_conv EmptyString STRING_BUF_SIZE x H1 H2 H3 H4).
Defined.

Lemma F2Q_one_33 : (1 == F2Q 8589934592 (-33))%Q.
Proof. vm_compute. reflexivity. Qed.

(** Below a thousandth the product by 1000 stays below 1. *)
Lemma tiny_product (m : positive) (e : Z) :
  Zpos m < 2 ^ 24 -> -149 <= e -> (F2Q (Zpos m) e < 1 # 1000)%Q ->
  (F2Q (Zpos m * 1000) e <= F2Q 16777215 (-24))%Q.
Proof.
  intros Bm Be Hlt. change (2 ^ 24) with 16777216 in Bm.
  destruct (Z_le_gt_dec (-33) e) as [Hc|Hc].
  - assert (H1 : (F2Q (Zpos m) e * 1000 < 1)%Q) by lra.
    assert (E1 : (F2Q (Zpos m) e * 1000 == F2Q (Zpos m * 1000 * 2 ^ (e - -33)) (-33))%Q).
    { rewrite <- (F2Q_align (Zpos m * 1000) (-33) e) by lia.
      unfold F2Q. rewrite inject_Z_mult. ring. }
    rewrite E1, F2Q_one_33 in H1. apply F2Q_lt in H1.
    rewrite (F2Q_align (Zpos m * 1000) (-33) e), (F2Q_align 16777215 (-33) (-24)) by lia.
    apply F2Q_le. change (16777215 * 2 ^ (-24 - -33)) with 8589934080.
    pose proof (pow2_pos (e - -33) ltac:(lia)).
    set (K := Zpos m * 2 ^ (e - -33)) in *.
    replace (Zpos m * 1000 * 2 ^ (e - -33)) with (1000 * K) in * by (unfold K; ring).
    lia.
  - rewrite (F2Q_align 16777215 e (-24)) by lia. apply F2Q_le.
    assert (1024 <= 2 ^ (-24 - e)).
    { change 1024 with (2 ^ 10). apply Z.pow_le_mono_r; lia. }
    nia.
Qed.

(** X13: below a thousandth only the sign is left. For every finite input
    of magnitude below [1 / 1000] and a [buf_size] of 16 to 255,
    [float_to_string] yields "0.000", with the marker "-" in front when the
    input is negative: a negative number can be written "-0.000". *)
Theorem X13_float_to_string_tiny (conv : spec_float -> Z) (buf : string) (size : Z)
                             (x : spec_float) :
  is_b32 x = true -> is_finite x = true ->
  (Qabs (SF2Q x) < 1 # 1000)%Q -> 16 <= size <= 255 ->
  float_to_string conv buf size x =
    if b32_ltb x (b32_of_Z 0) then "-0.000" else "0.000".
Proof.
  intros Vx Fx Hx Hs.
  assert (Hb : (Qabs (SF2Q x) < 2147483648)%Q) by (eapply Qlt_trans; [exact Hx|reflexivity]).
  rewrite float_to_string_complete by assumption.
  destruct (float_text_inrange conv x Fx Vx Hb) as (ip & dp & r & E & Eip & Hip & R & Edp & Hdp).
  pose proof (Qabs_nonneg (SF2Q x)) as H0.
  assert (Hip0 : ip = 0).
  { subst ip. apply Qfloor_unique; change (inject_Z 0) with 0%Q;
      change (inject_Z (0 + 1)) with 1%Q; lra. }
  subst ip. rewrite Hip0 in *. clear Hip0.
  assert (Hr : (0 <= r <= F2Q 16777215 (-24))%Q).
  { destruct x as [s|s| |s m e]; try discriminate.
    - cbn [SF2Q] in R. change (Qabs 0) with 0%Q in R.
      assert (E0 : ((0 - inject_Z 0) * 1000 == 0)%Q) by reflexivity.
      rewrite E0 in R. rewrite (rounds_to_0 r R). split; [lra|].
      apply F2Q_nonneg. lia.
    - pose proof (is_b32_bounds _ _ _ Vx) as (Bm & Be & _).
      assert (Ea : (Qabs (SF2Q (S754_finite s m e)) == F2Q (Zpos m) e)%Q).
      { cbn [SF2Q]. rewrite F2Q_abs. destruct s; reflexivity. }
      rewrite Ea in R, Hx.
      assert (Et : ((F2Q (Zpos m) e - inject_Z 0) * 1000 == F2Q (Zpos m * 1000) e)%Q).
      { unfold F2Q. rewrite inject_Z_mult. change (inject_Z 0) with 0%Q. ring. }
      pose proof (tiny_product m e Bm ltac:(lia) Hx) as Ht.
      split.
      + change 0%Q with (SF2Q (S754_zero false)).
        apply (rounds_to_ge_float _ _ _ _ (S754_zero false) R Et eq_refl).
        cbn [SF2Q]. rewrite Et. apply F2Q_nonneg. lia.
      + change (F2Q 16777215 (-24)) with (SF2Q (S754_finite false 16777215 (-24))).
        apply (rounds_to_le_float _ _ _ _ (S754_finite false 16777215 (-24)) R Et eq_refl).
        cbn [SF2Q cond_Zopp]. rewrite Et. exact Ht. }
  assert (Hdp0 : dp = 0).
  { subst dp. apply Qfloor_unique; change (inject_Z 0) with 0%Q;
      change (inject_Z (0 + 1)) with 1%Q; [lra|].
    destruct Hr as [_ Hr]. eapply Qle_lt_trans; [exact Hr|]. vm_compute. reflexivity. }
  rewrite E, Hdp0. unfold sign_text. destruct (b32_ltb x (b32_of_Z 0)); reflexivity.
Qed.

Lemma X13_float_to_string_tiny_witness :
  let x := S754_finite true 8589934 (-33) in
  is_b32 x = true /\ is_finite x = true /\
  (Qabs (SF2Q x) < 1 # 1000)%Q /\ 16 <= STRING_BUF_SIZE <= 255 /\
  float_to_string arm_conv EmptyString STRING_BUF_SIZE x = "-0.000".
Proof.
  intros x.
  assert (H1 : is_b32 x = true) by reflexivity.
  assert (H2 : is_finite x = true) by reflexivity.
  assert (H3 : (Qabs (SF2Q x) < 1 # 1000)%Q) by (vm_compute; reflexivity).
  assert (H4 : 16 <= STRING_BUF_SIZE <= 255) by (unfold STRING_BUF_SIZE; lia).
  split; [assumption|]. split; [assumption|]. split; [assumption|].
  split; [assumption|].
  exact (X13_float_to_string_tiny arm_conv EmptyString STRING_BUF_SIZE x H1 H2 H3 H4).
Defined.

(** ** The length of the text *)

Lemma print_uint_nonempty (n : Z) : (1 <= String.length (print_uint n))%nat.
Proof.
  unfold print_uint. cbn [dec_digits].
  destruct (n <? 10); [cbn; lia|]. rewrite length_app. cbn. lia.
Qed.

(** X15: the length of the text. For every finite input of magnitude
    below [2 ^ 31] the complete text has between 5 and 15 characters, and
    with a [buf_size] of 16 to 255 the buffer holds it whole; with a
    [buf_size] of 15 it does not hold the text of every such input. *)
Theorem X15_float_text_length (conv : spec_float -> Z) (x : spec_float) :
  is_b32 x = true -> is_finite x = true ->
  (Qabs (SF2Q x) < 2147483648)%Q ->
  (5 <= String.length (float_text conv x) <= 15)%nat /\
  (forall buf size, 16 <= size <= 255 ->
     float_to_string conv buf size x = float_text conv x) /\
  (exists y, is_b32 y = true /\ is_finite y = true /\
             (Qabs (SF2Q y) < 2147483648)%Q /\
             String.length (float_text conv y) = 15%nat /\
             forall buf, float_to_string conv buf 15 y <> float_text conv y).
Proof.
  intros Vx Fx Hb. split; [|split].
  - split; [|apply float_text_length; assumption].
    destruct (float_text_inrange conv x Fx Vx Hb) as (ip & dp & r & E & _ & _ & _ & _ & Hdp).
    rewrite E, !length_app. cbn [String.length].
    rewrite fmt_03d_length by assumption.
    pose proof (print_uint_nonempty ip). lia.
  - intros buf size Hs. apply float_to_string_complete; assumption.
  - exists (S754_finite true 16777215 7).
    split; [reflexivity|]. split; [reflexivity|].
    split; [vm_compute; reflexivity|]. split; [vm_compute; reflexivity|].
    intros buf. vm_compute. discriminate.
Qed.

Lemma X15_float_text_length_witness :
  is_b32 f_0_25 = true /\ is_finite f_0_25 = true /\
  (Qabs (SF2Q f_0_25) < 2147483648)%Q /\
  (5 <= String.length (float_text arm_conv f_0_25) <= 15)%nat.
Proof.
  assert (H1 : is_b32 f_0_25 = true) by reflexivity.
  assert (H2 : is_finite f_0_25 = true) by reflexivity.
  assert (H3 : (Qabs (SF2Q f_0_25) < 2147483648)%Q) by (vm_compute; reflexivity).
  split; [assumption|]. split; [assumption|]. split; [assumption|].
  exact (proj1 (X15_float_text_length arm_conv f_0_25 H1 H2 H3)).
Defined.

(** ** The driver *)

(** In its range the text does not depend on what an out-of-range
    conversion would deliver. *)
Lemma float_text_conv_indep (conv conv' : spec_float -> Z) (x : spec_float) :
  is_finite x = true -> is_b32 x = true ->
  (Qabs (SF2Q x) < 2147483648)%Q ->
  float_text conv x = float_text conv' x.
Proof.
  intros Fx Vx Hb.
  destruct (magnitude_props x Fx Vx) as (Fm & Vm & Em).
  assert (H0 : (0 <= SF2Q (magnitude x))%Q) by (rewrite Em; apply Qabs_nonneg).
  assert (H1 : (SF2Q (magnitude x) < 2147483648)%Q) by (rewrite Em; assumption).
  destruct (split_number conv (magnitude x) Fm Vm H0 H1) as (E1 & _ & _ & _ & E3 & _).
  destruct (split_number conv' (magnitude x) Fm Vm H0 H1) as (E1' & _ & _ & _ & E3' & _).
  cbv zeta in *. rewrite !float_text_unfold.
  rewrite E3, E3', E1, E1'. reflexivity.
Qed.

(** X16: no conversion of [main] is out of range. Whatever the hardware
    operation returns, the characters that [main] sends are the same for
    every treatment of out-of-range conversions and for every initial
    content of the buffer. *)
Theorem X16_main_defined (conv conv' : spec_float -> Z) (hw : Z -> Z)
                     (result : Z) (buf buf' : string) :
  main conv hw result buf = main conv' hw result buf'.
Proof.
  unfold main. destruct (negb (result =? CY_RSLT_SUCCESS)); [reflexivity|].
  cbv zeta.
  replace (float_to_q31 conv INPUT_NUM) with 536870912 by (vm_compute; reflexivity).
  replace (float_to_q31 conv' INPUT_NUM) with 536870912 by (vm_compute; reflexivity).
  set (h := sext 32 (hw 536870912)).
  assert (Hh : - 2 ^ 31 <= h < 2 ^ 31).
  { pose proof (sext_range 32 (hw 536870912) ltac:(lia)) as H.
    unfold int_min, int_max in H. change (32 - 1) with 31 in H. fold h in H. lia. }
  destruct (q31_to_float_scaled h Hh) as (Hf & Hv & _ & Hb).
  assert (Hb' : (Qabs (SF2Q (q31_to_float h)) < 2147483648)%Q).
  { eapply Qlt_trans; [exact Hb|]. reflexivity. }
  rewrite !(float_to_string_complete _ _ STRING_BUF_SIZE (q31_to_float h))
    by (try assumption; unfold STRING_BUF_SIZE; lia).
  rewrite (float_text_conv_indep conv conv' _ Hf Hv Hb').
  replace (float_to_string conv (float_text conv' (q31_to_float h))
             STRING_BUF_SIZE (b32_sqrt INPUT_NUM))
    with "0.500" by (vm_compute; reflexivity).
  replace (float_to_string conv' (float_text conv' (q31_to_float h))
             STRING_BUF_SIZE (b32_sqrt INPUT_NUM))
    with "0.500" by (vm_compute; reflexivity).
  reflexivity.
Qed.

(** ** The line of the hardware result *)

Lemma q31_to_float_range (a : Z) :
  - 2 ^ 31 <= a < 2 ^ 31 -> (Qabs (SF2Q (q31_to_float a)) <= 1)%Q.
Proof.
  intros Ha.
  assert (H127 : 2 ^ 31 < 2 ^ 127) by (apply Z.pow_lt_mono_r; lia).
  assert (R : forall c, - 2 ^ 31 <= c <= 2 ^ 31 ->
              rounds_to (F2Q c 0) (SF2Q (b32_of_Z c))).
  { intros c Hc. destruct (b32_of_Z_props c) as (_ & _ & R); [lia|].
    rewrite F2Q_Z. exact R. }
  destruct (q31_to_float_scaled a Ha) as (_ & _ & Ea & _).
  rewrite Ea, F2Q_1_m31.
  assert (H1 : (SF2Q (b32_of_Z (- 2 ^ 31)) <= SF2Q (b32_of_Z a))%Q).
  { apply (rounds_to_mono _ _ _ _ (- 2 ^ 31) 0 a 0
             (R (- 2 ^ 31) ltac:(lia)) (R a ltac:(lia))); try reflexivity.
    apply F2Q_le. lia. }
  assert (H2 : (SF2Q (b32_of_Z a) <= SF2Q (b32_of_Z (2 ^ 31)))%Q).
  { apply (rounds_to_mono _ _ _ _ a 0 (2 ^ 31) 0
             (R a ltac:(lia)) (R (2 ^ 31) ltac:(lia))); try reflexivity.
    apply F2Q_le. lia. }
  assert (E1 : (SF2Q (b32_of_Z (- 2 ^ 31)) == -2147483648)%Q) by (vm_compute; reflexivity).
  assert (E2 : (SF2Q (b32_of_Z (2 ^ 31)) == 2147483648)%Q) by (vm_compute; reflexivity).
  rewrite E1 in H1. rewrite E2 in H2.
  apply Qabs_le_iff. split; lra.
Qed.

(** X17: what [main] prints of the hardware result. For every 32-bit
    result [h] and a [buf_size] of 16 to 255 (32 in [main]), the string
    that [float_to_string] makes of [q31_to_float h] is "0." and three
    decimals, or "1.000", after the marker "-" when [h] is negative. *)
Theorem X17_q31_text (conv : spec_float -> Z) (buf : string) (size h : Z) :
  - 2 ^ 31 <= h < 2 ^ 31 -> 16 <= size <= 255 ->
  exists dp, 0 <= dp <= 999 /\
    (float_to_string conv buf size (q31_to_float h) =
       sign_text (q31_to_float h) ++ "0." ++ fmt_03d dp \/
     float_to_string conv buf size (q31_to_float h) =
       sign_text (q31_to_float h) ++ "1.000").
Proof.
  intros Hh Hs.
  destruct (q31_to_float_scaled h Hh) as (Fx & Vx & _ & _).
  pose proof (q31_to_float_range h Hh) as H1.
  set (x := q31_to_float h) in *.
  assert (Hb : (Qabs (SF2Q x) < 2147483648)%Q) by (eapply Qle_lt_trans; [exact H1|reflexivity]).
  rewrite float_to_string_complete by assumption.
  destruct (float_text_inrange conv x Fx Vx Hb) as (ip & dp & r & E & Eip & Hip & R & Edp & Hdp).
  pose proof (Qabs_nonneg (SF2Q x)) as H0.
  destruct (Qlt_le_dec (Qabs (SF2Q x)) 1) as [Hlt|Hge].
  - assert (Hip0 : ip = 0).
    { subst ip. apply Qfloor_unique; change (inject_Z 0) with 0%Q;
        change (inject_Z (0 + 1)) with 1%Q; lra. }
    exists dp. split; [assumption|]. left. rewrite E, Hip0. reflexivity.
  - assert (E1 : (Qabs (SF2Q x) == 1)%Q) by lra.
    assert (Hip1 : ip = 1).
    { subst ip. rewrite (Qfloor_comp _ _ E1). reflexivity. }
    assert (Et : ((Qabs (SF2Q x) - inject_Z ip) * 1000 == 0)%Q).
    { rewrite E1, Hip1. reflexivity. }
    rewrite Et in R. pose proof (rounds_to_0 r R) as Er.
    assert (Hdp0 : dp = 0).
    { subst dp. rewrite (Qfloor_comp _ _ Er). reflexivity. }
    exists 0. split; [lia|]. right. rewrite E, Hip1, Hdp0. reflexivity.
Qed.

Lemma X17_q31_text_witness :
  - 2 ^ 31 <= -1073741824 < 2 ^ 31 /\ 16 <= STRING_BUF_SIZE <= 255 /\
  float_to_string arm_conv EmptyString STRING_BUF_SIZE (q31_to_float (-1073741824))
    = "-0.500" /\
  exists dp, 0 <= dp <= 999 /\
    (float_to_string arm_conv EmptyString STRING_BUF_SIZE (q31_to_float (-1073741824)) =
       sign_text (q31_to_float (-1073741824)) ++ "0." ++ fmt_03d dp \/
     float_to_string arm_conv EmptyString STRING_BUF_SIZE (q31_to_float (-1073741824)) =
       sign_text (q31_to_float (-1073741824)) ++ "1.000").
Proof.
  assert (H1 : - 2 ^ 31 <= -1073741824 < 2 ^ 31)
    by (split; [vm_compute; discriminate|reflexivity]).
  assert (H2 : 16 <= STRING_BUF_SIZE <= 255) by (unfold STRING_BUF_SIZE; lia).
  split; [assumption|]. split; [assumption|]. split; [reflexivity|].
  exact (X17_q31_text arm_conv EmptyString STRING_BUF_SIZE (-1073741824) H1 H2).
Defined.

(** ** Beyond the range of [int], on the ARM target *)

Lemma zeros_length (k : nat) : String.length (zeros k) = k.
Proof. induction k as [|k IH]; [reflexivity|]. cbn [zeros String.length]. rewrite IH. reflexivity. Qed.

Lemma fmt_03d_length_le (d : Z) :
  0 <= d < 10 ^ 10 -> (String.length (fmt_03d d) <= 10)%nat.
Proof.
  intros Hd. unfold fmt_03d.
  replace (d <? 0) with false by (symmetry; apply Z.ltb_ge; lia).
  rewrite length_app, zeros_length.
  pose proof (print_uint_length d Hd). lia.
Qed.

Lemma magnitude_nonneg (x : spec_float) :
  x <> S754_nan -> nonneg_float (magnitude x) = true.
Proof.
  intros Hn. unfold magnitude.
  destruct x as [s|s| |s m e]; try congruence; destruct s; reflexivity.
Qed.

Lemma magnitude_b32 (x : spec_float) :
  is_b32 x = true -> is_b32 (magnitude x) = true.
Proof.
  intros Vx. unfold magnitude.
  destruct x as [s|s| |s m e]; try reflexivity; destruct s; try reflexivity; exact Vx.
Qed.

(** X18: beyond the range of [int]. With the saturating conversion of the
    ARM target, for every input that is infinite or of magnitude [2 ^ 31]
    or more, the integral part that [float_to_string] writes is
    [2147483647], after the marker "-" when the input is negative; the
    buffer of 32 characters of [main] holds the whole text. *)
Theorem X18_float_to_string_saturates (buf : string) (x : spec_float) :
  is_b32 x = true -> x <> S754_nan ->
  is_finite x = false \/ (2147483648 <= Qabs (SF2Q x))%Q ->
  exists dp, 0 <= dp <= 2147483647 /\
    float_to_string arm_conv buf STRING_BUF_SIZE x =
      sign_text x ++ "2147483647." ++ fmt_03d dp.
Proof.
  intros Vx Hn Hbig.
  pose proof (magnitude_nonneg x Hn) as Nm.
  pose proof (magnitude_b32 x Vx) as Vm.
  destruct (float_text_arm_digits (magnitude x) Vm Nm) as [_ Hdp].
  destruct (fptosi_arm_nonneg (magnitude x) Nm) as [_ Hsat].
  assert (Hip : fptosi arm_conv 32 (magnitude x) = 2147483647).
  { apply Hsat. destruct Hbig as [Hinf|Hbig].
    - left. destruct x as [s|s| |s m e]; try discriminate; try congruence.
      destruct s; reflexivity.
    - right. destruct (is_finite x) eqn:Fx.
      + destruct (magnitude_props x Fx Vx) as (Fm & _ & Em).
        exists (Qtrunc (SF2Q (magnitude x))). split; [apply SFtrunc_spec, Fm|].
        rewrite Em. pose proof (Qabs_nonneg (SF2Q x)).
        rewrite Qtrunc_nonneg by assumption.
        assert (2147483648 <= Qfloor (Qabs (SF2Q x))); [|lia].
        apply Qfloor_ge. exact Hbig.
      + exfalso. destruct x as [s|s| |s m e]; try discriminate; try congruence.
        cbn [SF2Q] in Hbig. revert Hbig. vm_compute. intros H. apply H. reflexivity. }
  set (dp := fptosi arm_conv 32
               (b32_mul (b32_sub (magnitude x) (b32_of_Z (fptosi arm_conv 32 (magnitude x))))
                        (b32_of_Z 1000))) in *.
  assert (Hdp' : dp <= 2147483647).
  { pose proof (fptosi_range arm_conv 32
       (b32_mul (b32_sub (magnitude x) (b32_of_Z (fptosi arm_conv 32 (magnitude x))))
                (b32_of_Z 1000)) ltac:(lia)) as H.
    rewrite int_max_32 in H. fold dp in H. lia. }
  exists dp. split; [lia|].
  assert (Et : float_text arm_conv x = sign_text x ++ "2147483647." ++ fmt_03d dp).
  { rewrite float_text_unfold. fold dp. rewrite Hip. reflexivity. }
  unfold float_to_string. change (uint8 STRING_BUF_SIZE) with 32.
  rewrite Et. apply snprintf_fits.
  rewrite !length_app.
  pose proof (sign_text_length x).
  pose proof (fmt_03d_length_le dp ltac:(change (10 ^ 10) with 10000000000; lia)).
  change (String.length "2147483647.") with 11%nat. lia.
Qed.

Lemma X18_float_to_string_saturates_witness :
  let x := S754_finite true 8388609 8 in
  is_b32 x = true /\ x <> S754_nan /\ (2147483648 <= Qabs (SF2Q x))%Q /\
  float_to_string arm_conv EmptyString STRING_BUF_SIZE x = "-2147483647.256000" /\
  exists dp, 0 <= dp <= 2147483647 /\
    float_to_string arm_conv EmptyString STRING_BUF_SIZE x =
      sign_text x ++ "2147483647." ++ fmt_03d dp.
Proof.
  intros x.
  assert (H1 : is_b32 x = true) by reflexivity.
  assert (H2 : x <> S754_nan) by discriminate.
  assert (H3 : (2147483648 <= Qabs (SF2Q x))%Q) by (vm_compute; discriminate).
  split; [assumption|]. split; [assumption|]. split; [assumption|].
  split; [vm_compute; reflexivity|].
  exact (X18_float_to_string_saturates EmptyString x H1 H2 (or_intror H3)).
Defined.
